(** * QuantumPDF: the viewer core of [src/pdf.py], embedded in Rocq

  The embedding follows the Python source class by class:

  - [Py]      the few Python built-ins the viewer relies on
              ([max], [min], [abs], true division, [%]);
  - [Fitz]    the part of PyMuPDF the viewer calls ([Rect], [Matrix],
              [prerotate], [Rect.transform], [Document.load_page]);
  - [Qt]      [QRectF] and [QSize];
  - [Viewer]  class [PDFViewer] (section 3 of the source);
  - [Window]  the tab handling of class [MainWindow] (section 4);
  - [PyText]  the text built-ins of the page box and the print dialog
              ([strip], [split], [in], [int]), integer sets and ranges;
  - [GraphicsView]  the wheel of class [PDFGraphicsView];
  - [Pages]   the page navigation of [MainWindow] and the other actions
              it routes to the current tab;
  - [PrintDialog]  class [AdvancedPrintDialog] and the page loop of
              [MainWindow._print_pdf];
  - [Icons]   the cache of class [IconManager] (section 1).

  The properties follow: [Frame] and [Runs] hold the rules for what a
  call leaves alone and for calls that return; [RotationProps],
  [ZoomProps], [CoordinateProps], [NavigationProps], [SearchProps],
  [GeometryProps], [RenderedProps], [PageProps], [CloseProps] and
  [TabProps] state and prove the properties of the specification.
  [Keeps] holds the rules for what a call keeps true; [InvariantProps],
  [SearchOutcomeProps], [HighlightProps], [ViewProps], [TextProps],
  [PrintProps], [PageTurnProps], [FitProps], [RenderProps],
  [WindowProps] and [IconProps] state and prove further properties of
  the code.

  Python floats are idealised as rationals ([Q]): every arithmetic
  operation is exact.  Pixels, style sheets, icons and log lines are
  not represented; every signal emission, timer operation, thread
  operation and clipboard write is recorded, in program order, in the
  [trace] of the viewer that performs it. *)

From Stdlib Require Import ZArith QArith Qabs List Ascii String Bool Lia Lqa.
From Stdlib Require Import Sorted.
Import ListNotations.

(* ------------------------------------------------------------------ *)
(** ** Python built-ins *)

Module Py.

Local Open Scope Q_scope.

(** [x < y] on floats, as a boolean. *)
Definition Qltb (x y : Q) : bool := negb (Qle_bool y x).

(** [max(a, b)]: the first maximal argument. *)
Definition max (a b : Q) : Q := if Qltb a b then b else a.

(** [min(a, b)]: the first minimal argument. *)
Definition min (a b : Q) : Q := if Qltb b a then b else a.

(** [abs(x)]. *)
Definition abs (x : Q) : Q := Qabs x.

(** [a % b] on integers, for the positive modulus the viewer uses:
    the result takes the sign of the divisor, as [Z.modulo] does. *)
Definition mod_ (a b : Z) : Z := Z.modulo a b.

(** [s == 0.0] *)
Definition is_zero (s : Q) : bool := Qeq_bool s 0.

(** Exceptions the modelled code can raise. *)
Inductive exn : Set :=
| ZeroDivisionError
| ValueError
| IndexError
| AttributeError.

(** [a / b]: raises [ZeroDivisionError] when [b] is zero. *)
Definition truediv (a b : Q) : exn + Q :=
  if is_zero b then inl ZeroDivisionError else inr (a / b).

End Py.

(* ------------------------------------------------------------------ *)
(** ** PyMuPDF ([fitz]) *)

Module Fitz.

Local Open Scope Q_scope.

(** [fitz.Rect(x0, y0, x1, y1)] *)
Record Rect : Set := mkRect { x0 : Q; y0 : Q; x1 : Q; y1 : Q }.

(** [Rect.width] and [Rect.height]: never negative. *)
Definition width (r : Rect) : Q := Py.max 0 (x1 r - x0 r).
Definition height (r : Rect) : Q := Py.max 0 (y1 r - y0 r).

(** [Rect.is_empty] *)
Definition is_empty (r : Rect) : bool :=
  Qle_bool (x1 r) (x0 r) || Qle_bool (y1 r) (y0 r).

(** A rectangle MuPDF calls valid: [x0 <= x1] and [y0 <= y1]. *)
Definition is_valid (r : Rect) : bool :=
  Qle_bool (x0 r) (x1 r) && Qle_bool (y0 r) (y1 r).

(** [rect * s] for a number [s]: all four coordinates are scaled. *)
Definition mul_scalar (r : Rect) (s : Q) : Rect :=
  mkRect (x0 r * s) (y0 r * s) (x1 r * s) (y1 r * s).

(** Coordinate-wise equality up to the equality of rationals. *)
Definition Rect_eq (r r' : Rect) : Prop :=
  x0 r == x0 r' /\ y0 r == y0 r' /\ x1 r == x1 r' /\ y1 r == y1 r'.

(** [fitz.Matrix(a, b, c, d, e, f)] *)
Record Matrix : Set := mkMatrix { ma : Q; mb : Q; mc : Q; md : Q; me : Q; mf : Q }.

(** [fitz.Matrix(sx, sy)]: a scaling matrix. *)
Definition Matrix_scale (sx sy : Q) : Matrix := mkMatrix sx 0 0 sy 0 0.

(** [Matrix.prerotate(theta)] for an integer number of degrees.  The
    angle is first brought into [0, 360); the four right angles are
    handled exactly by permuting and negating coefficients.  Any
    other angle goes through [math.sin] and [math.cos] on binary
    floats, which is outside this development: [None]. *)
Definition prerotate (m : Matrix) (theta : Z) : option Matrix :=
  let t := Z.modulo theta 360 in
  if Z.eqb t 0 then Some m
  else if Z.eqb t 90 then
    Some (mkMatrix (mc m) (md m) (- ma m) (- mb m) (me m) (mf m))
  else if Z.eqb t 180 then
    Some (mkMatrix (- ma m) (- mb m) (- mc m) (- md m) (me m) (mf m))
  else if Z.eqb t 270 then
    Some (mkMatrix (- mc m) (- md m) (ma m) (mb m) (me m) (mf m))
  else None.

(** A point [(x, y)] through a matrix. *)
Definition transform_point (m : Matrix) (p : Q * Q) : Q * Q :=
  let '(x, y) := p in
  (x * ma m + y * mc m + me m, x * mb m + y * md m + mf m).

Definition min4 (a b c d : Q) : Q := Py.min (Py.min a b) (Py.min c d).
Definition max4 (a b c d : Q) : Q := Py.max (Py.max a b) (Py.max c d).

(** [Rect.transform(m)] (MuPDF's [fz_transform_rect]): the smallest
    rectangle that contains the four transformed corners; a
    rectangle that is not valid is returned as it is.  (Releases of
    MuPDF differ on rectangles of zero width or height; the properties
    below transform only rectangles that are not empty, on which
    they agree.) *)
Definition transform (r : Rect) (m : Matrix) : Rect :=
  if is_valid r then
    let s := transform_point m (x0 r, y0 r) in
    let t := transform_point m (x0 r, y1 r) in
    let u := transform_point m (x1 r, y1 r) in
    let v := transform_point m (x1 r, y0 r) in
    mkRect (min4 (fst s) (fst t) (fst u) (fst v))
           (min4 (snd s) (snd t) (snd u) (snd v))
           (max4 (fst s) (fst t) (fst u) (fst v))
           (max4 (snd s) (snd t) (snd u) (snd v))
  else r.

(** A page, as far as the viewer looks at it: its rectangle, and the
    two text services of the engine. *)
Record Page : Type := mkPage {
  rect : Rect;
  search_for : string -> list Rect;
  get_text : Rect -> string
}.

(** An open (or closed) [fitz.Document]. *)
Record Document : Type := mkDocument {
  pages : list Page;
  is_closed : bool
}.

(** [len(doc)] ([Document.page_count]): raises on a closed document. *)
Definition len (d : Document) : Py.exn + Z :=
  if is_closed d then inl Py.ValueError
  else inr (Z.of_nat (List.length (pages d))).

(** [doc.load_page(i)]: raises on a closed document and for
    [i >= page_count]; a negative [i] counts from the end. *)
Definition load_page (d : Document) (i : Z) : Py.exn + Page :=
  if is_closed d then inl Py.ValueError
  else
    let n := Z.of_nat (List.length (pages d)) in
    if Z.ltb i n then
      match nth_error (pages d) (Z.to_nat (Z.modulo i n)) with
      | Some p => inr p
      | None => inl Py.ValueError
      end
    else inl Py.ValueError.

(** [doc.close()] *)
Definition close (d : Document) : Document := mkDocument (pages d) true.

End Fitz.

(* ------------------------------------------------------------------ *)
(** ** Qt value classes *)

Module Qt.

Local Open Scope Q_scope.

(** [QRectF(x, y, w, h)] *)
Record QRectF : Set := mkQRectF { x : Q; y : Q; w : Q; h : Q }.

Definition right (r : QRectF) : Q := x r + w r.
Definition bottom (r : QRectF) : Q := y r + h r.

(** [QSize]: the viewport size in whole pixels. *)
Record QSize : Set := mkQSize { size_width : Z; size_height : Z }.

End Qt.

(* ------------------------------------------------------------------ *)
(** ** class [PDFViewer] *)

Module Viewer.

Import Py.
Local Open Scope Q_scope.

(** Signals of [PDFViewer]. *)
Inductive Signal : Set :=
| page_changed
| zoom_changed (z : Q)
| copied_to_clipboard
| search_results_updated (current total : Z)
| rotation_changed.

(** The two kinds of background worker of a viewer. *)
Inductive Worker : Set := RenderJob | ThumbnailStream.

(** What a method does to the world outside the viewer's attributes,
    in the order in which it does it. *)
Inductive Effect : Set :=
| Emit (s : Signal)
| Timer_start                         (* self._render_timer.start() *)
| Timer_stop                          (* self._render_timer.stop() *)
| Request_interruption (w : Worker)   (* thread.requestInterruption() *)
| Wait (w : Worker)                   (* thread.wait() *)
| Start (w : Worker)                  (* thread.start() *)
| Clipboard_setText (raw : string)    (* clipboard().setText(raw.strip()) *)
| Set_page_pixmap                     (* self.view.set_page_pixmap(pixmap) *)
| Scroll_later (to_bottom : bool)     (* QTimer.singleShot(0, scroll) *)
| Doc_close                           (* self.doc.close() *)
| Widget_close.                       (* super().close() *)

(** [PageRenderThread]: the page, rotation and scale it was built
    with, and whether [isRunning()]. *)
Record PageRenderThread : Type := mkPageRenderThread {
  job_page : Fitz.Page;
  job_rotation : Z;
  job_scale : Q;
  job_running : bool
}.

(** The matrix [PageRenderThread.run] rasterizes the page with:
    [fitz.Matrix(self.scale, self.scale).prerotate(self.rotation)]. *)
Definition render_matrix (scale : Q) (rot : Z) : option Fitz.Matrix :=
  Fitz.prerotate (Fitz.Matrix_scale scale scale) rot.

(** [ThumbnailLoaderThread]: its rotation and whether [isRunning()]. *)
Record ThumbnailLoaderThread : Set := mkThumbnailLoaderThread {
  stream_rotation : Z;
  stream_running : bool
}.

(** A highlight item of the scene: its rectangle and whether it is
    painted as the active match. *)
Record Highlight : Set := mkHighlight {
  hl_rect : Qt.QRectF;
  hl_active : bool
}.

(** The attributes of a [PDFViewer], with the state of its render
    timer, its viewport, the highlight items of its scene, and the
    trace of its effects. *)
Record PDFViewer : Type := mkPDFViewer {
  file_path : string;
  doc : option Fitz.Document;
  current_page_index : Z;
  rotation : Z;
  base_scale : Q;
  current_zoom_factor : Q;
  current_render_scale : Q;
  page_render_thread : option PageRenderThread;
  thumbnail_loader : option ThumbnailLoaderThread;
  search_results : list (Z * Fitz.Rect);
  current_search_index : Z;
  scroll_to_bottom_on_load : bool;
  render_timer_active : bool;
  viewport : option Qt.QSize;
  highlights : list Highlight;
  trace : list Effect
}.

(** *** Attribute assignment *)

Definition set_doc (v : option Fitz.Document) (s : PDFViewer) : PDFViewer :=
  mkPDFViewer (file_path s) v (current_page_index s) (rotation s)
    (base_scale s) (current_zoom_factor s) (current_render_scale s)
    (page_render_thread s) (thumbnail_loader s) (search_results s)
    (current_search_index s) (scroll_to_bottom_on_load s)
    (render_timer_active s) (viewport s) (highlights s) (trace s).

Definition set_current_page_index (v : Z) (s : PDFViewer) : PDFViewer :=
  mkPDFViewer (file_path s) (doc s) v (rotation s)
    (base_scale s) (current_zoom_factor s) (current_render_scale s)
    (page_render_thread s) (thumbnail_loader s) (search_results s)
    (current_search_index s) (scroll_to_bottom_on_load s)
    (render_timer_active s) (viewport s) (highlights s) (trace s).

Definition set_rotation (v : Z) (s : PDFViewer) : PDFViewer :=
  mkPDFViewer (file_path s) (doc s) (current_page_index s) v
    (base_scale s) (current_zoom_factor s) (current_render_scale s)
    (page_render_thread s) (thumbnail_loader s) (search_results s)
    (current_search_index s) (scroll_to_bottom_on_load s)
    (render_timer_active s) (viewport s) (highlights s) (trace s).

Definition set_base_scale (v : Q) (s : PDFViewer) : PDFViewer :=
  mkPDFViewer (file_path s) (doc s) (current_page_index s) (rotation s)
    v (current_zoom_factor s) (current_render_scale s)
    (page_render_thread s) (thumbnail_loader s) (search_results s)
    (current_search_index s) (scroll_to_bottom_on_load s)
    (render_timer_active s) (viewport s) (highlights s) (trace s).

Definition set_current_zoom_factor (v : Q) (s : PDFViewer) : PDFViewer :=
  mkPDFViewer (file_path s) (doc s) (current_page_index s) (rotation s)
    (base_scale s) v (current_render_scale s)
    (page_render_thread s) (thumbnail_loader s) (search_results s)
    (current_search_index s) (scroll_to_bottom_on_load s)
    (render_timer_active s) (viewport s) (highlights s) (trace s).

Definition set_current_render_scale (v : Q) (s : PDFViewer) : PDFViewer :=
  mkPDFViewer (file_path s) (doc s) (current_page_index s) (rotation s)
    (base_scale s) (current_zoom_factor s) v
    (page_render_thread s) (thumbnail_loader s) (search_results s)
    (current_search_index s) (scroll_to_bottom_on_load s)
    (render_timer_active s) (viewport s) (highlights s) (trace s).

Definition set_page_render_thread (v : option PageRenderThread) (s : PDFViewer)
  : PDFViewer :=
  mkPDFViewer (file_path s) (doc s) (current_page_index s) (rotation s)
    (base_scale s) (current_zoom_factor s) (current_render_scale s)
    v (thumbnail_loader s) (search_results s)
    (current_search_index s) (scroll_to_bottom_on_load s)
    (render_timer_active s) (viewport s) (highlights s) (trace s).

Definition set_thumbnail_loader (v : option ThumbnailLoaderThread) (s : PDFViewer)
  : PDFViewer :=
  mkPDFViewer (file_path s) (doc s) (current_page_index s) (rotation s)
    (base_scale s) (current_zoom_factor s) (current_render_scale s)
    (page_render_thread s) v (search_results s)
    (current_search_index s) (scroll_to_bottom_on_load s)
    (render_timer_active s) (viewport s) (highlights s) (trace s).

Definition set_search_results (v : list (Z * Fitz.Rect)) (s : PDFViewer)
  : PDFViewer :=
  mkPDFViewer (file_path s) (doc s) (current_page_index s) (rotation s)
    (base_scale s) (current_zoom_factor s) (current_render_scale s)
    (page_render_thread s) (thumbnail_loader s) v
    (current_search_index s) (scroll_to_bottom_on_load s)
    (render_timer_active s) (viewport s) (highlights s) (trace s).

Definition set_current_search_index (v : Z) (s : PDFViewer) : PDFViewer :=
  mkPDFViewer (file_path s) (doc s) (current_page_index s) (rotation s)
    (base_scale s) (current_zoom_factor s) (current_render_scale s)
    (page_render_thread s) (thumbnail_loader s) (search_results s)
    v (scroll_to_bottom_on_load s)
    (render_timer_active s) (viewport s) (highlights s) (trace s).

Definition set_scroll_to_bottom_on_load (v : bool) (s : PDFViewer) : PDFViewer :=
  mkPDFViewer (file_path s) (doc s) (current_page_index s) (rotation s)
    (base_scale s) (current_zoom_factor s) (current_render_scale s)
    (page_render_thread s) (thumbnail_loader s) (search_results s)
    (current_search_index s) v
    (render_timer_active s) (viewport s) (highlights s) (trace s).

Definition set_render_timer_active (v : bool) (s : PDFViewer) : PDFViewer :=
  mkPDFViewer (file_path s) (doc s) (current_page_index s) (rotation s)
    (base_scale s) (current_zoom_factor s) (current_render_scale s)
    (page_render_thread s) (thumbnail_loader s) (search_results s)
    (current_search_index s) (scroll_to_bottom_on_load s)
    v (viewport s) (highlights s) (trace s).

Definition set_viewport (v : option Qt.QSize) (s : PDFViewer) : PDFViewer :=
  mkPDFViewer (file_path s) (doc s) (current_page_index s) (rotation s)
    (base_scale s) (current_zoom_factor s) (current_render_scale s)
    (page_render_thread s) (thumbnail_loader s) (search_results s)
    (current_search_index s) (scroll_to_bottom_on_load s)
    (render_timer_active s) v (highlights s) (trace s).

Definition set_highlights (v : list Highlight) (s : PDFViewer) : PDFViewer :=
  mkPDFViewer (file_path s) (doc s) (current_page_index s) (rotation s)
    (base_scale s) (current_zoom_factor s) (current_render_scale s)
    (page_render_thread s) (thumbnail_loader s) (search_results s)
    (current_search_index s) (scroll_to_bottom_on_load s)
    (render_timer_active s) (viewport s) v (trace s).

Definition set_trace (v : list Effect) (s : PDFViewer) : PDFViewer :=
  mkPDFViewer (file_path s) (doc s) (current_page_index s) (rotation s)
    (base_scale s) (current_zoom_factor s) (current_render_scale s)
    (page_render_thread s) (thumbnail_loader s) (search_results s)
    (current_search_index s) (scroll_to_bottom_on_load s)
    (render_timer_active s) (viewport s) (highlights s) v.

(** *** Methods as state transformers

    A method either returns (a value and the viewer after the call),
    or raises (the viewer keeps what was assigned before the raise),
    or reaches floating-point trigonometry ([Fitz.prerotate] on an
    angle that is not a multiple of 90). *)

Inductive outcome (A : Type) : Type :=
| Ok (a : A) (s : PDFViewer)
| Raise (e : exn) (s : PDFViewer)
| Float_trig (s : PDFViewer).

Arguments Ok {A} a s.
Arguments Raise {A} e s.
Arguments Float_trig {A} s.

Definition M (A : Type) : Type := PDFViewer -> outcome A.

Definition ret {A} (a : A) : M A := fun s => Ok a s.

Definition bind {A B} (m : M A) (k : A -> M B) : M B :=
  fun s =>
    match m s with
    | Ok a s' => k a s'
    | Raise e s' => Raise e s'
    | Float_trig s' => Float_trig s'
    end.

Notation "x <- c1 ;; c2" := (bind c1 (fun x => c2))
  (at level 61, c1 at next level, right associativity).
Notation "c1 ;; c2" := (bind c1 (fun _ => c2))
  (at level 61, right associativity).

Definition gets {A} (f : PDFViewer -> A) : M A := fun s => Ok (f s) s.
Definition modify (f : PDFViewer -> PDFViewer) : M unit := fun s => Ok tt (f s).
Definition raise {A} (e : exn) : M A := fun s => Raise e s.
Definition float_trig {A} : M A := fun s => Float_trig s.

Definition lift {A} (r : exn + A) : M A :=
  match r with inl e => raise e | inr a => ret a end.

Definition effect (e : Effect) : M unit :=
  modify (fun s => set_trace (trace s ++ [e]) s).

Definition emit (sg : Signal) : M unit := effect (Emit sg).

(** The viewer in which a call ends, however it ends. *)
Definition final {A} (o : outcome A) : PDFViewer :=
  match o with Ok _ s => s | Raise _ s => s | Float_trig s => s end.

(** [try: body except ZeroDivisionError: handler] *)
Definition try_except_ZeroDivisionError {A} (body : M A) (handler : M A) : M A :=
  fun s =>
    match body s with
    | Raise ZeroDivisionError s' => handler s'
    | o => o
    end.

(** [for i in range(n): body(i)] *)
Fixpoint for_each {A} (l : list A) (body : A -> M unit) : M unit :=
  match l with
  | [] => ret tt
  | a :: l' => body a ;; for_each l' body
  end.

Definition range (n : Z) : list Z := map Z.of_nat (seq 0 (Z.to_nat n)).

(** [l[i]]: a negative index counts from the end. *)
Definition getitem {A} (l : list A) (i : Z) : exn + A :=
  let n := Z.of_nat (List.length l) in
  let j := if (i <? 0)%Z then (i + n)%Z else i in
  if (j <? 0)%Z then inl IndexError
  else match nth_error l (Z.to_nat j) with
       | Some a => inr a
       | None => inl IndexError
       end.

(** *** [__init__]

    [fitz_open] is the file system seen through [fitz.open]: [None]
    when opening raises.  [geometry] is the viewport the layout gives
    to the new view. *)
Definition __init__ (fitz_open : string -> option Fitz.Document)
    (geometry : Qt.QSize) (path : string) : PDFViewer :=
  mkPDFViewer path (fitz_open path) 0 0 1 1 1 None None [] (-1) false false
    (match fitz_open path with Some _ => Some geometry | None => None end)
    [] [].

(** The truth value of [self.doc]: [None] is false; a document has
    no [__bool__], so it is true when [len(doc)] is not zero. *)
Definition doc_bool : M bool :=
  d <- gets doc ;;
  match d with
  | None => ret false
  | Some d => n <- lift (Fitz.len d) ;; ret (negb (n =? 0)%Z)
  end.

(** [self.doc.load_page(i)] *)
Definition doc_load_page (i : Z) : M Fitz.Page :=
  d <- gets doc ;;
  match d with
  | None => raise AttributeError
  | Some d => lift (Fitz.load_page d i)
  end.

(** [page_count]: [len(self.doc) if self.doc else 0] *)
Definition page_count : M Z :=
  b <- doc_bool ;;
  if b then
    d <- gets doc ;;
    match d with
    | Some d => lift (Fitz.len d)
    | None => raise AttributeError
    end
  else ret 0%Z.

(** [thread and thread.isRunning()] followed by
    [requestInterruption()] and [wait()], for the render job. *)
Definition stop_render_job : M unit :=
  th <- gets page_render_thread ;;
  match th with
  | Some t =>
      if job_running t then
        effect (Request_interruption RenderJob) ;;
        effect (Wait RenderJob) ;;
        modify (set_page_render_thread
                  (Some (mkPageRenderThread (job_page t) (job_rotation t)
                                            (job_scale t) false)))
      else ret tt
  | None => ret tt
  end.

(** The same for the thumbnail stream. *)
Definition stop_thumbnail_stream : M unit :=
  th <- gets thumbnail_loader ;;
  match th with
  | Some t =>
      if stream_running t then
        effect (Request_interruption ThumbnailStream) ;;
        effect (Wait ThumbnailStream) ;;
        modify (set_thumbnail_loader
                  (Some (mkThumbnailLoaderThread (stream_rotation t) false)))
      else ret tt
  | None => ret tt
  end.

(** [_render_page] *)
Definition _render_page : M unit :=
  b <- doc_bool ;;
  if negb b then ret tt else
  vp <- gets viewport ;;
  match vp with
  | None => ret tt
  | Some _ =>
      stop_render_job ;;
      cur <- gets current_page_index ;;
      page <- doc_load_page cur ;;
      bs <- gets base_scale ;;
      z <- gets current_zoom_factor ;;
      let final_scale := bs * z in
      rot <- gets rotation ;;
      modify (set_page_render_thread
                (Some (mkPageRenderThread page rot final_scale true))) ;;
      effect (Start RenderJob)
  end.

(** [_request_render(immediate)] *)
Definition _request_render (immediate : bool) : M unit :=
  if immediate then
    effect Timer_stop ;;
    modify (set_render_timer_active false) ;;
    _render_page
  else
    effect Timer_start ;;
    modify (set_render_timer_active true).

(** The single-shot render timer fires. *)
Definition _render_timer_timeout : M unit :=
  active <- gets render_timer_active ;;
  if active then modify (set_render_timer_active false) ;; _render_page
  else ret tt.

(** The view-space rectangle [_update_highlights] builds for a match
    rectangle: [rect * self.current_render_scale], then
    [QRectF(x0, y0, width, height)]. *)
Definition highlight_rect (rect : Fitz.Rect) (render_scale : Q) : Qt.QRectF :=
  let highlight_rect := Fitz.mul_scalar rect render_scale in
  Qt.mkQRectF (Fitz.x0 highlight_rect) (Fitz.y0 highlight_rect)
              (Fitz.width highlight_rect) (Fitz.height highlight_rect).

(** The loop of [_update_highlights]: [i] is the index [enumerate]
    gives to the head of [results]. *)
Fixpoint highlight_items (i : Z) (results : list (Z * Fitz.Rect))
    (page_index : Z) (render_scale : Q) (active : Z) : list Highlight :=
  match results with
  | [] => []
  | (p_num, rect) :: rest =>
      let items := highlight_items (i + 1) rest page_index render_scale active in
      if (p_num =? page_index)%Z then
        mkHighlight (highlight_rect rect render_scale) (i =? active)%Z :: items
      else items
  end.

(** [_update_highlights] *)
Definition _update_highlights : M unit :=
  modify (set_highlights []) ;;
  results <- gets search_results ;;
  idx <- gets current_search_index ;;
  match results with
  | [] => ret tt
  | _ :: _ =>
      if (idx <? 0)%Z then ret tt else
      hit <- lift (getitem results idx) ;;
      cur <- gets current_page_index ;;
      if negb (fst hit =? cur)%Z then ret tt else
      s <- gets current_render_scale ;;
      modify (set_highlights (highlight_items 0 results cur s idx))
  end.

(** [_on_page_ready(pixmap, scale)]: a render job delivers. *)
Definition _on_page_ready (scale : Q) : M unit :=
  modify (set_current_render_scale scale) ;;
  effect Set_page_pixmap ;;
  modify (set_highlights []) ;;
  to_bottom <- gets scroll_to_bottom_on_load ;;
  (if to_bottom then
     effect (Scroll_later true) ;;
     modify (set_scroll_to_bottom_on_load false)
   else effect (Scroll_later false)) ;;
  _update_highlights.

(** [set_zoom_factor(factor)] *)
Definition set_zoom_factor (factor : Q) : M unit :=
  let new_factor := max (1 # 10) (min factor 15) in
  z <- gets current_zoom_factor ;;
  if Qltb (1 # 100) (abs (new_factor - z)) then
    modify (set_current_zoom_factor new_factor) ;;
    emit (zoom_changed new_factor) ;;
    _request_render false
  else ret tt.

(** [_recalculate_base_scale_and_render] *)
Definition _recalculate_base_scale_and_render : M unit :=
  b <- doc_bool ;;
  if negb b then ret tt else
  vp <- gets viewport ;;
  match vp with
  | None => ret tt
  | Some view_size =>
      cur <- gets current_page_index ;;
      page <- doc_load_page cur ;;
      if Fitz.is_empty (Fitz.rect page) then ret tt else
      rot <- gets rotation ;;
      match Fitz.prerotate (Fitz.Matrix_scale 1 1) rot with
      | None => float_trig
      | Some m =>
          let page_rect := Fitz.transform (Fitz.rect page) m in
          if is_zero (Fitz.width page_rect) || is_zero (Fitz.height page_rect)
          then ret tt else
          scale_x <- lift (truediv (inject_Z (Qt.size_width view_size))
                                   (Fitz.width page_rect)) ;;
          scale_y <- lift (truediv (inject_Z (Qt.size_height view_size))
                                   (Fitz.height page_rect)) ;;
          modify (set_base_scale (min scale_x scale_y)) ;;
          _request_render false
      end
  end.

(** [rotate(angle)] *)
Definition rotate (angle : Z) : M unit :=
  r <- gets rotation ;;
  modify (set_rotation (mod_ (r + angle) 360)) ;;
  _recalculate_base_scale_and_render ;;
  emit rotation_changed.

(** [fit_to_page] *)
Definition fit_to_page : M unit :=
  modify (set_current_zoom_factor 1) ;;
  emit (zoom_changed 1) ;;
  _recalculate_base_scale_and_render.

(** [display_page(page_num)] *)
Definition display_page (page_num : Z) : M unit :=
  b <- doc_bool ;;
  if negb b then ret tt else
  n <- page_count ;;
  if negb ((0 <=? page_num)%Z && (page_num <? n)%Z) then ret tt else
  cur <- gets current_page_index ;;
  if negb (cur =? page_num)%Z then
    modify (set_current_page_index page_num) ;;
    _request_render true ;;
    emit page_changed
  else fit_to_page.

(** The rectangle [_on_text_selected] builds inside its [try]:
    the four edges of the scene rectangle divided by the render
    scale. *)
Definition scene_to_pdf_rect (scene_rect : Qt.QRectF) (render_scale : Q)
  : exn + Fitz.Rect :=
  match truediv (Qt.x scene_rect) render_scale,
        truediv (Qt.y scene_rect) render_scale,
        truediv (Qt.right scene_rect) render_scale,
        truediv (Qt.bottom scene_rect) render_scale with
  | inr a, inr b, inr c, inr d => inr (Fitz.mkRect a b c d)
  | inl e, _, _, _ => inl e
  | _, inl e, _, _ => inl e
  | _, _, inl e, _ => inl e
  | _, _, _, inl e => inl e
  end.

(** The rotation step of [_on_text_selected]:
    [if self.rotation != 0: pdf_rect.transform(Matrix(1, 1).prerotate(-rotation))];
    [None] when the angle is not a right angle. *)
Definition unrotate (pdf_rect : Fitz.Rect) (rot : Z) : option Fitz.Rect :=
  if negb (rot =? 0)%Z then
    match Fitz.prerotate (Fitz.Matrix_scale 1 1) (- rot) with
    | Some m => Some (Fitz.transform pdf_rect m)
    | None => None
    end
  else Some pdf_rect.

(** [_on_text_selected(scene_rect)] *)
Definition _on_text_selected (scene_rect : Qt.QRectF) : M unit :=
  b <- doc_bool ;;
  if negb b then ret tt else
  s <- gets current_render_scale ;;
  converted <- try_except_ZeroDivisionError
                 (r <- lift (scene_to_pdf_rect scene_rect s) ;; ret (Some r))
                 (ret None) ;;
  match converted with
  | None => ret tt
  | Some pdf_rect =>
      cur <- gets current_page_index ;;
      page <- doc_load_page cur ;;
      rot <- gets rotation ;;
      match unrotate pdf_rect rot with
      | None => float_trig
      | Some pdf_rect =>
          let selected_text := Fitz.get_text page pdf_rect in
          match selected_text with
          | EmptyString => ret tt
          | String _ _ =>
              effect (Clipboard_setText selected_text) ;;
              emit copied_to_clipboard
          end
      end
  end.

(** [_handle_page_scroll(direction)] *)
Definition _handle_page_scroll (direction : Z) : M unit :=
  cur <- gets current_page_index ;;
  if (0 <? direction)%Z then
    n <- page_count ;;
    if (cur <? n - 1)%Z then display_page (cur + 1)
    else ret tt
  else if (direction <? 0)%Z && (0 <? cur)%Z then
    modify (set_scroll_to_bottom_on_load true) ;;
    display_page (cur - 1)
  else ret tt.

(** [_handle_wheel_zoom(factor)] *)
Definition _handle_wheel_zoom (factor : Q) : M unit :=
  z <- gets current_zoom_factor ;;
  set_zoom_factor (z * factor).

(** [zoom_in] *)
Definition zoom_in : M unit :=
  z <- gets current_zoom_factor ;;
  set_zoom_factor (z * (125 # 100)).

(** [zoom_out] *)
Definition zoom_out : M unit :=
  z <- gets current_zoom_factor ;;
  set_zoom_factor (z / (125 # 100)).

(** [fit_to_width] *)
Definition fit_to_width : M unit :=
  b <- doc_bool ;;
  if negb b then ret tt else
  vp <- gets viewport ;;
  match vp with
  | None => ret tt
  | Some view_size =>
      cur <- gets current_page_index ;;
      page <- doc_load_page cur ;;
      if Fitz.is_empty (Fitz.rect page) then ret tt else
      rot <- gets rotation ;;
      match Fitz.prerotate (Fitz.Matrix_scale 1 1) rot with
      | None => float_trig
      | Some m =>
          let page_rect := Fitz.transform (Fitz.rect page) m in
          if is_zero (Fitz.width page_rect) then ret tt else
          scale_for_width <- lift (truediv (inject_Z (Qt.size_width view_size))
                                           (Fitz.width page_rect)) ;;
          bs <- gets base_scale ;;
          new_zoom_factor <- lift (truediv scale_for_width bs) ;;
          set_zoom_factor new_zoom_factor
      end
  end.

(** [resizeEvent]: the layout gives the viewport a new size. *)
Definition resizeEvent (new_size : Qt.QSize) : M unit :=
  modify (set_viewport (Some new_size)) ;;
  _recalculate_base_scale_and_render.

(** [go_to_result(index)] *)
Definition go_to_result (index : Z) : M unit :=
  results <- gets search_results ;;
  let n := Z.of_nat (List.length results) in
  if negb ((0 <=? index)%Z && (index <? n)%Z) then ret tt else
  modify (set_current_search_index index) ;;
  hit <- lift (getitem results index) ;;
  cur <- gets current_page_index ;;
  (if negb (fst hit =? cur)%Z then display_page (fst hit)
   else _update_highlights) ;;
  idx <- gets current_search_index ;;
  results <- gets search_results ;;
  emit (search_results_updated (idx + 1) (Z.of_nat (List.length results))).

(** The body of the page loop of [search_text]. *)
Definition search_page (text : string) (i : Z) : M unit :=
  page <- doc_load_page i ;;
  let rects := Fitz.search_for page text in
  for_each rects
    (fun rect => modify (fun s => set_search_results (search_results s ++ [(i, rect)]) s)).

(** [search_text(text)] *)
Definition search_text (text : string) : M unit :=
  modify (set_search_results []) ;;
  modify (set_current_search_index (-1)) ;;
  match text with
  | EmptyString =>
      _update_highlights ;;
      emit (search_results_updated 0 0)
  | String _ _ =>
      n <- page_count ;;
      for_each (range n) (search_page text) ;;
      results <- gets search_results ;;
      (match results with
       | [] => ret tt
       | _ :: _ =>
           modify (set_current_search_index 0) ;;
           go_to_result 0
       end) ;;
      results <- gets search_results ;;
      idx <- gets current_search_index ;;
      emit (search_results_updated
              (match results with [] => 0 | _ :: _ => idx + 1 end)
              (Z.of_nat (List.length results)))
  end.

(** The third step of [close]: [if self.doc: self.doc.close()] *)
Definition close_document : M unit :=
  b <- doc_bool ;;
  if b then
    d <- gets doc ;;
    match d with
    | Some d =>
        modify (set_doc (Some (Fitz.close d))) ;;
        effect Doc_close
    | None => raise AttributeError
    end
  else ret tt.

(** [close] *)
Definition close : M unit :=
  stop_thumbnail_stream ;;
  stop_render_job ;;
  close_document ;;
  effect Widget_close.

End Viewer.

(* ------------------------------------------------------------------ *)
(** ** class [MainWindow]: tabs and the actions routed to the current tab

  The tab widget is the list of the viewers it holds, in tab order,
  and the index of the current tab ([-1] when there is none).  The
  labels, buttons and thumbnail list the window also updates are not
  represented. *)

Module Window.

Import Viewer.

Record MainWindow : Type := mkMainWindow {
  tabs : list PDFViewer;          (* self.tab_widget.widget(0), (1), ... *)
  current_index : Z;              (* self.tab_widget.currentIndex() *)
  pending_fit_to_page : list string
    (* QTimer.singleShot(50, viewer.fit_to_page), by file path *)
}.

(** The window before any file is opened. *)
Definition empty : MainWindow := mkMainWindow [] (-1) [].

(** [self.tab_widget.widget(i)] *)
Definition widget (w : MainWindow) (i : Z) : option PDFViewer :=
  if (i <? 0)%Z then None else nth_error (tabs w) (Z.to_nat i).

(** [_get_current_viewer] *)
Definition _get_current_viewer (w : MainWindow) : option PDFViewer :=
  widget w (current_index w).

Fixpoint replace_nth {A} (n : nat) (a : A) (l : list A) : list A :=
  match l, n with
  | [], _ => []
  | _ :: l', O => a :: l'
  | b :: l', S n' => b :: replace_nth n' a l'
  end.

Fixpoint remove_nth {A} (n : nat) (l : list A) : list A :=
  match l, n with
  | [], _ => []
  | _ :: l', O => l'
  | b :: l', S n' => b :: remove_nth n' l'
  end.

(** Runs a viewer method on the current viewer.  An exception that
    leaves a slot is reported by [sys.excepthook]; what the method
    assigned before stays assigned. *)
Definition on_current_viewer (m : M unit) (w : MainWindow) : MainWindow :=
  match _get_current_viewer w with
  | None => w
  | Some v =>
      mkMainWindow (replace_nth (Z.to_nat (current_index w)) (final (m v)) (tabs w))
                   (current_index w) (pending_fit_to_page w)
  end.

(** The first [i] in [range(count)] with
    [widget(i).file_path == file_path]. *)
Fixpoint find_tab (file_path : string) (i : Z) (l : list PDFViewer) : option Z :=
  match l with
  | [] => None
  | v :: l' =>
      if String.eqb (Viewer.file_path v) file_path then Some i
      else find_tab file_path (i + 1) l'
  end.

(** The part of [_refresh_thumbnails] that concerns the viewer:
    the running stream is stopped and a new one is started with the
    viewer's rotation. *)
Definition restart_thumbnails : M unit :=
  stop_thumbnail_stream ;;
  rot <- gets rotation ;;
  modify (set_thumbnail_loader (Some (mkThumbnailLoaderThread rot true))) ;;
  effect (Start ThumbnailStream).

(** [_refresh_thumbnails] *)
Definition _refresh_thumbnails (w : MainWindow) : MainWindow :=
  on_current_viewer restart_thumbnails w.

(** [_add_new_tab(file_path)] *)
Definition _add_new_tab (fitz_open : string -> option Fitz.Document)
    (geometry : Qt.QSize) (file_path : string) (w : MainWindow) : MainWindow :=
  match find_tab file_path 0 (tabs w) with
  | Some i => mkMainWindow (tabs w) i (pending_fit_to_page w)
  | None =>
      let viewer := __init__ fitz_open geometry file_path in
      match doc_bool viewer with
      | Ok true viewer =>
          let index := Z.of_nat (List.length (tabs w)) in
          let w' := mkMainWindow (tabs w ++ [viewer]) index (pending_fit_to_page w) in
          let w'' := _refresh_thumbnails w' in
          mkMainWindow (tabs w'') (current_index w'')
                       (pending_fit_to_page w'' ++ [file_path])
      | _ => w
      end
  end.

(** The current index after [removeTab(index)] on [count] tabs: Qt
    keeps the current widget current, and when the current tab is
    the one removed it selects the tab that takes its place, or the
    new last tab. *)
Definition index_after_remove (cur index count : Z) : Z :=
  if (index <? cur)%Z then (cur - 1)%Z
  else if (index =? cur)%Z && (cur =? count - 1)%Z then (cur - 1)%Z
  else cur.

(** [_close_tab(index)] *)
Definition _close_tab (index : Z) (w : MainWindow) : MainWindow :=
  match widget w index with
  | None => w
  | Some v =>
      match Viewer.close v with
      | Ok _ _ =>
          mkMainWindow (remove_nth (Z.to_nat index) (tabs w))
                       (index_after_remove (current_index w) index
                                           (Z.of_nat (List.length (tabs w))))
                       (pending_fit_to_page w)
      | o =>
          mkMainWindow (replace_nth (Z.to_nat index) (final o) (tabs w))
                       (current_index w) (pending_fit_to_page w)
      end
  end.

(** The body of [_go_to_next_result], on the current viewer. *)
Definition next_result : M unit :=
  results <- gets search_results ;;
  match results with
  | [] => ret tt
  | _ :: _ =>
      idx <- gets current_search_index ;;
      let new_index := Py.mod_ (idx + 1) (Z.of_nat (List.length results)) in
      go_to_result new_index
  end.

(** The body of [_go_to_prev_result], on the current viewer. *)
Definition prev_result : M unit :=
  results <- gets search_results ;;
  match results with
  | [] => ret tt
  | _ :: _ =>
      idx <- gets current_search_index ;;
      let n := Z.of_nat (List.length results) in
      let new_index := Py.mod_ (idx - 1 + n) n in
      go_to_result new_index
  end.

Definition _go_to_next_result : MainWindow -> MainWindow :=
  on_current_viewer next_result.

Definition _go_to_prev_result : MainWindow -> MainWindow :=
  on_current_viewer prev_result.

Definition _zoom_in : MainWindow -> MainWindow := on_current_viewer zoom_in.
Definition _zoom_out : MainWindow -> MainWindow := on_current_viewer zoom_out.

(** [_rotate_page(angle)]; [rotation_changed] is connected to
    [_refresh_thumbnails], which therefore runs when [rotate] emits
    it as its last step. *)
Definition _rotate_page (angle : Z) : MainWindow -> MainWindow :=
  on_current_viewer (rotate angle ;; restart_thumbnails).

(** What the user can ask of the window. *)
Inductive Request : Set :=
| AddTab (file_path : string)
| CloseTab (index : Z)
| NextResult
| PrevResult
| ZoomInCurrent
| ZoomOutCurrent
| RotateCurrent (angle : Z).

Definition request (fitz_open : string -> option Fitz.Document)
    (geometry : Qt.QSize) (w : MainWindow) (r : Request) : MainWindow :=
  match r with
  | AddTab p => _add_new_tab fitz_open geometry p w
  | CloseTab i => _close_tab i w
  | NextResult => _go_to_next_result w
  | PrevResult => _go_to_prev_result w
  | ZoomInCurrent => _zoom_in w
  | ZoomOutCurrent => _zoom_out w
  | RotateCurrent angle => _rotate_page angle w
  end.

End Window.

(* ------------------------------------------------------------------ *)
(** ** Python text built-ins: [str.strip], [str.split], [in], [int]

  A text is a [string] of code points below 256: each [ascii] stands
  for the Unicode character with its number (Latin-1).  Characters
  from 256 on are not represented. *)

Module PyText.

Import Py.
Local Open Scope Z_scope.

(** [ord(c)] *)
Definition ord (c : ascii) : Z := Z.of_N (N_of_ascii c).

(** [c.isspace()]: the characters [str.strip()] removes. *)
Definition isspace (c : ascii) : bool :=
  let n := ord c in
  ((9 <=? n) && (n <=? 13)) || ((28 <=? n) && (n <=? 32))
  || (n =? 133) || (n =? 160).

(** [s.lstrip()] *)
Fixpoint lstrip (s : string) : string :=
  match s with
  | EmptyString => EmptyString
  | String c s' => if isspace c then lstrip s' else s
  end.

(** [s.rstrip()] *)
Fixpoint rstrip (s : string) : string :=
  match s with
  | EmptyString => EmptyString
  | String c s' =>
      match rstrip s' with
      | EmptyString => if isspace c then EmptyString else String c EmptyString
      | String c' r => String c (String c' r)
      end
  end.

(** [s.strip()] *)
Definition strip (s : string) : string := rstrip (lstrip s).

(** [s.split(sep)] for a separator of one character: never an empty
    list, and empty pieces are kept. *)
Fixpoint split (sep : ascii) (s : string) : list string :=
  match s with
  | EmptyString => [EmptyString]
  | String c s' =>
      if Ascii.eqb c sep then EmptyString :: split sep s'
      else match split sep s' with
           | piece :: pieces => String c piece :: pieces
           | [] => [String c EmptyString]
           end
  end.

(** [c in s] for a character [c]. *)
Fixpoint contains (c : ascii) (s : string) : bool :=
  match s with
  | EmptyString => false
  | String c' s' => Ascii.eqb c' c || contains c s'
  end.

(** The blanks [int()] skips around a number.  The separators
    U+001C to U+001F, which [strip] removes, are not among them. *)
Definition int_isspace (c : ascii) : bool :=
  let n := ord c in
  ((9 <=? n) && (n <=? 13)) || (n =? 32) || (n =? 133) || (n =? 160).

(** The value of a decimal digit. *)
Definition digit (c : ascii) : option Z :=
  let n := ord c in
  if (48 <=? n) && (n <=? 57) then Some (n - 48) else None.

Fixpoint skip_blanks (s : string) : string :=
  match s with
  | EmptyString => EmptyString
  | String c s' => if int_isspace c then skip_blanks s' else s
  end.

(** The digits of a number, with single underscores allowed between
    two digits: the value read so far, the number of digits, and what
    follows the number.  [None]: an underscore is doubled or comes
    last. *)
Fixpoint scan_digits (s : string) (after_underscore : bool) (value count : Z)
  : option (Z * Z * string) :=
  match s with
  | EmptyString =>
      if after_underscore then None else Some (value, count, EmptyString)
  | String c s' =>
      match digit c with
      | Some v => scan_digits s' false (10 * value + v) (count + 1)
      | None =>
          if Ascii.eqb c "_" then
            if after_underscore then None else scan_digits s' true value count
          else if after_underscore then None
          else Some (value, count, s)
      end
  end.

(** [int(s)] for a text [s]: blanks, an optional sign, decimal digits
    with optional single underscores between them, blanks.  Anything
    else raises [ValueError]; so does a number of more than 640
    digits that has more than [max_str_digits] digits, when that
    limit of the interpreter ([sys.get_int_max_str_digits()]) is not
    zero.  An interpreter without the limit is one with limit 0. *)
Definition int (max_str_digits : Z) (s : string) : exn + Z :=
  let s := skip_blanks s in
  let '(sign, s) :=
    match s with
    | String "+" s' => (1, s')
    | String "-" s' => (-1, s')
    | _ => (1, s)
    end in
  match s with
  | String "_" _ => inl ValueError
  | _ =>
      match scan_digits s false 0 0 with
      | None => inl ValueError
      | Some (value, count, rest) =>
          if count =? 0 then inl ValueError
          else if (640 <? count) && (0 <? max_str_digits)
                  && (max_str_digits <? count)
          then inl ValueError
          else match skip_blanks rest with
               | EmptyString => inr (sign * value)
               | String _ _ => inl ValueError
               end
      end
  end.

(** [range(start, stop)] *)
Definition range2 (start stop : Z) : list Z :=
  map (fun i => start + i) (Viewer.range (stop - start)).

(** A [set] of integers, held as its ascending listing, which is all
    that [sorted(list(pages))] reads of it.  [set_add p s] is
    [s.add(p)] and [set_update s l] is [s.update(l)]. *)
Fixpoint set_add (p : Z) (s : list Z) : list Z :=
  match s with
  | [] => [p]
  | q :: s' =>
      if p <? q then p :: s
      else if p =? q then s
      else q :: set_add p s'
  end.

Definition set_update (s : list Z) (l : list Z) : list Z :=
  fold_left (fun s p => set_add p s) l s.

End PyText.

(* ------------------------------------------------------------------ *)
(** ** class [PDFGraphicsView]: the wheel *)

Module GraphicsView.

Import Viewer.
Local Open Scope Z_scope.

(** What [wheelEvent] reads of its event: whether the modifiers are
    exactly Control, and [angleDelta().y()]. *)
Record QWheelEvent : Set := mkQWheelEvent {
  control_modifier : bool;
  angle_delta_y : Z
}.

(** The vertical scroll bar of the view. *)
Record QScrollBar : Set := mkQScrollBar {
  value : Z;
  minimum : Z;
  maximum : Z
}.

(** What [wheelEvent] does with the event: one of the two signals, or
    the scrolling of [QGraphicsView.wheelEvent]. *)
Inductive WheelAction : Set :=
| zoom_requested_by_wheel (factor : Q)
| page_scroll_requested (direction : Z)
| scrolled.

(** [wheelEvent(event)] *)
Definition wheelEvent (event : QWheelEvent) (v_bar : QScrollBar) : WheelAction :=
  if control_modifier event then
    let angle := angle_delta_y event in
    let factor := if 0 <? angle then (115 # 100)%Q else (1 / (115 # 100))%Q in
    zoom_requested_by_wheel factor
  else
    let is_at_top := value v_bar =? minimum v_bar in
    let is_at_bottom := value v_bar =? maximum v_bar in
    let scroll_delta := angle_delta_y event in
    if (0 <? scroll_delta) && is_at_top then page_scroll_requested (-1)
    else if (scroll_delta <? 0) && is_at_bottom then page_scroll_requested 1
    else scrolled.

(** The slots [PDFViewer] connects to the two signals. *)
Definition deliver (signal : WheelAction) : M unit :=
  match signal with
  | zoom_requested_by_wheel factor => _handle_wheel_zoom factor
  | page_scroll_requested direction => _handle_page_scroll direction
  | scrolled => ret tt
  end.

(** A wheel event on the view of a viewer. *)
Definition wheel (event : QWheelEvent) (v_bar : QScrollBar) : M unit :=
  deliver (wheelEvent event v_bar).

End GraphicsView.

(* ------------------------------------------------------------------ *)
(** ** class [MainWindow]: page navigation and the other actions
       routed to the current tab *)

Module Pages.

Import Py Viewer Window.
Local Open Scope Z_scope.

(** [try: body except ValueError: handler] *)
Definition try_except_ValueError {A} (body : M A) (handler : M A) : M A :=
  fun s =>
    match body s with
    | Raise ValueError s' => handler s'
    | o => o
    end.

(** The body of [_go_to_prev_page], on the current viewer. *)
Definition prev_page : M unit :=
  cur <- gets current_page_index ;;
  if 0 <? cur then
    modify (set_scroll_to_bottom_on_load true) ;;
    cur <- gets current_page_index ;;
    display_page (cur - 1)
  else ret tt.

(** The body of [_go_to_next_page], on the current viewer. *)
Definition next_page : M unit :=
  cur <- gets current_page_index ;;
  n <- page_count ;;
  if cur <? n - 1 then
    cur <- gets current_page_index ;;
    display_page (cur + 1)
  else ret tt.

(** The body of [_go_to_page_from_input], on the current viewer, for
    the text of the page box.  The value is the page number the box is
    set back to, if it is. *)
Definition page_from_input (max_str_digits : Z) (text : string) : M (option Z) :=
  try_except_ValueError
    (n <- lift (PyText.int max_str_digits text) ;;
     let page_num := n - 1 in
     in_range <- (if 0 <=? page_num then
                    count <- page_count ;; ret (page_num <? count)
                  else ret false) ;;
     if in_range : bool then
       display_page page_num ;; ret None
     else
       cur <- gets current_page_index ;; ret (Some (cur + 1)))
    (cur <- gets current_page_index ;; ret (Some (cur + 1))).

Definition _go_to_prev_page : MainWindow -> MainWindow :=
  on_current_viewer prev_page.

Definition _go_to_next_page : MainWindow -> MainWindow :=
  on_current_viewer next_page.

(** [_go_to_page_from_input], with the text of the page box; returns
    the window and the page number written back to the box, if any. *)
Definition _go_to_page_from_input (max_str_digits : Z) (text : string)
    (w : MainWindow) : MainWindow * option Z :=
  match _get_current_viewer w with
  | None => (w, None)
  | Some v =>
      let o := page_from_input max_str_digits text v in
      (mkMainWindow (replace_nth (Z.to_nat (current_index w)) (final o) (tabs w))
                    (current_index w) (pending_fit_to_page w),
       match o with Ok t _ => t | _ => None end)
  end.

Definition _go_to_page_from_thumbnail (page_num : Z) : MainWindow -> MainWindow :=
  on_current_viewer (display_page page_num).

Definition _fit_to_width : MainWindow -> MainWindow := on_current_viewer fit_to_width.
Definition _fit_to_page : MainWindow -> MainWindow := on_current_viewer fit_to_page.

(** [_trigger_search], with the text of the search box. *)
Definition _trigger_search (text : string) : MainWindow -> MainWindow :=
  on_current_viewer (search_text text).

End Pages.

(* ------------------------------------------------------------------ *)
(** ** class [AdvancedPrintDialog] and the page loop of [_print_pdf]

  The dialog is modal: while it is open the viewer it was built on
  and that viewer's document do not change. *)

Module PrintDialog.

Import Py.
Local Open Scope Z_scope.

Inductive Orientation : Set := Portrait | Landscape.
Inductive ColorMode : Set := GrayScale | Color.

(** The attributes and widgets of the dialog that its methods read or
    write.  [preview] is what the preview scene holds: nothing, or
    the page with the quarter turn ([90], [-90] or [0]) its pixmap
    was given. *)
Record AdvancedPrintDialog : Type := mkAdvancedPrintDialog {
  viewer : Viewer.PDFViewer;
  doc : option Fitz.Document;
  preview_page_index : Z;
  printer_combo : string;          (* currentText() *)
  copies_spinbox : Z;              (* value() *)
  grayscale_check : bool;          (* isChecked() *)
  radio_all : bool;
  radio_current : bool;
  radio_range : bool;
  range_input : string;            (* text() *)
  orient_auto : bool;
  orient_portrait : bool;
  orient_landscape : bool;
  preview : option (Z * Z);
  prev_preview_btn : bool;         (* isEnabled() *)
  next_preview_btn : bool
}.

Definition set_preview_page_index (v : Z) (g : AdvancedPrintDialog)
  : AdvancedPrintDialog :=
  mkAdvancedPrintDialog (viewer g) (doc g) v (printer_combo g) (copies_spinbox g)
    (grayscale_check g) (radio_all g) (radio_current g) (radio_range g)
    (range_input g) (orient_auto g) (orient_portrait g) (orient_landscape g)
    (preview g) (prev_preview_btn g) (next_preview_btn g).

Definition set_preview (v : option (Z * Z)) (g : AdvancedPrintDialog)
  : AdvancedPrintDialog :=
  mkAdvancedPrintDialog (viewer g) (doc g) (preview_page_index g) (printer_combo g)
    (copies_spinbox g) (grayscale_check g) (radio_all g) (radio_current g)
    (radio_range g) (range_input g) (orient_auto g) (orient_portrait g)
    (orient_landscape g) v (prev_preview_btn g) (next_preview_btn g).

Definition set_preview_btns (prev next : bool) (g : AdvancedPrintDialog)
  : AdvancedPrintDialog :=
  mkAdvancedPrintDialog (viewer g) (doc g) (preview_page_index g) (printer_combo g)
    (copies_spinbox g) (grayscale_check g) (radio_all g) (radio_current g)
    (radio_range g) (range_input g) (orient_auto g) (orient_portrait g)
    (orient_landscape g) (preview g) prev next.

(** Sequencing of steps that may raise. *)
Definition and_then {A B} (r : exn + A) (k : A -> exn + B) : exn + B :=
  match r with inl e => inl e | inr a => k a end.

Local Notation "x <- r ;; k" := (and_then r (fun x => k))
  (at level 61, r at next level, right associativity).

(** [self.doc.page_count] *)
Definition page_count (doc : option Fitz.Document) : exn + Z :=
  match doc with
  | None => inl AttributeError
  | Some d => Fitz.len d
  end.

(** [self.doc.load_page(i)] *)
Definition load_page (doc : option Fitz.Document) (i : Z) : exn + Fitz.Page :=
  match doc with
  | None => inl AttributeError
  | Some d => Fitz.load_page d i
  end.

(** [page.rect.width > page.rect.height] *)
Definition page_is_landscape (page : Fitz.Page) : bool :=
  Qltb (Fitz.height (Fitz.rect page)) (Fitz.width (Fitz.rect page)).

(** [__init__(parent, viewer)]; [printer] is the printer the combo box
    shows.  The label of the first radio button reads
    [self.doc.page_count]. *)
Definition __init__ (viewer : Viewer.PDFViewer) (printer : string)
  : exn + AdvancedPrintDialog :=
  _ <- page_count (Viewer.doc viewer) ;;
  inr (mkAdvancedPrintDialog viewer (Viewer.doc viewer)
         (Viewer.current_page_index viewer) printer 1 false
         true false false EmptyString true false false None true true).

(** [_update_preview]: the dialog it leaves, and the exception if it
    raises. *)
Definition _update_preview (g : AdvancedPrintDialog)
  : AdvancedPrintDialog * option exn :=
  let g := set_preview None g in
  match load_page (doc g) (preview_page_index g) with
  | inl e => (g, Some e)
  | inr page =>
      let landscape := page_is_landscape page in
      let turn :=
        if orient_landscape g || (orient_auto g && landscape) then
          if negb landscape then 90 else 0
        else if orient_portrait g && landscape then -90
        else 0 in
      let g := set_preview (Some (preview_page_index g, turn)) g in
      match page_count (doc g) with
      | inl e => (g, Some e)
      | inr n =>
          (set_preview_btns (0 <? preview_page_index g)
                            (preview_page_index g <? n - 1) g, None)
      end
  end.

(** [show_prev_preview] *)
Definition show_prev_preview (g : AdvancedPrintDialog)
  : AdvancedPrintDialog * option exn :=
  if 0 <? preview_page_index g then
    _update_preview (set_preview_page_index (preview_page_index g - 1) g)
  else (g, None).

(** [show_next_preview] *)
Definition show_next_preview (g : AdvancedPrintDialog)
  : AdvancedPrintDialog * option exn :=
  match page_count (doc g) with
  | inl e => (g, Some e)
  | inr n =>
      if preview_page_index g <? n - 1 then
        _update_preview (set_preview_page_index (preview_page_index g + 1) g)
      else (g, None)
  end.

(** The body of the loop of [_parse_page_ranges], for one part of the
    text and the set [pages] collected so far.  A part with a hyphen
    is unpacked into exactly two numbers: with more pieces, or with a
    piece that is no number, the unpacking raises [ValueError]. *)
Definition parse_part (max_str_digits : Z) (pages : list Z) (part : string)
  : exn + list Z :=
  let part := PyText.strip part in
  match part with
  | EmptyString => inr pages
  | String _ _ =>
      if PyText.contains "-" part then
        match PyText.split "-" part with
        | [first; second] =>
            start <- PyText.int max_str_digits first ;;
            end_ <- PyText.int max_str_digits second ;;
            let '(start, end_) :=
              if end_ <? start then (end_, start) else (start, end_) in
            inr (PyText.set_update pages (PyText.range2 start (end_ + 1)))
        | _ => inl ValueError
        end
      else
        p <- PyText.int max_str_digits part ;;
        inr (PyText.set_add p pages)
  end.

(** [for part in text.split(','): ...] *)
Fixpoint parse_parts (max_str_digits : Z) (pages : list Z) (parts : list string)
  : exn + list Z :=
  match parts with
  | [] => inr pages
  | part :: rest =>
      pages <- parse_part max_str_digits pages part ;;
      parse_parts max_str_digits pages rest
  end.

(** [[p for p in sorted(list(pages)) if 1 <= p <= self.doc.page_count]]:
    the page count is read for each [p] from 1 on. *)
Fixpoint valid_pages (doc : option Fitz.Document) (pages : list Z) : exn + list Z :=
  match pages with
  | [] => inr []
  | p :: rest =>
      keep <- (if 1 <=? p then n <- page_count doc ;; inr (p <=? n)
               else inr false) ;;
      valid <- valid_pages doc rest ;;
      inr (if keep : bool then p :: valid else valid)
  end.

(** [_parse_page_ranges(text)]: [None] is returned after the warning
    about an invalid range. *)
Definition _parse_page_ranges (max_str_digits : Z) (g : AdvancedPrintDialog)
    (text : string) : exn + option (list Z) :=
  match text with
  | EmptyString => inr (Some [])
  | String _ _ =>
      match parse_parts max_str_digits [] (PyText.split "," text) with
      | inl ValueError => inr None
      | inl e => inl e
      | inr pages =>
          valid <- valid_pages (doc g) pages ;;
          inr (Some valid)
      end
  end.

(** The dictionary [get_print_settings] returns. *)
Record Settings : Set := mkSettings {
  printer_name : string;
  copies : Z;
  color_mode : ColorMode;
  page_list : list Z;
  orientation : Orientation
}.

(** [get_print_settings]: [None] is returned after a warning. *)
Definition get_print_settings (max_str_digits : Z) (g : AdvancedPrintDialog)
  : exn + option Settings :=
  page_list <-
    (if radio_all g then
       n <- page_count (doc g) ;;
       inr (Some (PyText.range2 1 (n + 1)))
     else if radio_current g then
       inr (Some [Viewer.current_page_index (viewer g) + 1])
     else if radio_range g then
       _parse_page_ranges max_str_digits g (range_input g)
     else inr (Some [])) ;;
  match page_list with
  | None => inr None
  | Some [] => inr None
  | Some ((first :: _) as page_list) =>
      orientation <-
        (if orient_landscape g then inr Landscape
         else if orient_auto g then
           page <- load_page (doc g) (first - 1) ;;
           inr (if page_is_landscape page then Landscape else Portrait)
         else inr Portrait) ;;
      inr (Some (mkSettings (printer_combo g) (copies_spinbox g)
                   (if grayscale_check g then GrayScale else Color)
                   page_list orientation))
  end.

(** What the page loop of [_print_pdf] asks of the printer. *)
Inductive PrinterOp : Set :=
| Draw_page (index : Z)      (* painter.drawImage of doc.load_page(index) *)
| New_page.                  (* printer.newPage() *)

(** The page loop of [MainWindow._print_pdf]; [final_page] is
    [settings['page_list'][-1]].  Returns what was asked of the
    printer, and the exception if the loop raises. *)
Fixpoint print_loop (doc : option Fitz.Document) (final_page : Z)
    (page_list : list Z) : list PrinterOp * option exn :=
  match page_list with
  | [] => ([], None)
  | page_num :: rest =>
      match load_page doc (page_num - 1) with
      | inl e => ([], Some e)
      | inr _ =>
          let '(ops, e) := print_loop doc final_page rest in
          (Draw_page (page_num - 1)
             :: (if negb (page_num =? final_page) then [New_page] else []) ++ ops,
           e)
      end
  end.

Definition print_pages (doc : option Fitz.Document) (page_list : list Z)
  : list PrinterOp * option exn :=
  print_loop doc (last page_list 0) page_list.

End PrintDialog.

(* ------------------------------------------------------------------ *)
(** ** class [IconManager]

  An icon is what it was rendered from: the SVG text stored under a
  name, with its stroke colour replaced by a colour.  The class is a
  singleton and its cache a class attribute, so there is one cache. *)

Module Icons.

Local Open Scope string_scope.

(** [QIcon()], or the icon rendered from the SVG of [name] with the
    stroke colour [color]. *)
Inductive QIcon : Set :=
| Null_icon
| Rendered (name color : string).

(** The keys of [_svg_data]; every value is a text that is not empty. *)
Definition _svg_data : list string :=
  ["open"; "print"; "zoom-in"; "zoom-out"; "fit-width"; "fit-page"; "search";
   "arrow-up"; "arrow-down"; "rotate-right"; "rotate-left"; "select"; "hand";
   "close"; "minimize"; "maximize"; "restore"; "welcome_file"].

(** [_icon_cache]: the keys and their icons, the latest first. *)
Definition Cache : Set := list (string * QIcon).

(** [self._icon_cache[key]], if [key in self._icon_cache]. *)
Fixpoint lookup (key : string) (cache : Cache) : option QIcon :=
  match cache with
  | [] => None
  | (k, icon) :: rest => if String.eqb k key then Some icon else lookup key rest
  end.

(** [f"{name}_{color}"] *)
Definition cache_key (name color : string) : string := name ++ "_" ++ color.

(** [get_icon(name, color)]: the icon returned and the cache after the
    call. *)
Definition get_icon (name color : string) (cache : Cache) : QIcon * Cache :=
  let key := cache_key name color in
  match lookup key cache with
  | Some icon => (icon, cache)
  | None =>
      if existsb (String.eqb name) _svg_data then
        let icon := Rendered name color in
        (icon, (key, icon) :: cache)
      else (Null_icon, cache)
  end.

End Icons.

(* ------------------------------------------------------------------ *)
(** ** Facts about the built-ins *)

Module PyFacts.

Import Py.
Local Open Scope Q_scope.

Lemma Qltb_lt x y : Qltb x y = true <-> x < y.
Proof.
  unfold Qltb. rewrite negb_true_iff.
  split; intro H.
  - apply Qnot_le_lt. intro Hle. apply Qle_bool_iff in Hle. congruence.
  - destruct (Qle_bool y x) eqn:E; [|reflexivity].
    apply Qle_bool_iff in E. exfalso. apply (Qlt_not_le _ _ H E).
Qed.

Lemma Qltb_ge x y : Qltb x y = false <-> y <= x.
Proof.
  unfold Qltb. rewrite negb_false_iff. apply Qle_bool_iff.
Qed.

Lemma max_lower a b : a <= max a b.
Proof.
  unfold max. destruct (Qltb a b) eqn:E.
  - apply Qltb_lt in E. apply Qlt_le_weak, E.
  - apply Qle_refl.
Qed.

Lemma max_upper a b c : a <= c -> b <= c -> max a b <= c.
Proof. unfold max. destruct (Qltb a b); auto. Qed.

Lemma min_upper a b : min a b <= b.
Proof.
  unfold min. destruct (Qltb b a) eqn:E.
  - apply Qle_refl.
  - apply Qltb_ge in E. exact E.
Qed.

Lemma is_zero_iff s : is_zero s = true <-> s == 0.
Proof. apply Qeq_bool_iff. Qed.

End PyFacts.

(* ------------------------------------------------------------------ *)
(** ** Reasoning about calls *)

Module Frame.

Import Viewer.

(** [m] leaves the observation [f] of the viewer as it was, however
    the call ends. *)
Definition preserves {A B} (f : PDFViewer -> B) (m : M A) : Prop :=
  forall s, f (final (m s)) = f s.

Section Rules.
Context {B : Type} (f : PDFViewer -> B).

Lemma preserves_ret A (a : A) : preserves f (ret a).
Proof. intros s. reflexivity. Qed.

Lemma preserves_gets A (g : PDFViewer -> A) : preserves f (gets g).
Proof. intros s. reflexivity. Qed.

Lemma preserves_raise A e : preserves f (@raise A e).
Proof. intros s. reflexivity. Qed.

Lemma preserves_float_trig A : preserves f (@float_trig A).
Proof. intros s. reflexivity. Qed.

Lemma preserves_lift A (r : Py.exn + A) : preserves f (lift r).
Proof. destruct r; intros s; reflexivity. Qed.

Lemma preserves_modify (g : PDFViewer -> PDFViewer) :
  (forall s, f (g s) = f s) -> preserves f (modify g).
Proof. intros H s. apply H. Qed.

Lemma preserves_bind A C (m : M A) (k : A -> M C) :
  preserves f m -> (forall a, preserves f (k a)) -> preserves f (bind m k).
Proof.
  intros Hm Hk s. unfold bind.
  specialize (Hm s).
  destruct (m s) as [a s'|e s'|s']; simpl in *; try exact Hm.
  rewrite Hk. exact Hm.
Qed.

Lemma preserves_try A (body handler : M A) :
  preserves f body -> preserves f handler ->
  preserves f (try_except_ZeroDivisionError body handler).
Proof.
  intros Hb Hh s. unfold try_except_ZeroDivisionError.
  specialize (Hb s).
  destruct (body s) as [a s'|e s'|s']; simpl in *; try exact Hb.
  destruct e; simpl; try exact Hb.
  rewrite Hh. exact Hb.
Qed.

Lemma preserves_for_each A (l : list A) (body : A -> M unit) :
  (forall a, preserves f (body a)) -> preserves f (for_each l body).
Proof.
  intros Hb. induction l as [|a l IH]; simpl.
  - apply preserves_ret.
  - apply preserves_bind; auto.
Qed.
End Rules.

(** The methods, for unfolding down to the primitives. *)
Create HintDb methods.
#[export] Hint Unfold doc_bool doc_load_page page_count stop_render_job
  stop_thumbnail_stream _render_page _request_render _render_timer_timeout
  _update_highlights _on_page_ready set_zoom_factor
  _recalculate_base_scale_and_render rotate fit_to_page display_page
  _on_text_selected _handle_page_scroll _handle_wheel_zoom zoom_in zoom_out
  fit_to_width resizeEvent go_to_result search_page search_text close
  close_document emit effect : methods.

(** [assigned] solves the goals [f (g s) = f s] of the assignments. *)
Ltac frame_step assigned :=
  match goal with
  | |- preserves _ (bind _ _) => apply preserves_bind; [| intros ?]
  | |- preserves _ (ret _) => apply preserves_ret
  | |- preserves _ (gets _) => apply preserves_gets
  | |- preserves _ (raise _) => apply preserves_raise
  | |- preserves _ float_trig => apply preserves_float_trig
  | |- preserves _ (lift _) => apply preserves_lift
  | |- preserves _ (modify _) => apply preserves_modify; intros ?; assigned
  | |- preserves _ (try_except_ZeroDivisionError _ _) => apply preserves_try
  | |- preserves _ (for_each _ _) => apply preserves_for_each; intros ?
  | |- preserves _ (if ?b then _ else _) => destruct b
  | |- preserves _ (match ?x with _ => _ end) => destruct x
  end.

Ltac frame_using assigned :=
  repeat (frame_step assigned || autounfold with methods).

Ltac frame := frame_using ltac:(reflexivity).

Lemma go_to_result_keeps_results (index : Z) :
  preserves search_results (go_to_result index).
Proof. frame. Qed.

Lemma recalculate_keeps_rotation :
  preserves rotation _recalculate_base_scale_and_render.
Proof. frame. Qed.

Lemma rotation_after_rotate (angle : Z) (s : PDFViewer) :
  rotation (final (rotate angle s)) = Py.mod_ (rotation s + angle) 360.
Proof.
  unfold rotate.
  change (bind (gets rotation) ?k s) with (k (rotation s) s).
  cbv beta.
  match goal with
  | |- rotation (final (bind (modify ?g) ?k s)) = _ =>
      change (bind (modify g) k s) with (k tt (g s))
  end.
  cbv beta.
  assert (H : preserves rotation
                (_recalculate_base_scale_and_render ;; emit rotation_changed)).
  { frame. }
  rewrite H. reflexivity.
Qed.

End Frame.

(** Calls that return. *)

Module Runs.

Import Viewer Frame.

(** The call [m] in viewer [s] returns (it neither raises nor leaves
    the model). *)
Definition returns {A} (m : M A) (s : PDFViewer) : Prop :=
  exists a s', m s = Ok a s'.

Lemma returns_ret A (a : A) s : returns (ret a) s.
Proof. exists a, s. reflexivity. Qed.

Lemma returns_modify g s : returns (modify g) s.
Proof. exists tt, (g s). reflexivity. Qed.

Lemma returns_effect e s : returns (effect e) s.
Proof. apply returns_modify. Qed.

Lemma returns_bind A B (m : M A) (k : A -> M B) s :
  returns m s ->
  (forall a s', m s = Ok a s' -> returns (k a) s') ->
  returns (bind m k) s.
Proof.
  intros [a [s' Hm]] Hk. unfold returns, bind. rewrite Hm.
  apply (Hk a s' Hm).
Qed.

Lemma returns_bind_pure A B (m : M A) (k : A -> M B) s a :
  m s = Ok a s -> returns (k a) s -> returns (bind m k) s.
Proof. intros Hm Hk. unfold returns, bind. rewrite Hm. exact Hk. Qed.

Lemma bind_ok A B (m : M A) (k : A -> M B) s a s' :
  m s = Ok a s' -> bind m k s = k a s'.
Proof. intros Hm. unfold bind. rewrite Hm. reflexivity. Qed.

Lemma bind_modify B g (k : unit -> M B) s : bind (modify g) k s = k tt (g s).
Proof. reflexivity. Qed.

Lemma bind_gets A B (f : PDFViewer -> A) (k : A -> M B) s :
  bind (gets f) k s = k (f s) s.
Proof. reflexivity. Qed.

Lemma returns_bind_gets A B (f : PDFViewer -> A) (k : A -> M B) s :
  returns (k (f s)) s -> returns (bind (gets f) k) s.
Proof. intros H. exact H. Qed.

Lemma returns_bind_modify B g (k : unit -> M B) s :
  returns (k tt) (g s) -> returns (bind (modify g) k) s.
Proof. intros H. exact H. Qed.

Lemma returns_bind_effect B e (k : unit -> M B) s :
  returns (k tt) (set_trace (trace s ++ [e]) s) -> returns (bind (effect e) k) s.
Proof. intros H. exact H. Qed.

(** What is known of the viewer after a call that returned. *)
Lemma after A B (f : PDFViewer -> B) (m : M A) s a s' :
  preserves f m -> m s = Ok a s' -> f s' = f s.
Proof. intros Hp Hm. specialize (Hp s). rewrite Hm in Hp. exact Hp. Qed.

(** A viewer with an open document [d]. *)
Definition has_open (d : Fitz.Document) (s : PDFViewer) : Prop :=
  doc s = Some d /\ Fitz.is_closed d = false.

Definition count (d : Fitz.Document) : Z := Z.of_nat (List.length (Fitz.pages d)).

Lemma doc_bool_open d s :
  has_open d s -> doc_bool s = Ok (negb (count d =? 0)%Z) s.
Proof.
  intros [Hd Hc]. unfold doc_bool, bind, gets, lift, Fitz.len.
  rewrite Hd, Hc. reflexivity.
Qed.

Lemma page_count_open d s :
  has_open d s -> page_count s = Ok (count d) s.
Proof.
  intros H. unfold page_count, bind. rewrite (doc_bool_open d s H).
  destruct H as [Hd Hc].
  destruct (count d =? 0)%Z eqn:E; simpl.
  - apply Z.eqb_eq in E. rewrite E. reflexivity.
  - unfold gets, lift, Fitz.len. rewrite Hd, Hc. reflexivity.
Qed.

Lemma load_page_in_range d i :
  Fitz.is_closed d = false -> (0 <= i < count d)%Z ->
  exists p, Fitz.load_page d i = inr p.
Proof.
  intros Hc [Hlo Hhi]. unfold Fitz.load_page. rewrite Hc. fold (count d).
  apply Z.ltb_lt in Hhi. rewrite Hhi. apply Z.ltb_lt in Hhi.
  rewrite Z.mod_small by lia.
  destruct (nth_error (Fitz.pages d) (Z.to_nat i)) as [p|] eqn:E.
  - exists p. reflexivity.
  - apply nth_error_None in E. unfold count in Hhi. lia.
Qed.

Lemma doc_load_page_open d s i :
  has_open d s -> (0 <= i < count d)%Z ->
  exists p, doc_load_page i s = Ok p s.
Proof.
  intros [Hd Hc] Hi. destruct (load_page_in_range d i Hc Hi) as [p Hp].
  exists p. unfold doc_load_page, bind, gets. rewrite Hd, Hp. reflexivity.
Qed.

Lemma getitem_in_range A (l : list A) i :
  (0 <= i < Z.of_nat (List.length l))%Z ->
  exists a, getitem l i = inr a /\ In a l.
Proof.
  intros [Hlo Hhi]. unfold getitem.
  assert (E : (i <? 0)%Z = false) by (apply Z.ltb_ge; lia).
  rewrite E, E.
  destruct (nth_error l (Z.to_nat i)) as [a|] eqn:En.
  - exists a. split; [reflexivity|]. eapply nth_error_In; eassumption.
  - apply nth_error_None in En. lia.
Qed.

Lemma stop_render_job_returns s : returns stop_render_job s.
Proof.
  unfold stop_render_job. apply returns_bind_gets.
  destruct (page_render_thread s) as [t|]; [|apply returns_ret].
  destruct (job_running t); [|apply returns_ret].
  apply returns_bind_effect. apply returns_bind_effect. apply returns_modify.
Qed.

Lemma stop_thumbnail_stream_returns s : returns stop_thumbnail_stream s.
Proof.
  unfold stop_thumbnail_stream. apply returns_bind_gets.
  destruct (thumbnail_loader s) as [t|]; [|apply returns_ret].
  destruct (stream_running t); [|apply returns_ret].
  apply returns_bind_effect. apply returns_bind_effect. apply returns_modify.
Qed.

Lemma stop_render_job_keeps_doc : preserves doc stop_render_job.
Proof. frame. Qed.

Lemma stop_render_job_keeps_page : preserves current_page_index stop_render_job.
Proof. frame. Qed.

(** [_render_page] returns when the current page is a page of the
    open document. *)
Lemma _render_page_returns d s :
  has_open d s -> (0 <= current_page_index s < count d)%Z ->
  returns _render_page s.
Proof.
  intros Ho Hi. unfold _render_page.
  eapply returns_bind_pure; [apply (doc_bool_open d s Ho)|].
  destruct (negb (negb (count d =? 0)%Z)); [apply returns_ret|].
  apply returns_bind_gets.
  destruct (viewport s); [|apply returns_ret].
  apply returns_bind; [apply stop_render_job_returns|].
  intros [] s1 H1.
  pose proof (after _ _ doc _ _ _ _ stop_render_job_keeps_doc H1) as Hd1.
  pose proof (after _ _ current_page_index _ _ _ _ stop_render_job_keeps_page H1) as Hp1.
  assert (Ho1 : has_open d s1).
  { destruct Ho as [Hd Hc]. split; [congruence | exact Hc]. }
  apply returns_bind_gets. rewrite Hp1.
  destruct (doc_load_page_open d s1 _ Ho1 Hi) as [p Hp].
  eapply returns_bind_pure; [exact Hp|].
  apply returns_bind_gets. apply returns_bind_gets. apply returns_bind_gets.
  apply returns_bind_modify. apply returns_effect.
Qed.

(** [_update_highlights] returns when the cursor is inside the match
    list. *)
Lemma _update_highlights_returns s :
  (current_search_index s < Z.of_nat (List.length (search_results s)))%Z ->
  returns _update_highlights s.
Proof.
  intros Hi. unfold _update_highlights.
  apply returns_bind_modify. apply returns_bind_gets. apply returns_bind_gets.
  change (search_results (set_highlights [] s)) with (search_results s).
  change (current_search_index (set_highlights [] s)) with (current_search_index s).
  destruct (search_results s) as [|hit rest] eqn:E; [apply returns_ret|].
  destruct (current_search_index s <? 0)%Z eqn:E0; [apply returns_ret|].
  apply Z.ltb_ge in E0.
  destruct (getitem_in_range _ (hit :: rest) (current_search_index s)) as [a [Ha _]];
    [lia|].
  eapply returns_bind_pure; [unfold lift; rewrite Ha; reflexivity|].
  apply returns_bind_gets.
  destruct (negb (fst a =? current_page_index (set_highlights [] s))%Z);
    [apply returns_ret|].
  apply returns_bind_gets. apply returns_modify.
Qed.

(** [display_page(p)] returns for a page other than the current one. *)
Lemma display_page_returns d s p :
  has_open d s -> p <> current_page_index s -> returns (display_page p) s.
Proof.
  intros Ho Hne. unfold display_page.
  eapply returns_bind_pure; [apply (doc_bool_open d s Ho)|].
  destruct (negb (negb (count d =? 0)%Z)); [apply returns_ret|].
  eapply returns_bind_pure; [apply (page_count_open d s Ho)|].
  destruct ((0 <=? p)%Z && (p <? count d)%Z) eqn:Hrange; [|apply returns_ret].
  apply andb_prop in Hrange. destruct Hrange as [Hlo Hhi].
  apply Z.leb_le in Hlo. apply Z.ltb_lt in Hhi.
  simpl negb. cbv iota. apply returns_bind_gets.
  assert (E : (current_page_index s =? p)%Z = false) by (apply Z.eqb_neq; congruence).
  rewrite E. simpl negb. cbv iota.
  apply returns_bind_modify.
  apply returns_bind.
  - unfold _request_render.
    apply returns_bind_effect. apply returns_bind_modify.
    apply (_render_page_returns d).
    + destruct Ho as [Hd Hc]. split; [exact Hd | exact Hc].
    + simpl. lia.
  - intros [] s1 _. apply returns_effect.
Qed.

(** [go_to_result(index)] returns when every match lies on a page
    of the open document. *)
Lemma go_to_result_returns d s index :
  has_open d s ->
  (forall hit, In hit (search_results s) -> (0 <= fst hit < count d)%Z) ->
  returns (go_to_result index) s.
Proof.
  intros Ho Hhits. unfold go_to_result. apply returns_bind_gets. cbv zeta.
  destruct ((0 <=? index)%Z && (index <? Z.of_nat (List.length (search_results s)))%Z)
    eqn:Hrange; [|apply returns_ret].
  apply andb_prop in Hrange. destruct Hrange as [Hlo Hhi].
  apply Z.leb_le in Hlo. apply Z.ltb_lt in Hhi.
  simpl negb. cbv iota. apply returns_bind_modify.
  destruct (getitem_in_range _ (search_results s) index) as [hit [Hget Hin]];
    [lia|].
  eapply returns_bind_pure; [unfold lift; rewrite Hget; reflexivity|].
  apply returns_bind_gets.
  apply returns_bind.
  - destruct (fst hit =? current_page_index (set_current_search_index index s))%Z
      eqn:E; simpl negb; cbv iota.
    + apply _update_highlights_returns. simpl. exact Hhi.
    + apply (display_page_returns d).
      * destruct Ho as [Hd Hc]. split; [exact Hd | exact Hc].
      * apply Z.eqb_neq in E. exact E.
  - intros [] s1 _. apply returns_bind_gets. apply returns_bind_gets.
    apply returns_effect.
Qed.

End Runs.

(* ------------------------------------------------------------------ *)
(** ** Sample documents and viewers *)

Module Samples.

Import Viewer.
Local Open Scope Q_scope.

(** A US-letter page without text. *)
Definition blank_page : Fitz.Page :=
  Fitz.mkPage (Fitz.mkRect 0 0 612 792) (fun _ => []) (fun _ => EmptyString).

Definition r0 : Fitz.Rect := Fitz.mkRect 72 100 110 112.
Definition r2 : Fitz.Rect := Fitz.mkRect 300 640 338 652.

(** A page on which every query is found once, at [r]. *)
Definition page_with_match (r : Fitz.Rect) : Fitz.Page :=
  Fitz.mkPage (Fitz.mkRect 0 0 612 792) (fun _ => [r]) (fun _ => EmptyString).

(** Three pages; a query matches once on page 0 and once on page 2. *)
Definition three_pages : Fitz.Document :=
  Fitz.mkDocument [page_with_match r0; blank_page; page_with_match r2] false.

Definition geometry : Qt.QSize := Qt.mkQSize 800 600.

(** The viewer [PDFViewer(path)] builds when every path opens
    [three_pages]. *)
Definition viewer (path : string) : PDFViewer :=
  __init__ (fun _ => Some three_pages) geometry path.

Definition a_pdf : string := "a.pdf".

End Samples.

(* ------------------------------------------------------------------ *)
(** ** Rotation *)

Module RotationProps.

Import Viewer Frame.

(** One call of a method from the event loop: the viewer it leaves. *)
Definition call (m : M unit) (s : PDFViewer) : PDFViewer := final (m s).

(** The calls [rotate(a)] for the angles of a list, one after the other. *)
Definition rotations (angles : list Z) (s : PDFViewer) : PDFViewer :=
  fold_left (fun s a => call (rotate a) s) angles s.

Definition right_angle (r : Z) : Prop :=
  r = 0%Z \/ r = 90%Z \/ r = 180%Z \/ r = 270%Z.

Definition quarter_turn (a : Z) : Prop := a = 90%Z \/ a = (-90)%Z.

Lemma rotate_keeps_right_angle a s :
  quarter_turn a -> right_angle (rotation s) ->
  right_angle (rotation (call (rotate a) s)).
Proof.
  intros Ha Hr. unfold call. rewrite rotation_after_rotate.
  unfold right_angle, quarter_turn, Py.mod_ in *.
  destruct Ha as [-> | ->];
    destruct Hr as [-> | [-> | [-> | ->]]]; vm_compute; tauto.
Qed.

Lemma rotations_keep_right_angle angles : forall s,
  Forall quarter_turn angles -> right_angle (rotation s) ->
  right_angle (rotation (rotations angles s)).
Proof.
  induction angles as [|a angles IH]; intros s Hall Hr; simpl.
  - exact Hr.
  - inversion Hall; subst.
    apply IH; [assumption|]. apply rotate_keeps_right_angle; assumption.
Qed.

(** C6. From a rotation in {0, 90, 180, 270}, four calls of
    [rotate(90)] bring the rotation back to exactly its value, and
    after any sequence of [rotate(90)] and [rotate(-90)] calls the
    rotation is again one of 0, 90, 180, 270. *)
Theorem rotate_four_times_identity_and_normalised (s : PDFViewer) :
  right_angle (rotation s) ->
  rotation (rotations [90; 90; 90; 90]%Z s) = rotation s /\
  forall angles, Forall quarter_turn angles ->
    right_angle (rotation (rotations angles s)).
Proof.
  intros Hr. split.
  - unfold rotations, call. simpl.
    rewrite !rotation_after_rotate. unfold Py.mod_.
    destruct Hr as [-> | [-> | [-> | ->]]]; reflexivity.
  - intros angles Hall. apply rotations_keep_right_angle; assumption.
Qed.

Lemma rotate_four_times_identity_and_normalised_witness :
  rotation (rotations [90; 90; 90; 90]%Z (Samples.viewer Samples.a_pdf))
    = rotation (Samples.viewer Samples.a_pdf) /\
  forall angles, Forall quarter_turn angles ->
    right_angle (rotation (rotations angles (Samples.viewer Samples.a_pdf))).
Proof.
  apply (rotate_four_times_identity_and_normalised (Samples.viewer Samples.a_pdf)).
  left. reflexivity.
Defined.

End RotationProps.

(* ------------------------------------------------------------------ *)
(** ** Zoom *)

Module ZoomProps.

Import Viewer Frame.
Import RotationProps.
Local Open Scope Q_scope.

(** [clamp(x, lo, hi)], in the words of the specification. *)
Definition clamp (x lo hi : Q) : Q :=
  if Py.Qltb x lo then lo else if Py.Qltb hi x then hi else x.

(** The value [set_zoom_factor] computes first:
    [max(0.1, min(factor, 15.0))]. *)
Definition new_factor (factor : Q) : Q := Py.max (1 # 10) (Py.min factor 15).

(** The ways a zoom multiplier reaches the viewer. *)
Inductive ZoomRequest : Set :=
| Wheel (f : Q)
| ZoomIn
| ZoomOut.

Definition multiplier (r : ZoomRequest) : Q :=
  match r with
  | Wheel f => f
  | ZoomIn => 125 # 100
  | ZoomOut => / (125 # 100)
  end.

Definition perform (r : ZoomRequest) : M unit :=
  match r with
  | Wheel f => _handle_wheel_zoom f
  | ZoomIn => zoom_in
  | ZoomOut => zoom_out
  end.

Ltac order_cases :=
  repeat match goal with
  | H : Py.Qltb _ _ = true |- _ => apply PyFacts.Qltb_lt in H
  | H : Py.Qltb _ _ = false |- _ => apply PyFacts.Qltb_ge in H
  end.

Lemma new_factor_clamp x : new_factor x == clamp x (1 # 10) 15.
Proof.
  unfold new_factor, clamp, Py.max, Py.min.
  destruct (Py.Qltb 15 x) eqn:E1;
    destruct (Py.Qltb x (1 # 10)) eqn:E2;
    try destruct (Py.Qltb (1 # 10) 15) eqn:E3;
    try destruct (Py.Qltb (1 # 10) x) eqn:E4;
    order_cases; try lra; try reflexivity.
Qed.

Lemma new_factor_range x : 1 # 10 <= new_factor x /\ new_factor x <= 15.
Proof.
  unfold new_factor. split.
  - apply PyFacts.max_lower.
  - apply PyFacts.max_upper; [lra | apply PyFacts.min_upper].
Qed.

(** [set_zoom_factor] in closed form. *)
Lemma set_zoom_factor_eq x s :
  set_zoom_factor x s =
  if Py.Qltb (1 # 100) (Qabs (new_factor x - current_zoom_factor s)) then
    Ok tt (set_render_timer_active true
             (set_trace (trace s ++ [Emit (zoom_changed (new_factor x)); Timer_start])
                (set_current_zoom_factor (new_factor x) s)))
  else Ok tt s.
Proof.
  unfold set_zoom_factor, _request_render, emit, effect, bind, gets, modify, Py.abs.
  fold (new_factor x).
  destruct (Py.Qltb (1 # 100) (Qabs (new_factor x - current_zoom_factor s)));
    [|reflexivity].
  unfold set_render_timer_active, set_trace, set_current_zoom_factor; simpl.
  rewrite <- app_assoc. reflexivity.
Qed.

Lemma perform_eq r s :
  perform r s = set_zoom_factor (current_zoom_factor s * multiplier r) s.
Proof. destruct r; reflexivity. Qed.

(** C2, as the code has it.  A multiplier [f] that arrives through
    the wheel, [zoom_in] (1.25) or [zoom_out] (1/1.25) is a call
    [set_zoom_factor(z * f)]; a call [set_zoom_factor(x)] returns,
    and leaves the zoom factor at [clamp(x, 0.1, 15.0)] when that
    differs from the current factor [z] by more than 0.01, and at
    [z] otherwise; a factor within [0.1, 15.0] stays within it. *)
Theorem zoom_request_clamped_outside_dead_band (s : PDFViewer) :
  let z := current_zoom_factor s in
  (forall r, perform r s = set_zoom_factor (z * multiplier r) s) /\
  (forall x,
     let target := clamp x (1 # 10) 15 in
     exists s', set_zoom_factor x s = Ok tt s' /\
       (1 # 100 < Qabs (target - z) -> current_zoom_factor s' == target) /\
       (Qabs (target - z) <= 1 # 100 -> current_zoom_factor s' = z) /\
       (1 # 10 <= z /\ z <= 15 ->
        1 # 10 <= current_zoom_factor s' /\ current_zoom_factor s' <= 15)).
Proof.
  intros z. split; [intro r; apply perform_eq|].
  intros x target. rewrite set_zoom_factor_eq. fold z.
  assert (Habs : Qabs (new_factor x - z) == Qabs (target - z)).
  { unfold target. rewrite (new_factor_clamp x). reflexivity. }
  destruct (Py.Qltb (1 # 100) (Qabs (new_factor x - z))) eqn:E; order_cases.
  - eexists; split; [reflexivity|]. simpl.
    split; [|split].
    + intros _. apply new_factor_clamp.
    + intros Hle. rewrite Habs in E. exfalso. exact (Qlt_not_le _ _ E Hle).
    + intros _. apply new_factor_range.
  - exists s. split; [reflexivity|].
    split; [|split].
    + intros Hlt. rewrite Habs in E. exfalso. exact (Qlt_not_le _ _ Hlt E).
    + reflexivity.
    + tauto.
Qed.

(** The sample viewer after ten calls of [zoom_out]: its zoom factor
    is 0.8^10, about 0.107. *)
Definition zoomed_out_viewer : PDFViewer :=
  Nat.iter 10 (call zoom_out) (Samples.viewer Samples.a_pdf).

Lemma zoom_request_clamped_outside_dead_band_witness :
  let s := Samples.viewer Samples.a_pdf in
  perform ZoomIn s = set_zoom_factor (1 * (125 # 100)) s /\
  exists s', set_zoom_factor (125 # 100) s = Ok tt s' /\
    current_zoom_factor s' == clamp (125 # 100) (1 # 10) 15 /\
    1 # 10 <= current_zoom_factor s' /\ current_zoom_factor s' <= 15.
Proof.
  intros s.
  destruct (zoom_request_clamped_outside_dead_band s) as [Hp Hx].
  split; [exact (Hp ZoomIn)|].
  destruct (Hx (125 # 100)) as [s' [Hs' [Hfar [_ Hrange]]]].
  exists s'. split; [exact Hs'|]. split.
  - apply Hfar. vm_compute. reflexivity.
  - apply Hrange. split; vm_compute; discriminate.
Defined.

(** C2 as stated fails: at zoom factor 0.8^10 a further [zoom_out]
    asks for a factor below 0.1, [clamp] gives 0.1, and the zoom
    factor stays at 0.8^10. *)
Lemma zoom_out_near_minimum_is_not_the_clamp :
  let z := current_zoom_factor zoomed_out_viewer in
  ~ current_zoom_factor (call (perform ZoomOut) zoomed_out_viewer)
    == clamp (z * multiplier ZoomOut) (1 # 10) 15.
Proof.
  intros z H. apply Qeq_bool_iff in H. vm_compute in H. discriminate.
Qed.

(** Calls [set_zoom_factor(x)] for the factors of a list, one after
    the other. *)
Definition zoom_requests (xs : list Q) (s : PDFViewer) : PDFViewer :=
  fold_left (fun s x => call (set_zoom_factor x) s) xs s.

(** C9. When the clamped request is within 0.01 of the current zoom
    factor, [set_zoom_factor] returns with the viewer exactly as it
    was: same zoom factor, no [zoom_changed], render timer not
    armed.  Any number of such requests leaves the viewer as it was,
    and this happens also when the clamped request is not the
    current factor (1.005 against 1.0). *)
Theorem zoom_dead_band :
  (forall s x,
     Qabs (new_factor x - current_zoom_factor s) <= 1 # 100 ->
     set_zoom_factor x s = Ok tt s) /\
  (forall s xs,
     Forall (fun x => Qabs (new_factor x - current_zoom_factor s) <= 1 # 100) xs ->
     zoom_requests xs s = s) /\
  (let s := Samples.viewer Samples.a_pdf in
   ~ new_factor (1005 # 1000) == current_zoom_factor s /\
   set_zoom_factor (1005 # 1000) s = Ok tt s).
Proof.
  assert (H1 : forall s x,
             Qabs (new_factor x - current_zoom_factor s) <= 1 # 100 ->
             set_zoom_factor x s = Ok tt s).
  { intros s x H. rewrite set_zoom_factor_eq.
    destruct (Py.Qltb (1 # 100) (Qabs (new_factor x - current_zoom_factor s))) eqn:E;
      [|reflexivity].
    order_cases. exfalso. exact (Qlt_not_le _ _ E H). }
  split; [exact H1|]. split.
  - intros s xs. induction xs as [|x xs IH]; intros Hall.
    + reflexivity.
    + inversion Hall; subst.
      change (zoom_requests xs (call (set_zoom_factor x) s) = s).
      unfold call. rewrite H1 by assumption. simpl. apply IH. assumption.
  - split.
    + intro H. apply Qeq_bool_iff in H. vm_compute in H. discriminate.
    + apply H1. vm_compute. discriminate.
Qed.

Lemma zoom_dead_band_witness :
  set_zoom_factor (1005 # 1000) (Samples.viewer Samples.a_pdf)
    = Ok tt (Samples.viewer Samples.a_pdf) /\
  zoom_requests [1005 # 1000; 995 # 1000; 1]
    (Samples.viewer Samples.a_pdf) = Samples.viewer Samples.a_pdf.
Proof.
  destruct zoom_dead_band as [H1 [H2 _]]. split.
  - apply H1. vm_compute. discriminate.
  - apply H2. repeat constructor; vm_compute; discriminate.
Defined.

End ZoomProps.

(* ------------------------------------------------------------------ *)
(** ** Coordinates: scene rectangles and page rectangles *)

Module CoordinateProps.

Import Viewer Frame.
Local Open Scope Q_scope.

(** Document space to view space, as [_update_highlights] does it. *)
Definition to_view (r : Fitz.Rect) (render_scale : Q) (rot : Z) : Qt.QRectF :=
  highlight_rect r render_scale.

(** View space to document space, as [_on_text_selected] does it:
    [inl] when the division raises, [inr None] outside right angles. *)
Definition to_document (v : Qt.QRectF) (render_scale : Q) (rot : Z)
  : Py.exn + option Fitz.Rect :=
  match scene_to_pdf_rect v render_scale with
  | inl e => inl e
  | inr pdf_rect => inr (unrotate pdf_rect rot)
  end.

Lemma truediv_nonzero a s : ~ s == 0 -> Py.truediv a s = inr (a / s).
Proof.
  intros Hs. unfold Py.truediv.
  destruct (Py.is_zero s) eqn:E; [|reflexivity].
  apply PyFacts.is_zero_iff in E. contradiction.
Qed.

Lemma truediv_zero a s : s == 0 -> Py.truediv a s = inl Py.ZeroDivisionError.
Proof.
  intros Hs. unfold Py.truediv.
  apply PyFacts.is_zero_iff in Hs. rewrite Hs. reflexivity.
Qed.

Lemma scene_to_pdf_rect_zero v s :
  s == 0 -> scene_to_pdf_rect v s = inl Py.ZeroDivisionError.
Proof.
  intros Hs. unfold scene_to_pdf_rect. rewrite !(truediv_zero _ s Hs). reflexivity.
Qed.

(** C1, evaluated at rotation 90: the rectangle (1, 2, 3, 4) goes to
    view space unrotated, and comes back as (2, -3, 4, -1). *)
Theorem round_trip_at_rotation_90 :
  let R := Fitz.mkRect 1 2 3 4 in
  to_view R 1 90 = Qt.mkQRectF (1 * 1) (2 * 1) (3 * 1 - 1 * 1) (4 * 1 - 2 * 1) /\
  exists R', to_document (to_view R 1 90) 1 90 = inr (Some R') /\
    Fitz.Rect_eq R' (Fitz.mkRect 2 (-3) 4 (-1)) /\
    ~ Fitz.Rect_eq R' R.
Proof.
  intros R. split; [reflexivity|].
  eexists. split; [vm_compute; reflexivity|]. split.
  - repeat split; vm_compute; reflexivity.
  - intros [H _]. vm_compute in H. discriminate.
Qed.

(** Without rotation the two directions are inverse to each other. *)
Lemma round_trip_unrotated (R : Fitz.Rect) (s : Q) :
  Fitz.is_valid R = true -> 0 < s ->
  exists R', to_document (to_view R s 0) s 0 = inr (Some R') /\ Fitz.Rect_eq R' R.
Proof.
  intros Hv Hs.
  assert (Hs0 : ~ s == 0) by lra.
  unfold to_document, to_view, scene_to_pdf_rect.
  rewrite !(truediv_nonzero _ s Hs0).
  eexists. split; [reflexivity|].
  unfold Fitz.is_valid in Hv. apply andb_prop in Hv. destruct Hv as [Hx Hy].
  apply Qle_bool_iff in Hx. apply Qle_bool_iff in Hy.
  destruct R as [a b c d]; simpl in *.
  unfold Fitz.Rect_eq, Qt.right, Qt.bottom, highlight_rect,
    Fitz.width, Fitz.height, Fitz.mul_scalar, Py.max; simpl.
  assert (Hc : c * s - a * s == (c - a) * s) by ring.
  assert (Hd : d * s - b * s == (d - b) * s) by ring.
  assert (Hcs : 0 <= (c - a) * s) by (apply Qmult_le_0_compat; lra).
  assert (Hds : 0 <= (d - b) * s) by (apply Qmult_le_0_compat; lra).
  repeat split.
  - field. exact Hs0.
  - field. exact Hs0.
  - destruct (Py.Qltb 0 (c * s - a * s)) eqn:E.
    + field. exact Hs0.
    + apply PyFacts.Qltb_ge in E.
      assert (Hz : (c - a) * s == 0) by lra.
      apply Qmult_integral in Hz. destruct Hz as [Hz | Hz]; [|contradiction].
      assert (Hca : c == a) by lra. rewrite Hca. field. exact Hs0.
  - destruct (Py.Qltb 0 (d * s - b * s)) eqn:E.
    + field. exact Hs0.
    + apply PyFacts.Qltb_ge in E.
      assert (Hz : (d - b) * s == 0) by lra.
      apply Qmult_integral in Hz. destruct Hz as [Hz | Hz]; [|contradiction].
      assert (Hdb : d == b) by lra. rewrite Hdb. field. exact Hs0.
Qed.

(** C5. With a render scale of zero, building the page rectangle
    raises [ZeroDivisionError]; [_on_text_selected] catches it:
    the viewer ends exactly as it was (nothing extracted, nothing
    copied, nothing emitted), the call does not end in
    [ZeroDivisionError], and with an open (or absent) document it
    returns normally. *)
Theorem text_selection_guarded_at_zero_scale
    (scene_rect : Qt.QRectF) (s : PDFViewer) :
  current_render_scale s == 0 ->
  scene_to_pdf_rect scene_rect (current_render_scale s) = inl Py.ZeroDivisionError /\
  final (_on_text_selected scene_rect s) = s /\
  (forall s', _on_text_selected scene_rect s <> Raise Py.ZeroDivisionError s') /\
  ((forall d, doc s = Some d -> Fitz.is_closed d = false) ->
   _on_text_selected scene_rect s = Ok tt s).
Proof.
  intros Hz.
  pose proof (scene_to_pdf_rect_zero scene_rect _ Hz) as Hraise.
  split; [exact Hraise|].
  unfold _on_text_selected, doc_bool, bind, gets, try_except_ZeroDivisionError,
    lift, ret, raise.
  destruct (doc s) as [d|] eqn:Hd.
  - unfold Fitz.len. destruct (Fitz.is_closed d) eqn:Hc.
    + split; [reflexivity|]. split; [intros s'; discriminate|].
      intros H. specialize (H d eq_refl). congruence.
    + destruct (negb (negb (Z.of_nat (List.length (Fitz.pages d)) =? 0)%Z)).
      * split; [reflexivity|]. split; [intros s'; discriminate|]. reflexivity.
      * rewrite Hraise. simpl.
        split; [reflexivity|]. split; [intros s'; discriminate|]. reflexivity.
  - simpl. split; [reflexivity|]. split; [intros s'; discriminate|]. reflexivity.
Qed.

(** The sample viewer before any render was delivered, with a
    render scale of zero. *)
Definition zero_scale_viewer : PDFViewer :=
  set_current_render_scale 0 (Samples.viewer Samples.a_pdf).

Lemma text_selection_guarded_at_zero_scale_witness :
  let v := Qt.mkQRectF 10 10 50 20 in
  scene_to_pdf_rect v (current_render_scale zero_scale_viewer)
    = inl Py.ZeroDivisionError /\
  final (_on_text_selected v zero_scale_viewer) = zero_scale_viewer /\
  _on_text_selected v zero_scale_viewer = Ok tt zero_scale_viewer.
Proof.
  intros v.
  destruct (text_selection_guarded_at_zero_scale v zero_scale_viewer)
    as [H1 [H2 [_ H4]]].
  - reflexivity.
  - split; [exact H1|]. split; [exact H2|].
    apply H4. intros d Hd. vm_compute in Hd. injection Hd as <-. reflexivity.
Defined.

End CoordinateProps.

(* ------------------------------------------------------------------ *)
(** ** Search navigation *)

Module NavigationProps.

Import Viewer Frame Window.

(** The cursor of the current viewer. *)
Definition cursor (w : MainWindow) : option Z :=
  option_map current_search_index (_get_current_viewer w).

Lemma nth_error_replace_nth {A} (l : list A) : forall n a b,
  nth_error l n = Some b -> nth_error (replace_nth n a l) n = Some a.
Proof.
  induction l as [|c l IH]; intros [|n] a b H; simpl in *;
    try discriminate; try reflexivity.
  eapply IH; eassumption.
Qed.

Lemma replace_nth_same {A} (l : list A) : forall n a,
  nth_error l n = Some a -> replace_nth n a l = l.
Proof.
  induction l as [|c l IH]; intros [|n] a H; simpl in *;
    try discriminate; try congruence.
  f_equal. apply IH. assumption.
Qed.

Lemma current_after (m : M unit) (w : MainWindow) (v : PDFViewer) :
  _get_current_viewer w = Some v ->
  _get_current_viewer (on_current_viewer m w) = Some (final (m v)).
Proof.
  intros H. unfold on_current_viewer. rewrite H.
  unfold _get_current_viewer, widget in *. simpl.
  destruct (current_index w <? 0)%Z; [discriminate|].
  eapply nth_error_replace_nth; eassumption.
Qed.

Lemma unchanged_after (m : M unit) (w : MainWindow) (v : PDFViewer) :
  _get_current_viewer w = Some v -> final (m v) = v ->
  on_current_viewer m w = w.
Proof.
  intros H Hv. unfold on_current_viewer. rewrite H, Hv.
  unfold _get_current_viewer, widget in H.
  destruct (current_index w <? 0)%Z; [discriminate|].
  rewrite (replace_nth_same _ _ _ H). destruct w; reflexivity.
Qed.

(** After the bounds check and the assignment of the cursor, nothing
    in [go_to_result] assigns the cursor again. *)
Lemma cursor_after_go_to_result (index : Z) (v : PDFViewer) :
  (0 <= index < Z.of_nat (List.length (search_results v)))%Z ->
  current_search_index (final (go_to_result index v)) = index.
Proof.
  intros [Hlo Hhi]. unfold go_to_result.
  change (bind (gets search_results) ?k v) with (k (search_results v) v).
  cbv beta zeta.
  apply Z.leb_le in Hlo. apply Z.ltb_lt in Hhi. rewrite Hlo, Hhi.
  cbn [negb andb].
  match goal with
  | |- current_search_index (final (bind (modify ?g) ?k v)) = _ =>
      change (bind (modify g) k v) with (k tt (g v));
      assert (H : preserves current_search_index (k tt)) by frame
  end.
  cbv beta. rewrite H. reflexivity.
Qed.

Lemma cursor_after_next (v : PDFViewer) :
  search_results v <> [] ->
  current_search_index (final (next_result v)) =
    ((current_search_index v + 1) mod Z.of_nat (List.length (search_results v)))%Z.
Proof.
  intros Hne. unfold next_result.
  change (bind (gets search_results) ?k v) with (k (search_results v) v).
  cbv beta. destruct (search_results v) as [|hit rest] eqn:E; [congruence|].
  change (bind (gets current_search_index) ?k v) with (k (current_search_index v) v).
  cbv beta zeta. unfold Py.mod_.
  apply cursor_after_go_to_result. rewrite E.
  apply Z.mod_pos_bound. simpl List.length. lia.
Qed.

Lemma cursor_after_prev (v : PDFViewer) :
  search_results v <> [] ->
  let n := Z.of_nat (List.length (search_results v)) in
  current_search_index (final (prev_result v)) =
    ((current_search_index v - 1 + n) mod n)%Z.
Proof.
  intros Hne n. unfold prev_result.
  change (bind (gets search_results) ?k v) with (k (search_results v) v).
  cbv beta. subst n. destruct (search_results v) as [|hit rest] eqn:E; [congruence|].
  change (bind (gets current_search_index) ?k v) with (k (current_search_index v) v).
  cbv beta zeta. unfold Py.mod_.
  apply cursor_after_go_to_result. rewrite E.
  apply Z.mod_pos_bound. simpl List.length. lia.
Qed.

(** C8. With a non-empty match list of length [n] and the cursor at
    [i], [_go_to_next_result] moves the cursor of the current viewer
    to [(i + 1) mod n] and [_go_to_prev_result] to
    [(i - 1 + n) mod n], the match list staying as it is; with an
    empty match list both leave the window as it was. *)
Theorem search_navigation_is_cyclic (w : MainWindow) (v : PDFViewer) :
  _get_current_viewer w = Some v ->
  let n := Z.of_nat (List.length (search_results v)) in
  let i := current_search_index v in
  (search_results v <> [] -> (0 <= i < n)%Z ->
     cursor (_go_to_next_result w) = Some ((i + 1) mod n)%Z /\
     cursor (_go_to_prev_result w) = Some ((i - 1 + n) mod n)%Z /\
     option_map search_results (_get_current_viewer (_go_to_next_result w))
       = Some (search_results v) /\
     option_map search_results (_get_current_viewer (_go_to_prev_result w))
       = Some (search_results v)) /\
  (search_results v = [] ->
     _go_to_next_result w = w /\ _go_to_prev_result w = w).
Proof.
  intros Hv n i. split.
  - intros Hne _. unfold cursor, _go_to_next_result, _go_to_prev_result.
    rewrite !(current_after _ _ _ Hv). simpl.
    rewrite cursor_after_next by exact Hne.
    rewrite cursor_after_prev by exact Hne.
    repeat split.
    + unfold next_result.
      change (bind (gets search_results) ?k v) with (k (search_results v) v).
      cbv beta. destruct (search_results v) eqn:E; [congruence|].
      change (bind (gets current_search_index) ?k v)
        with (k (current_search_index v) v).
      cbv beta zeta. rewrite go_to_result_keeps_results. rewrite E. reflexivity.
    + unfold prev_result.
      change (bind (gets search_results) ?k v) with (k (search_results v) v).
      cbv beta. destruct (search_results v) eqn:E; [congruence|].
      change (bind (gets current_search_index) ?k v)
        with (k (current_search_index v) v).
      cbv beta zeta. rewrite go_to_result_keeps_results. rewrite E. reflexivity.
  - intros Hempty. split; apply (unchanged_after _ _ _ Hv);
      unfold next_result, prev_result, bind, gets; rewrite Hempty; reflexivity.
Qed.

(** A window whose only tab shows the sample document after a
    search and one step forward: two matches, cursor at 1. *)
Definition two_matches_cursor_1 : MainWindow :=
  _go_to_next_result
    (mkMainWindow [final (search_text "test" (Samples.viewer Samples.a_pdf))] 0 []).

Lemma search_navigation_is_cyclic_witness :
  cursor two_matches_cursor_1 = Some 1%Z /\
  cursor (_go_to_next_result two_matches_cursor_1) = Some 0%Z /\
  cursor (_go_to_prev_result two_matches_cursor_1) = Some 0%Z.
Proof.
  split; [vm_compute; reflexivity|].
  destruct (_get_current_viewer two_matches_cursor_1) as [v|] eqn:Hv;
    [|vm_compute in Hv; discriminate].
  destruct (search_navigation_is_cyclic two_matches_cursor_1 v Hv) as [Hmove _].
  assert (Hres : search_results v = [(0%Z, Samples.r0); (2%Z, Samples.r2)]).
  { vm_compute in Hv. injection Hv as <-. reflexivity. }
  assert (Hcur : current_search_index v = 1%Z).
  { vm_compute in Hv. injection Hv as <-. reflexivity. }
  destruct Hmove as [Hnext [Hprev _]].
  - rewrite Hres. discriminate.
  - rewrite Hres, Hcur. simpl. lia.
  - rewrite Hres, Hcur in Hnext, Hprev. split; [exact Hnext | exact Hprev].
Defined.

End NavigationProps.

(* ------------------------------------------------------------------ *)
(** ** Search *)

Module SearchProps.

Import Viewer Frame.

(** The match list the specification describes: pages in index
    order, and on each page the rectangles in the order in which the
    engine reports them. *)
Definition matches_from (k : nat) (pages : list Fitz.Page) (text : string)
  : list (Z * Fitz.Rect) :=
  flat_map (fun ip => map (pair (fst ip)) (Fitz.search_for (snd ip) text))
           (combine (map Z.of_nat (seq k (List.length pages))) pages).

Definition expected_matches (d : Fitz.Document) (text : string)
  : list (Z * Fitz.Rect) :=
  matches_from 0 (Fitz.pages d) text.

Lemma set_search_results_same s : set_search_results (search_results s) s = s.
Proof. destruct s; reflexivity. Qed.

(** The inner loop of [search_text] appends the page's rectangles. *)
Lemma append_rects (i : Z) (rects : list Fitz.Rect) : forall s,
  for_each rects
    (fun rect => modify (fun s => set_search_results (search_results s ++ [(i, rect)]) s)) s
  = Ok tt (set_search_results (search_results s ++ map (pair i) rects) s).
Proof.
  induction rects as [|r rects IH]; intros s; simpl.
  - rewrite app_nil_r, set_search_results_same. reflexivity.
  - unfold bind, modify at 1. rewrite IH.
    simpl. rewrite <- app_assoc. reflexivity.
Qed.

Lemma load_page_nth (d : Fitz.Document) (before after : list Fitz.Page) (p : Fitz.Page) :
  Fitz.is_closed d = false -> Fitz.pages d = before ++ p :: after ->
  Fitz.load_page d (Z.of_nat (List.length before)) = inr p.
Proof.
  intros Hc Hp. unfold Fitz.load_page. rewrite Hc, Hp.
  rewrite length_app. simpl List.length.
  assert (Hlt : (Z.of_nat (List.length before)
                 <? Z.of_nat (List.length before + S (List.length after)))%Z = true)
    by (apply Z.ltb_lt; lia).
  rewrite Hlt. rewrite Z.mod_small by lia. rewrite Nat2Z.id.
  rewrite nth_error_app2 by lia. rewrite Nat.sub_diag. reflexivity.
Qed.

Lemma search_page_appends (text : string) (d : Fitz.Document)
    (before after : list Fitz.Page) (p : Fitz.Page) (s : PDFViewer) :
  doc s = Some d -> Fitz.is_closed d = false ->
  Fitz.pages d = before ++ p :: after ->
  search_page text (Z.of_nat (List.length before)) s
  = Ok tt (set_search_results
             (search_results s
                ++ map (pair (Z.of_nat (List.length before))) (Fitz.search_for p text)) s).
Proof.
  intros Hd Hc Hp. unfold search_page, doc_load_page, bind, gets.
  rewrite Hd, (load_page_nth d before after p Hc Hp). simpl lift. unfold ret.
  apply append_rects.
Qed.

(** The page loop of [search_text], from page [length before] on. *)
Lemma page_loop (text : string) (d : Fitz.Document) (after : list Fitz.Page) :
  forall (before : list Fitz.Page) (s : PDFViewer),
  doc s = Some d -> Fitz.is_closed d = false ->
  Fitz.pages d = before ++ after ->
  for_each (map Z.of_nat (seq (List.length before) (List.length after)))
           (search_page text) s
  = Ok tt (set_search_results
             (search_results s ++ matches_from (List.length before) after text) s).
Proof.
  induction after as [|p after IH]; intros before s Hd Hc Hp.
  - simpl. unfold matches_from. simpl.
    rewrite app_nil_r, set_search_results_same. reflexivity.
  - simpl for_each. unfold bind.
    rewrite (search_page_appends text d before after p s Hd Hc Hp).
    specialize (IH (before ++ [p])).
    rewrite length_app in IH. simpl List.length in IH.
    replace (List.length before + 1)%nat with (S (List.length before)) in IH by lia.
    rewrite IH; [| exact Hd | exact Hc | rewrite <- app_assoc; exact Hp].
    simpl. unfold matches_from. simpl. rewrite <- app_assoc. reflexivity.
Qed.

(** Every match of a page range carries a page index of that range. *)
Lemma matches_from_bounds (text : string) (pages : list Fitz.Page) :
  forall k hit, In hit (matches_from k pages text) ->
  (Z.of_nat k <= fst hit < Z.of_nat (k + List.length pages))%Z.
Proof.
  induction pages as [|p pages IH]; intros k hit Hin.
  - contradiction.
  - unfold matches_from in Hin. simpl in Hin.
    apply in_app_or in Hin. destruct Hin as [Hin | Hin].
    + apply in_map_iff in Hin. destruct Hin as [r [<- _]]. simpl. lia.
    + apply (IH (S k)) in Hin. simpl List.length. lia.
Qed.

Lemma strongly_sorted_app (l1 l2 : list Z) :
  StronglySorted Z.le l1 -> StronglySorted Z.le l2 ->
  (forall a b, In a l1 -> In b l2 -> (a <= b)%Z) ->
  StronglySorted Z.le (l1 ++ l2).
Proof.
  induction l1 as [|a l1 IH]; intros H1 H2 H12; simpl.
  - exact H2.
  - inversion H1; subst. constructor.
    + apply IH; auto. intros; apply H12; simpl; auto.
    + apply Forall_app. split; [assumption|].
      apply Forall_forall. intros b Hb. apply H12; simpl; auto.
Qed.

Lemma strongly_sorted_constant (i : Z) (n : nat) :
  StronglySorted Z.le (repeat i n).
Proof.
  induction n as [|n IH]; simpl; constructor; [exact IH|].
  apply Forall_forall. intros b Hb. apply repeat_spec in Hb. lia.
Qed.

Lemma matches_from_sorted (text : string) (pages : list Fitz.Page) :
  forall k, StronglySorted Z.le (map fst (matches_from k pages text)).
Proof.
  induction pages as [|p pages IH]; intros k.
  - constructor.
  - unfold matches_from. simpl. rewrite map_app.
    apply strongly_sorted_app.
    + rewrite map_map. simpl.
      replace (map (fun _ : Fitz.Rect => Z.of_nat k) (Fitz.search_for p text))
        with (repeat (Z.of_nat k) (List.length (Fitz.search_for p text))).
      * apply strongly_sorted_constant.
      * induction (Fitz.search_for p text); simpl; congruence.
    + apply (IH (S k)).
    + intros a b Ha Hb.
      rewrite map_map in Ha. simpl in Ha.
      apply in_map_iff in Ha. destruct Ha as [r [<- _]].
      apply in_map_iff in Hb. destruct Hb as [hit [<- Hhit]].
      apply (matches_from_bounds text pages (S k)) in Hhit. lia.
Qed.

Import Runs.

(** C7. For a non-empty query on an open document, [search_text]
    returns, and the match list it leaves is the list of the pairs
    (page index, rectangle) for the pages 0, 1, ... in this order
    and, within a page, in the order of [search_for]; it is ordered
    by page index, and it does not depend on the match list the
    viewer had before. *)
Theorem search_text_scans_pages_in_order
    (s : PDFViewer) (d : Fitz.Document) (text : string) :
  doc s = Some d -> Fitz.is_closed d = false -> text <> EmptyString ->
  exists s', search_text text s = Ok tt s' /\
    search_results s' = expected_matches d text /\
    StronglySorted Z.le (map fst (search_results s')).
Proof.
  intros Hd Hc Hne. destruct text as [|c t]; [congruence|].
  set (text := String c t).
  assert (Hsorted : StronglySorted Z.le (map fst (expected_matches d text)))
    by apply matches_from_sorted.
  assert (Hbounds : forall hit, In hit (expected_matches d text) ->
                                (0 <= fst hit < count d)%Z).
  { intros hit Hin. apply matches_from_bounds in Hin. unfold count. simpl in Hin. lia. }
  set (s0 := set_current_search_index (-1) (set_search_results [] s)).
  assert (Ho0 : has_open d s0) by (split; assumption).
  assert (Hloop : for_each (range (count d)) (search_page text) s0
                  = Ok tt (set_search_results (expected_matches d text) s0)).
  { unfold range, count. rewrite Nat2Z.id.
    exact (page_loop text d (Fitz.pages d) [] s0 (proj1 Ho0) Hc eq_refl). }
  set (s1 := set_search_results (expected_matches d text) s0) in Hloop.
  unfold search_text. subst text. cbv iota. fold s0.
  rewrite !bind_modify. fold s0.
  rewrite (bind_ok _ _ _ _ _ _ _ (page_count_open d s0 Ho0)).
  rewrite (bind_ok _ _ _ _ _ _ _ Hloop).
  rewrite bind_gets.
  change (search_results s1) with (expected_matches d (String c t)).
  destruct (expected_matches d (String c t)) as [|hit rest] eqn:E.
  - eexists. split; [reflexivity|]. split.
    + reflexivity.
    + constructor.
  - assert (Ho2 : has_open d (set_current_search_index 0 s1)) by (split; assumption).
    destruct (go_to_result_returns d (set_current_search_index 0 s1) 0 Ho2)
      as [[] [s2 H2]].
    { exact Hbounds. }
    assert (Hres : search_results s2 = hit :: rest).
    { rewrite (after _ _ search_results _ _ _ _
                 (go_to_result_keeps_results 0) H2).
      reflexivity. }
    rewrite (bind_ok _ _ _ _ _ tt s2).
    + rewrite !bind_gets. eexists. split; [reflexivity|]. split.
      * exact Hres.
      * change (StronglySorted Z.le (map fst (search_results s2))).
        rewrite Hres. exact Hsorted.
    + rewrite bind_modify. exact H2.
Qed.

Lemma search_text_scans_pages_in_order_witness :
  exists s', search_text "test" (Samples.viewer Samples.a_pdf) = Ok tt s' /\
    search_results s' = [(0%Z, Samples.r0); (2%Z, Samples.r2)] /\
    StronglySorted Z.le (map fst (search_results s')).
Proof.
  destruct (search_text_scans_pages_in_order
              (Samples.viewer Samples.a_pdf) Samples.three_pages "test")
    as [s' [H1 [H2 H3]]].
  - reflexivity.
  - reflexivity.
  - discriminate.
  - exists s'. split; [exact H1|]. split; [|exact H3].
    rewrite H2. reflexivity.
Defined.

End SearchProps.

(* ------------------------------------------------------------------ *)
(** ** Rectangles under quarter turns *)

Module GeometryProps.

Import RotationProps ZoomProps.
Local Open Scope Q_scope.

Lemma min_le_l a b : Py.min a b <= a.
Proof.
  unfold Py.min. destruct (Py.Qltb b a) eqn:E; order_cases; lra.
Qed.

Lemma min_le_r a b : Py.min a b <= b.
Proof. apply PyFacts.min_upper. Qed.

Lemma max_ge_l a b : a <= Py.max a b.
Proof. apply PyFacts.max_lower. Qed.

Lemma max_ge_r a b : b <= Py.max a b.
Proof.
  unfold Py.max. destruct (Py.Qltb a b) eqn:E; order_cases; lra.
Qed.

(** The extent of a bounding box is at least the distance between
    its first and third point, in either direction. *)
Lemma extent_ge a b c d :
  a - c <= Fitz.max4 a b c d - Fitz.min4 a b c d /\
  c - a <= Fitz.max4 a b c d - Fitz.min4 a b c d.
Proof.
  unfold Fitz.max4, Fitz.min4.
  pose proof (max_ge_l a b). pose proof (max_ge_l (Py.max a b) (Py.max c d)).
  pose proof (max_ge_l c d). pose proof (max_ge_r (Py.max a b) (Py.max c d)).
  pose proof (min_le_l a b). pose proof (min_le_l (Py.min a b) (Py.min c d)).
  pose proof (min_le_l c d). pose proof (min_le_r (Py.min a b) (Py.min c d)).
  split; lra.
Qed.

Lemma not_empty r :
  Fitz.is_empty r = false -> Fitz.x0 r < Fitz.x1 r /\ Fitz.y0 r < Fitz.y1 r.
Proof.
  unfold Fitz.is_empty. intros H. apply orb_false_elim in H. destruct H as [Hx Hy].
  split; apply Qnot_le_lt; intro Hle; apply Qle_bool_iff in Hle; congruence.
Qed.

Lemma not_empty_valid r : Fitz.is_empty r = false -> Fitz.is_valid r = true.
Proof.
  intros H. apply not_empty in H. destruct H as [Hx Hy].
  unfold Fitz.is_valid. apply andb_true_intro.
  split; apply Qle_bool_iff; lra.
Qed.

Lemma positive_not_zero q : 0 < q -> Py.is_zero q = false.
Proof.
  intros H. destruct (Py.is_zero q) eqn:E; [|reflexivity].
  apply PyFacts.is_zero_iff in E. lra.
Qed.

Lemma max_0_positive q : 0 < q -> 0 < Py.max 0 q.
Proof. intros H. pose proof (max_ge_r 0 q). lra. Qed.

(** A page rectangle that is not empty has, after a rotation by a
    right angle, a width and a height that are not zero. *)
Lemma rotated_page_has_size (r : Fitz.Rect) (rot : Z) :
  Fitz.is_empty r = false -> right_angle rot ->
  exists m, Fitz.prerotate (Fitz.Matrix_scale 1 1) rot = Some m /\
    Py.is_zero (Fitz.width (Fitz.transform r m)) = false /\
    Py.is_zero (Fitz.height (Fitz.transform r m)) = false.
Proof.
  intros He Hr. pose proof (not_empty_valid r He) as Hv.
  apply not_empty in He. destruct He as [Hx Hy].
  destruct r as [a b c d]. simpl in Hx, Hy.
  destruct Hr as [-> | [-> | [-> | ->]]];
    (eexists; split; [vm_compute; reflexivity|]);
    unfold Fitz.width, Fitz.height, Fitz.transform; rewrite Hv;
    cbn [Fitz.x0 Fitz.y0 Fitz.x1 Fitz.y1 Fitz.transform_point fst snd
         Fitz.ma Fitz.mb Fitz.mc Fitz.md Fitz.me Fitz.mf];
    split; apply positive_not_zero, max_0_positive;
    match goal with
    | |- 0 < Fitz.max4 ?p ?q ?u ?v - Fitz.min4 ?p ?q ?u ?v =>
        destruct (extent_ge p q u v) as [H1 H2]
    end; lra.
Qed.

End GeometryProps.

(* ------------------------------------------------------------------ *)
(** ** The round trip through the render job's matrix *)

Module RenderedProps.

Import Viewer RotationProps ZoomProps GeometryProps CoordinateProps.
Local Open Scope Q_scope.

Lemma min_cases a b : Py.min a b = a \/ Py.min a b = b.
Proof. unfold Py.min. destruct (Py.Qltb b a); auto. Qed.
Lemma max_cases a b : Py.max a b = a \/ Py.max a b = b.
Proof. unfold Py.max. destruct (Py.Qltb a b); auto. Qed.

Lemma min4_eq p q u v lo :
  lo <= p -> lo <= q -> lo <= u -> lo <= v ->
  (lo == p \/ lo == q \/ lo == u \/ lo == v) ->
  Fitz.min4 p q u v == lo.
Proof.
  intros Hp Hq Hu Hv Hin. unfold Fitz.min4.
  pose proof (min_le_l p q). pose proof (min_le_r p q).
  pose proof (min_le_l u v). pose proof (min_le_r u v).
  pose proof (min_le_l (Py.min p q) (Py.min u v)).
  pose proof (min_le_r (Py.min p q) (Py.min u v)).
  destruct (min_cases (Py.min p q) (Py.min u v)) as [E|E]; rewrite E in *;
  [destruct (min_cases p q) as [E'|E'] | destruct (min_cases u v) as [E'|E']];
  rewrite E' in *; destruct Hin as [Hi|[Hi|[Hi|Hi]]]; lra.
Qed.

Lemma max4_eq p q u v hi :
  p <= hi -> q <= hi -> u <= hi -> v <= hi ->
  (hi == p \/ hi == q \/ hi == u \/ hi == v) ->
  Fitz.max4 p q u v == hi.
Proof.
  intros Hp Hq Hu Hv Hin. unfold Fitz.max4.
  pose proof (max_ge_l p q). pose proof (max_ge_r p q).
  pose proof (max_ge_l u v). pose proof (max_ge_r u v).
  pose proof (max_ge_l (Py.max p q) (Py.max u v)).
  pose proof (max_ge_r (Py.max p q) (Py.max u v)).
  destruct (max_cases (Py.max p q) (Py.max u v)) as [E|E]; rewrite E in *;
  [destruct (max_cases p q) as [E'|E'] | destruct (max_cases u v) as [E'|E']];
  rewrite E' in *; destruct Hin as [Hi|[Hi|[Hi|Hi]]]; lra.
Qed.

(** [Fitz.transform] of a valid rectangle, from bounds that the four
    corner images attain. *)
Lemma transform_bbox r m lx ly hx hy :
  Fitz.is_valid r = true ->
  let s := Fitz.transform_point m (Fitz.x0 r, Fitz.y0 r) in
  let t := Fitz.transform_point m (Fitz.x0 r, Fitz.y1 r) in
  let u := Fitz.transform_point m (Fitz.x1 r, Fitz.y1 r) in
  let v := Fitz.transform_point m (Fitz.x1 r, Fitz.y0 r) in
  (lx <= fst s /\ lx <= fst t /\ lx <= fst u /\ lx <= fst v) ->
  (lx == fst s \/ lx == fst t \/ lx == fst u \/ lx == fst v) ->
  (fst s <= hx /\ fst t <= hx /\ fst u <= hx /\ fst v <= hx) ->
  (hx == fst s \/ hx == fst t \/ hx == fst u \/ hx == fst v) ->
  (ly <= snd s /\ ly <= snd t /\ ly <= snd u /\ ly <= snd v) ->
  (ly == snd s \/ ly == snd t \/ ly == snd u \/ ly == snd v) ->
  (snd s <= hy /\ snd t <= hy /\ snd u <= hy /\ snd v <= hy) ->
  (hy == snd s \/ hy == snd t \/ hy == snd u \/ hy == snd v) ->
  Fitz.Rect_eq (Fitz.transform r m) (Fitz.mkRect lx ly hx hy).
Proof.
  intros Hv s t u v [? [? [? ?]]] ? [? [? [? ?]]] ? [? [? [? ?]]] ? [? [? [? ?]]] ?.
  unfold Fitz.transform. rewrite Hv. fold s t u v.
  unfold Fitz.Rect_eq; simpl.
  repeat split; [apply min4_eq | apply min4_eq | apply max4_eq | apply max4_eq]; assumption.
Qed.

(** Document space to view space in the words of the specification,
    which is also how the render job draws the page: rotate, then
    scale; the view rectangle is built as [_update_highlights] builds
    it. *)
Definition to_view_rendered (R : Fitz.Rect) (s : Q) (rot : Z) : option Qt.QRectF :=
  match render_matrix s rot with
  | Some m =>
      let v := Fitz.transform R m in
      Some (Qt.mkQRectF (Fitz.x0 v) (Fitz.y0 v) (Fitz.width v) (Fitz.height v))
  | None => None
  end.

Ltac pick :=
  first [ left; lra | right; left; lra | right; right; left; lra
        | right; right; right; lra ].

Ltac bbox R m lx ly hx hy Hv :=
  apply (transform_bbox R m lx ly hx hy Hv);
  cbn [Fitz.transform_point fst snd Fitz.x0 Fitz.y0 Fitz.x1 Fitz.y1
       Fitz.ma Fitz.mb Fitz.mc Fitz.md Fitz.me Fitz.mf];
  first [ pick | (repeat split; lra) ].

Lemma max_0_nonneg q : 0 <= q -> Py.max 0 q == q.
Proof.
  intros H. unfold Py.max. destruct (Py.Qltb 0 q) eqn:E; [reflexivity|].
  apply PyFacts.Qltb_ge in E. lra.
Qed.

(** The [try] block of [_on_text_selected] on a view rectangle that
    [_update_highlights] would build from [V]. *)
Lemma scene_to_pdf_rect_of_view (V : Fitz.Rect) (s X0 Y0 X1 Y1 : Q) :
  0 < s -> Fitz.Rect_eq V (Fitz.mkRect (X0 * s) (Y0 * s) (X1 * s) (Y1 * s)) ->
  X0 <= X1 -> Y0 <= Y1 ->
  exists P,
    scene_to_pdf_rect
      (Qt.mkQRectF (Fitz.x0 V) (Fitz.y0 V) (Fitz.width V) (Fitz.height V)) s = inr P /\
    Fitz.Rect_eq P (Fitz.mkRect X0 Y0 X1 Y1).
Proof.
  intros Hs [Hx0 [Hy0 [Hx1 Hy1]]] Hx Hy. simpl in Hx0, Hy0, Hx1, Hy1.
  assert (Hs0 : ~ s == 0) by lra.
  unfold scene_to_pdf_rect. rewrite !(truediv_nonzero _ s Hs0).
  eexists. split; [reflexivity|].
  assert (HXs : X0 * s <= X1 * s) by (apply Qmult_le_compat_r; lra).
  assert (HYs : Y0 * s <= Y1 * s) by (apply Qmult_le_compat_r; lra).
  assert (Hw : Fitz.width V == X1 * s - X0 * s).
  { unfold Fitz.width. rewrite max_0_nonneg; lra. }
  assert (Hh : Fitz.height V == Y1 * s - Y0 * s).
  { unfold Fitz.height. rewrite max_0_nonneg; lra. }
  unfold Fitz.Rect_eq, Qt.right, Qt.bottom; simpl.
  repeat split.
  - rewrite Hx0. field. exact Hs0.
  - rewrite Hy0. field. exact Hs0.
  - rewrite Hx0, Hw. field. exact Hs0.
  - rewrite Hy0, Hh. field. exact Hs0.
Qed.

Lemma valid_of_le (r : Fitz.Rect) :
  Fitz.x0 r <= Fitz.x1 r -> Fitz.y0 r <= Fitz.y1 r -> Fitz.is_valid r = true.
Proof.
  intros Hx Hy. unfold Fitz.is_valid. apply andb_true_intro.
  split; apply Qle_bool_iff; assumption.
Qed.

Lemma valid_le (r : Fitz.Rect) :
  Fitz.is_valid r = true -> Fitz.x0 r <= Fitz.x1 r /\ Fitz.y0 r <= Fitz.y1 r.
Proof.
  unfold Fitz.is_valid. intros H. apply andb_prop in H. destruct H as [Hx Hy].
  split; apply Qle_bool_iff; assumption.
Qed.

(** With the rotation applied on the way to view space, the
    selection transform of the code is its inverse, for the four
    right angles and every positive scale. *)
Lemma round_trip_rendered (R : Fitz.Rect) (s : Q) (rot : Z) :
  Fitz.is_empty R = false -> 0 < s -> right_angle rot ->
  exists V R',
    to_view_rendered R s rot = Some V /\
    to_document V s rot = inr (Some R') /\
    Fitz.Rect_eq R' R.
Proof.
  intros He Hs Hr. pose proof (not_empty_valid R He) as Hv.
  destruct (valid_le R Hv) as [Hx Hy].
  destruct R as [a b c d]. simpl in Hx, Hy.
  assert (Has : a * s <= c * s) by (apply Qmult_le_compat_r; lra).
  assert (Hbs : b * s <= d * s) by (apply Qmult_le_compat_r; lra).
  unfold to_view_rendered, render_matrix, to_document.
  destruct Hr as [-> | [-> | [-> | ->]]].
  - change (Fitz.prerotate (Fitz.Matrix_scale s s) 0)
      with (Some (Fitz.mkMatrix s 0 0 s 0 0)).
    cbv beta iota zeta.
    set (V := Fitz.transform _ _).
    assert (HV : Fitz.Rect_eq V (Fitz.mkRect (a * s) (b * s) (c * s) (d * s))).
    { subst V.
      bbox (Fitz.mkRect a b c d) (Fitz.mkMatrix s 0 0 s 0 0)
           (a * s) (b * s) (c * s) (d * s) Hv. }
    destruct (scene_to_pdf_rect_of_view V s a b c d Hs HV Hx Hy) as [P [HP HPeq]].
    eexists. exists P. split; [reflexivity|]. rewrite HP.
    split; [reflexivity | exact HPeq].
  - change (Fitz.prerotate (Fitz.Matrix_scale s s) 90)
      with (Some (Fitz.mkMatrix 0 s (- s) (- 0) 0 0)).
    cbv beta iota zeta.
    set (V := Fitz.transform _ _).
    assert (HV : Fitz.Rect_eq V (Fitz.mkRect (- d * s) (a * s) (- b * s) (c * s))).
    { subst V.
      bbox (Fitz.mkRect a b c d) (Fitz.mkMatrix 0 s (- s) (- 0) 0 0)
           (- d * s) (a * s) (- b * s) (c * s) Hv. }
    destruct (scene_to_pdf_rect_of_view V s (- d) a (- b) c Hs HV) as [P [HP HPeq]];
      [lra | lra |].
    destruct HPeq as [H0 [H1 [H2 H3]]]. simpl in H0, H1, H2, H3.
    eexists. eexists. split; [reflexivity|]. rewrite HP.
    unfold unrotate. cbn [Z.eqb negb].
    change (Fitz.prerotate (Fitz.Matrix_scale 1 1) (- (90)))
      with (Some (Fitz.mkMatrix (- 0) (- 1) 1 0 0 0)).
    split; [reflexivity|].
    assert (HvP : Fitz.is_valid P = true) by (apply valid_of_le; lra).
    bbox P (Fitz.mkMatrix (- 0) (- 1) 1 0 0 0) a b c d HvP.
  - change (Fitz.prerotate (Fitz.Matrix_scale s s) 180)
      with (Some (Fitz.mkMatrix (- s) (- 0) (- 0) (- s) 0 0)).
    cbv beta iota zeta.
    set (V := Fitz.transform _ _).
    assert (HV : Fitz.Rect_eq V (Fitz.mkRect (- c * s) (- d * s) (- a * s) (- b * s))).
    { subst V.
      bbox (Fitz.mkRect a b c d) (Fitz.mkMatrix (- s) (- 0) (- 0) (- s) 0 0)
           (- c * s) (- d * s) (- a * s) (- b * s) Hv. }
    destruct (scene_to_pdf_rect_of_view V s (- c) (- d) (- a) (- b) Hs HV)
      as [P [HP HPeq]]; [lra | lra |].
    destruct HPeq as [H0 [H1 [H2 H3]]]. simpl in H0, H1, H2, H3.
    eexists. eexists. split; [reflexivity|]. rewrite HP.
    unfold unrotate. cbn [Z.eqb negb].
    change (Fitz.prerotate (Fitz.Matrix_scale 1 1) (- (180)))
      with (Some (Fitz.mkMatrix (- 1) (- 0) (- 0) (- 1) 0 0)).
    split; [reflexivity|].
    assert (HvP : Fitz.is_valid P = true) by (apply valid_of_le; lra).
    bbox P (Fitz.mkMatrix (- 1) (- 0) (- 0) (- 1) 0 0) a b c d HvP.
  - change (Fitz.prerotate (Fitz.Matrix_scale s s) 270)
      with (Some (Fitz.mkMatrix (- 0) (- s) s 0 0 0)).
    cbv beta iota zeta.
    set (V := Fitz.transform _ _).
    assert (HV : Fitz.Rect_eq V (Fitz.mkRect (b * s) (- c * s) (d * s) (- a * s))).
    { subst V.
      bbox (Fitz.mkRect a b c d) (Fitz.mkMatrix (- 0) (- s) s 0 0 0)
           (b * s) (- c * s) (d * s) (- a * s) Hv. }
    destruct (scene_to_pdf_rect_of_view V s b (- c) d (- a) Hs HV)
      as [P [HP HPeq]]; [lra | lra |].
    destruct HPeq as [H0 [H1 [H2 H3]]]. simpl in H0, H1, H2, H3.
    eexists. eexists. split; [reflexivity|]. rewrite HP.
    unfold unrotate. cbn [Z.eqb negb].
    change (Fitz.prerotate (Fitz.Matrix_scale 1 1) (- (270)))
      with (Some (Fitz.mkMatrix 0 1 (- 1) (- 0) 0 0)).
    split; [reflexivity|].
    assert (HvP : Fitz.is_valid P = true) by (apply valid_of_le; lra).
    bbox P (Fitz.mkMatrix 0 1 (- 1) (- 0) 0 0) a b c d HvP.
Qed.

End RenderedProps.

(* ------------------------------------------------------------------ *)
(** ** Page changes *)

Module PageProps.

Import Viewer Frame Runs RotationProps GeometryProps.
Local Open Scope Q_scope.

Definition is_page_changed (e : Effect) : bool :=
  match e with Emit page_changed => true | _ => false end.

(** How often the viewer has emitted [page_changed]. *)
Definition page_changes (s : PDFViewer) : nat :=
  List.length (filter is_page_changed (trace s)).

Lemma page_changes_other_effect e s :
  is_page_changed e = false ->
  page_changes (set_trace (trace s ++ [e]) s) = page_changes s.
Proof.
  intros He. unfold page_changes. simpl. rewrite filter_app. simpl.
  rewrite He, app_nil_r. reflexivity.
Qed.

Ltac page_changes_assigned :=
  first [ reflexivity | apply page_changes_other_effect; reflexivity ].

Lemma fit_to_page_emits_no_page_change : preserves page_changes fit_to_page.
Proof. frame_using ltac:(page_changes_assigned). Qed.

Lemma request_render_emits_no_page_change b :
  preserves page_changes (_request_render b).
Proof. frame_using ltac:(page_changes_assigned). Qed.

Lemma request_render_keeps_page b :
  preserves current_page_index (_request_render b).
Proof. frame. Qed.

Lemma recalculate_keeps_zoom :
  preserves current_zoom_factor _recalculate_base_scale_and_render.
Proof. frame. Qed.

Lemma doc_bool_pure s : final (doc_bool s) = s.
Proof.
  unfold doc_bool, bind, gets. destruct (doc s) as [d|]; [|reflexivity].
  unfold lift. destruct (Fitz.len d); reflexivity.
Qed.

Lemma page_count_pure s : final (page_count s) = s.
Proof.
  unfold page_count, bind.
  pose proof (doc_bool_pure s) as H.
  destruct (doc_bool s) as [b s1|e s1|s1]; simpl in H; subst s1;
    try reflexivity.
  destruct b; [|reflexivity].
  unfold gets. destruct (doc s) as [d|]; [|reflexivity].
  unfold lift. destruct (Fitz.len d); reflexivity.
Qed.

(** The three ways a call of [display_page] can go. *)
Lemma display_page_cases (p : Z) (s : PDFViewer) :
  final (display_page p s) = s \/
  (current_page_index s = p /\
   final (display_page p s) = final (fit_to_page s)) \/
  (current_page_index s <> p /\
   final (display_page p s) =
     final ((_request_render true ;; emit page_changed)
              (set_current_page_index p s))).
Proof.
  remember (final (display_page p s)) as X eqn:HX.
  unfold display_page, bind at 1 in HX.
  pose proof (doc_bool_pure s) as Hb.
  destruct (doc_bool s) as [b s1|e s1|s1]; simpl in Hb; subst s1;
    try (left; exact HX).
  destruct b; cbn [negb] in HX; cbv iota in HX; [|left; exact HX].
  unfold bind at 1 in HX.
  pose proof (page_count_pure s) as Hn.
  destruct (page_count s) as [n s1|e s1|s1]; simpl in Hn; subst s1;
    try (left; exact HX).
  destruct (negb ((0 <=? p)%Z && (p <? n)%Z)); [left; exact HX|].
  rewrite bind_gets in HX.
  destruct (current_page_index s =? p)%Z eqn:E; cbn [negb] in HX; cbv iota in HX.
  - apply Z.eqb_eq in E. right. left. split; [exact E | exact HX].
  - apply Z.eqb_neq in E. right. right. split; [exact E|].
    rewrite bind_modify in HX. exact HX.
Qed.

(** [display_page] emits [page_changed] at most once, and only in a
    call that assigns [page_num] to a page index that was different. *)
Lemma page_changed_only_on_change (p : Z) (s : PDFViewer) :
  let s' := final (display_page p s) in
  page_changes s' = page_changes s \/
  (page_changes s' = S (page_changes s) /\
   current_page_index s' = p /\ p <> current_page_index s).
Proof.
  intros s'. subst s'.
  destruct (display_page_cases p s) as [-> | [[_ ->] | [Hne ->]]].
  - left. reflexivity.
  - left. apply fit_to_page_emits_no_page_change.
  - set (s1 := set_current_page_index p s).
    pose proof (request_render_emits_no_page_change true s1) as Hc.
    pose proof (request_render_keeps_page true s1) as Hp.
    change (page_changes s1) with (page_changes s) in Hc.
    change (current_page_index s1) with p in Hp.
    unfold bind.
    destruct (_request_render true s1) as [[] s2|e s2|s2]; simpl in Hc, Hp.
    + right. split; [|split].
      * simpl. unfold page_changes in *. simpl. rewrite filter_app. simpl.
        rewrite length_app. simpl. lia.
      * exact Hp.
      * congruence.
    + left. exact Hc.
    + left. exact Hc.
Qed.

(** [_recalculate_base_scale_and_render] on a page that has a size,
    seen through a viewport, under a rotation by a right angle. *)
Lemma recalculate_on_sized_page d s size page :
  has_open d s -> count d <> 0%Z ->
  viewport s = Some size ->
  Fitz.load_page d (current_page_index s) = inr page ->
  Fitz.is_empty (Fitz.rect page) = false ->
  right_angle (rotation s) ->
  exists m,
    Fitz.prerotate (Fitz.Matrix_scale 1 1) (rotation s) = Some m /\
    let page_rect := Fitz.transform (Fitz.rect page) m in
    let scale_x := inject_Z (Qt.size_width size) / Fitz.width page_rect in
    let scale_y := inject_Z (Qt.size_height size) / Fitz.height page_rect in
    _recalculate_base_scale_and_render s =
      Ok tt (set_render_timer_active true
               (set_trace (trace s ++ [Timer_start])
                  (set_base_scale (Py.min scale_x scale_y) s))).
Proof.
  intros Ho Hcount Hvp Hpage Hne Hr.
  destruct (rotated_page_has_size (Fitz.rect page) (rotation s) Hne Hr)
    as [m [Hm [Hw Hh]]].
  exists m. split; [exact Hm|]. intros page_rect scale_x scale_y.
  unfold _recalculate_base_scale_and_render.
  rewrite (bind_ok _ _ _ _ _ _ _ (doc_bool_open d s Ho)).
  apply Z.eqb_neq in Hcount. rewrite Hcount. cbn [negb]. cbv iota.
  rewrite bind_gets, Hvp, bind_gets.
  assert (Hload : doc_load_page (current_page_index s) s = Ok page s).
  { unfold doc_load_page, bind, gets. destruct Ho as [Hd Hc]. rewrite Hd, Hpage.
    reflexivity. }
  rewrite (bind_ok _ _ _ _ _ _ _ Hload).
  rewrite Hne, bind_gets, Hm. fold page_rect. fold page_rect in Hw, Hh.
  rewrite Hw, Hh. cbn [orb].
  unfold Py.truediv. rewrite Hw, Hh. reflexivity.
Qed.

(** C10. On an open document: a call [display_page(p)] with [p] in
    range and equal to the current page index is the call
    [fit_to_page()]; it emits no [page_changed], leaves the zoom
    factor at exactly 1, emits [zoom_changed(1)], and, when the page
    has a size, a viewport exists and the rotation is a right angle,
    it assigns the recomputed base scale and arms the render timer.
    With [p] out of range the call returns with the viewer as it was.
    For any [p], [page_changed] is emitted only by a call that
    changes the page index. *)
Theorem display_page_on_current_page_fits
    (s : PDFViewer) (d : Fitz.Document) (p : Z) :
  has_open d s ->
  let s' := final (display_page p s) in
  ((0 <= p < count d)%Z -> p = current_page_index s ->
     display_page p s = fit_to_page s /\
     page_changes s' = page_changes s /\
     current_zoom_factor s' = 1 /\
     (exists rest, trace s' = trace s ++ Emit (zoom_changed 1) :: rest) /\
     (forall size page,
        viewport s = Some size ->
        Fitz.load_page d p = inr page ->
        Fitz.is_empty (Fitz.rect page) = false ->
        right_angle (rotation s) ->
        exists m s1,
          Fitz.prerotate (Fitz.Matrix_scale 1 1) (rotation s) = Some m /\
          display_page p s = Ok tt s1 /\
          base_scale s1 =
            Py.min (inject_Z (Qt.size_width size)
                      / Fitz.width (Fitz.transform (Fitz.rect page) m))
                   (inject_Z (Qt.size_height size)
                      / Fitz.height (Fitz.transform (Fitz.rect page) m)) /\
          render_timer_active s1 = true /\
          trace s1 = trace s ++ [Emit (zoom_changed 1); Timer_start])) /\
  (~ (0 <= p < count d)%Z -> display_page p s = Ok tt s) /\
  (page_changes s' <> page_changes s ->
     current_page_index s' <> current_page_index s).
Proof.
  intros Ho s'.
  assert (Hrange : forall b, ((0 <=? p)%Z && (p <? count d)%Z) = b ->
            display_page p s =
            if negb (negb (count d =? 0)%Z) then Ok tt s
            else if negb b then Ok tt s
            else if negb (current_page_index s =? p)%Z then
                   (modify (set_current_page_index p) ;;
                    _request_render true ;; emit page_changed) s
                 else fit_to_page s).
  { intros b Hb. unfold display_page.
    rewrite (bind_ok _ _ _ _ _ _ _ (doc_bool_open d s Ho)).
    destruct (negb (negb (count d =? 0)%Z)); [reflexivity|].
    rewrite (bind_ok _ _ _ _ _ _ _ (page_count_open d s Ho)).
    rewrite Hb. destruct (negb b); [reflexivity|].
    rewrite bind_gets.
    destruct (negb (current_page_index s =? p)%Z); reflexivity. }
  split; [|split].
  - intros Hp Hcur.
    assert (Hcount : count d <> 0%Z) by lia.
    assert (Heq : display_page p s = fit_to_page s).
    { rewrite (Hrange true).
      - apply Z.eqb_neq in Hcount. rewrite Hcount.
        subst p. rewrite Z.eqb_refl. reflexivity.
      - apply andb_true_intro. split; [apply Z.leb_le | apply Z.ltb_lt]; lia. }
    subst s'. rewrite Heq.
    split; [reflexivity|]. split; [apply fit_to_page_emits_no_page_change|].
    unfold fit_to_page. rewrite bind_modify.
    unfold emit, effect. rewrite bind_modify.
    set (s0 := set_trace _ _).
    split; [|split].
    + rewrite recalculate_keeps_zoom. reflexivity.
    + unfold _recalculate_base_scale_and_render.
      assert (Ho0 : has_open d s0) by exact Ho.
      rewrite (bind_ok _ _ _ _ _ _ _ (doc_bool_open d s0 Ho0)).
      apply Z.eqb_neq in Hcount. rewrite Hcount. cbn [negb]. cbv iota.
      rewrite bind_gets.
      destruct (viewport s0); [|exists []; reflexivity].
      rewrite bind_gets. unfold bind at 1.
      assert (Hl : final (doc_load_page (current_page_index s0) s0) = s0).
      { unfold doc_load_page, bind, gets. destruct (doc s0); [|reflexivity].
        unfold lift. destruct (Fitz.load_page _ _); reflexivity. }
      destruct (doc_load_page (current_page_index s0) s0) as [pg s2|e s2|s2];
        simpl in Hl; subst s2; try (exists []; reflexivity).
      destruct (Fitz.is_empty (Fitz.rect pg)); [exists []; reflexivity|].
      rewrite bind_gets.
      destruct (Fitz.prerotate (Fitz.Matrix_scale 1 1) (rotation s0));
        [|exists []; reflexivity].
      destruct (Py.is_zero _ || Py.is_zero _); [exists []; reflexivity|].
      unfold Py.truediv.
      destruct (Py.is_zero (Fitz.width _)); [exists []; reflexivity|].
      destruct (Py.is_zero (Fitz.height _)); [exists []; reflexivity|].
      exists [Timer_start]. simpl. rewrite <- app_assoc. reflexivity.
    + intros size page Hvp Hpage Hne Hr.
      destruct (recalculate_on_sized_page d s0 size page) as [m [Hm Hrun]];
        try assumption.
      { subst p. exact Hpage. }
      exists m. eexists. split; [exact Hm|].
      split; [exact Hrun|].
      split; [reflexivity|]. split; [reflexivity|].
      simpl. rewrite <- app_assoc. reflexivity.
  - intros Hout. rewrite (Hrange false).
    + destruct (negb (negb (count d =? 0)%Z)); reflexivity.
    + apply andb_false_iff.
      destruct (Z.leb_spec 0 p); [|left; reflexivity].
      right. apply Z.ltb_ge. lia.
  - intros Hchanged.
    destruct (page_changed_only_on_change p s) as [Hsame | [_ [Hp Hne]]].
    + contradiction.
    + subst s'. rewrite Hp. exact Hne.
Qed.

Lemma display_page_on_current_page_fits_witness :
  let s := Samples.viewer Samples.a_pdf in
  display_page 0 s = fit_to_page s /\
  page_changes (final (display_page 0 s)) = page_changes s /\
  current_zoom_factor (final (display_page 0 s)) = 1 /\
  (exists s1, display_page 0 s = Ok tt s1 /\
     base_scale s1 == 600 # 792 /\ render_timer_active s1 = true) /\
  display_page 7 s = Ok tt s.
Proof.
  intros s.
  assert (Ho : has_open Samples.three_pages s) by (split; reflexivity).
  destruct (display_page_on_current_page_fits s Samples.three_pages 0 Ho)
    as [Hsame _].
  destruct (display_page_on_current_page_fits s Samples.three_pages 7 Ho)
    as [_ [Hout _]].
  destruct Hsame as [H1 [H2 [H3 [_ H5]]]].
  - vm_compute. split; [discriminate | reflexivity].
  - reflexivity.
  - split; [exact H1|]. split; [exact H2|]. split; [exact H3|]. split.
    + destruct (H5 Samples.geometry (Samples.page_with_match Samples.r0))
        as [m [s1 [Hm [Hrun [Hbase [Htimer _]]]]]].
      * reflexivity.
      * reflexivity.
      * reflexivity.
      * left. reflexivity.
      * exists s1. split; [exact Hrun|]. split; [|exact Htimer].
        rewrite Hbase. vm_compute in Hm. injection Hm as <-.
        vm_compute. reflexivity.
    + apply Hout. vm_compute. intros [_ H]. discriminate.
Defined.

End PageProps.

(* ------------------------------------------------------------------ *)
(** ** Closing a viewer *)

Module CloseProps.

Import Viewer Frame Runs.

(** [thread and thread.isRunning()] *)
Definition worker_running (w : Worker) (s : PDFViewer) : bool :=
  match w with
  | RenderJob =>
      match page_render_thread s with
      | Some t => job_running t
      | None => false
      end
  | ThumbnailStream =>
      match thumbnail_loader s with
      | Some t => stream_running t
      | None => false
      end
  end.

(** What stopping a worker does, when it runs and when it does not. *)
Definition stop_effects (w : Worker) (running : bool) : list Effect :=
  if running then [Request_interruption w; Wait w] else [].

(** The workers in the order in which they are joined. *)
Definition joins (l : list Effect) : list Worker :=
  flat_map (fun e => match e with Wait w => [w] | _ => [] end) l.

Lemma stop_thumbnail_stream_eq s :
  exists s1, stop_thumbnail_stream s = Ok tt s1 /\
    trace s1 = trace s
               ++ stop_effects ThumbnailStream (worker_running ThumbnailStream s) /\
    worker_running ThumbnailStream s1 = false /\
    worker_running RenderJob s1 = worker_running RenderJob s /\
    doc s1 = doc s.
Proof.
  unfold stop_thumbnail_stream, worker_running, stop_effects.
  rewrite bind_gets.
  destruct (thumbnail_loader s) as [t|] eqn:Et.
  - destruct (stream_running t) eqn:Er.
    + eexists. split; [reflexivity|]. simpl. rewrite <- app_assoc.
      repeat split; reflexivity.
    + exists s. rewrite Et, Er, app_nil_r. repeat split; reflexivity.
  - exists s. rewrite Et, app_nil_r. repeat split; reflexivity.
Qed.

Lemma stop_render_job_eq s :
  exists s1, stop_render_job s = Ok tt s1 /\
    trace s1 = trace s ++ stop_effects RenderJob (worker_running RenderJob s) /\
    worker_running RenderJob s1 = false /\
    worker_running ThumbnailStream s1 = worker_running ThumbnailStream s /\
    doc s1 = doc s.
Proof.
  unfold stop_render_job, worker_running, stop_effects.
  rewrite bind_gets.
  destruct (page_render_thread s) as [t|] eqn:Et.
  - destruct (job_running t) eqn:Er.
    + eexists. split; [reflexivity|]. simpl. rewrite <- app_assoc.
      repeat split; reflexivity.
    + exists s. rewrite Et, Er, app_nil_r. repeat split; reflexivity.
  - exists s. rewrite Et, app_nil_r. repeat split; reflexivity.
Qed.

Lemma close_document_eq d s :
  has_open d s ->
  close_document s =
    Ok tt (if (count d =? 0)%Z then s
           else set_trace (trace s ++ [Doc_close])
                          (set_doc (Some (Fitz.close d)) s)).
Proof.
  intros Ho. unfold close_document.
  rewrite (bind_ok _ _ _ _ _ _ _ (doc_bool_open d s Ho)).
  destruct Ho as [Hd Hc].
  destruct (count d =? 0)%Z; cbn [negb]; [reflexivity|].
  rewrite bind_gets, Hd. reflexivity.
Qed.

(** C3, as the code has it.  [close] on a viewer with an open
    document first interrupts and joins the thumbnail stream, then
    interrupts and joins the render job (each only if it runs);
    after these two steps no worker runs and the document is still
    open; only then comes [doc.close()] (for a document with pages),
    and last the widget's own [close]. *)
Theorem close_joins_workers_before_document (s : PDFViewer) (d : Fitz.Document) :
  has_open d s ->
  exists s1 s',
    (stop_thumbnail_stream ;; stop_render_job) s = Ok tt s1 /\
    worker_running ThumbnailStream s1 = false /\
    worker_running RenderJob s1 = false /\
    has_open d s1 /\
    close s = (close_document ;; effect Widget_close) s1 /\
    close s = Ok tt s' /\
    trace s' = trace s
               ++ stop_effects ThumbnailStream (worker_running ThumbnailStream s)
               ++ stop_effects RenderJob (worker_running RenderJob s)
               ++ (if (count d =? 0)%Z then [] else [Doc_close])
               ++ [Widget_close] /\
    doc s' = Some (if (count d =? 0)%Z then d else Fitz.close d).
Proof.
  intros Ho.
  destruct (stop_thumbnail_stream_eq s) as [sa [Ha [Ta [Tha [Ra Da]]]]].
  destruct (stop_render_job_eq sa) as [sb [Hb [Tb [Rb [Thb Db]]]]].
  assert (Hob : has_open d sb).
  { destruct Ho as [Hd Hc]. split; [congruence | exact Hc]. }
  assert (Hstop : (stop_thumbnail_stream ;; stop_render_job) s = Ok tt sb).
  { rewrite (bind_ok _ _ _ _ _ _ _ Ha). exact Hb. }
  assert (Hclose : close s = (close_document ;; effect Widget_close) sb).
  { unfold close. rewrite (bind_ok _ _ _ _ _ _ _ Ha).
    rewrite (bind_ok _ _ _ _ _ _ _ Hb). reflexivity. }
  exists sb. eexists.
  split; [exact Hstop|]. split; [congruence|]. split; [exact Rb|].
  split; [exact Hob|]. split; [exact Hclose|].
  rewrite Hclose.
  rewrite (bind_ok _ _ _ _ _ _ _ (close_document_eq d sb Hob)).
  destruct Hob as [Hd Hc].
  split; [reflexivity|].
  destruct (count d =? 0)%Z; simpl; rewrite Tb, Ta, Ra, <- !app_assoc.
  - split; [reflexivity | exact Hd].
  - split; reflexivity.
Qed.

(** The sample viewer with its thumbnail stream started and a render
    job for page 1 in flight. *)
Definition busy_viewer : PDFViewer :=
  final (display_page 1 (final (Window.restart_thumbnails
                                  (Samples.viewer Samples.a_pdf)))).

Lemma close_joins_workers_before_document_witness :
  worker_running ThumbnailStream busy_viewer = true /\
  worker_running RenderJob busy_viewer = true /\
  exists s', close busy_viewer = Ok tt s' /\
    trace s' = trace busy_viewer
               ++ [Request_interruption ThumbnailStream; Wait ThumbnailStream;
                   Request_interruption RenderJob; Wait RenderJob;
                   Doc_close; Widget_close] /\
    worker_running ThumbnailStream s' = false /\
    worker_running RenderJob s' = false.
Proof.
  split; [reflexivity|]. split; [reflexivity|].
  destruct (close_joins_workers_before_document busy_viewer Samples.three_pages)
    as [s1 [s' [_ [_ [_ [_ [_ [Hc [Ht _]]]]]]]]].
  - split; reflexivity.
  - exists s'. split; [exact Hc|]. split; [exact Ht|].
    assert (Hs : final (close busy_viewer) = s') by (rewrite Hc; reflexivity).
    rewrite <- Hs. split; reflexivity.
Defined.

(** C3 as stated fails: with both workers running, [close] joins
    the thumbnail stream first and the render job second. *)
Lemma close_does_not_join_the_render_job_first :
  ~ joins (skipn (List.length (trace busy_viewer))
                 (trace (final (close busy_viewer))))
    = [RenderJob; ThumbnailStream].
Proof. vm_compute. discriminate. Qed.

End CloseProps.

(* ------------------------------------------------------------------ *)
(** ** Tabs and file paths *)

Module TabProps.

Import Viewer Frame Window.

(** The file paths of the tabs, in tab order. *)
Definition paths (w : MainWindow) : list string := map file_path (tabs w).

Lemma find_tab_none p l : forall i,
  find_tab p i l = None -> ~ In p (map file_path l).
Proof.
  induction l as [|v l IH]; intros i H; simpl in *.
  - tauto.
  - destruct (String.eqb (file_path v) p) eqn:E; [discriminate|].
    apply String.eqb_neq in E. intros [Hv | Hin]; [contradiction|].
    exact (IH _ H Hin).
Qed.

Lemma find_tab_some p l : forall i j,
  find_tab p i l = Some j ->
  (i <= j)%Z /\
  exists v, nth_error l (Z.to_nat (j - i)) = Some v /\ file_path v = p.
Proof.
  induction l as [|v l IH]; intros i j H; simpl in *.
  - discriminate.
  - destruct (String.eqb (file_path v) p) eqn:E.
    + injection H as <-. apply String.eqb_eq in E.
      split; [lia|]. exists v. rewrite Z.sub_diag. split; [reflexivity | exact E].
    + apply IH in H. destruct H as [Hle [u [Hu Hp]]].
      split; [lia|]. exists u. split; [|exact Hp].
      replace (Z.to_nat (j - i)) with (S (Z.to_nat (j - (i + 1)))) by lia.
      exact Hu.
Qed.

Lemma find_tab_in p l : forall i,
  In p (map file_path l) -> exists j, find_tab p i l = Some j.
Proof.
  induction l as [|v l IH]; intros i Hin; simpl in *.
  - contradiction.
  - destruct (String.eqb (file_path v) p) eqn:E.
    + exists i. reflexivity.
    + apply String.eqb_neq in E. destruct Hin as [Hv | Hin]; [contradiction|].
      apply IH. exact Hin.
Qed.

Lemma map_replace_nth {A B} (f : A -> B) (l : list A) : forall n a b,
  nth_error l n = Some b -> f a = f b ->
  map f (replace_nth n a l) = map f l.
Proof.
  induction l as [|c l IH]; intros [|n] a b H Hf; simpl in *;
    try discriminate; try reflexivity.
  - injection H as ->. rewrite Hf. reflexivity.
  - f_equal. eapply IH; eassumption.
Qed.

Lemma map_remove_nth {A B} (f : A -> B) (l : list A) : forall n,
  map f (remove_nth n l) = remove_nth n (map f l).
Proof.
  induction l as [|c l IH]; intros [|n]; simpl; try reflexivity.
  f_equal. apply IH.
Qed.

Lemma NoDup_remove_nth {A} (l : list A) : forall n,
  NoDup l -> NoDup (remove_nth n l) /\ (forall a, In a (remove_nth n l) -> In a l).
Proof.
  induction l as [|c l IH]; intros [|n] H; simpl.
  - split; [constructor | tauto].
  - split; [constructor | tauto].
  - inversion H; subst. split; [assumption | tauto].
  - inversion H; subst. destruct (IH n H3) as [Hnd Hin].
    split.
    + constructor; [|exact Hnd]. intros Hc. apply H2. apply Hin. exact Hc.
    + intros a [Ha | Ha]; [left; exact Ha | right; apply Hin; exact Ha].
Qed.

Lemma NoDup_snoc {A} (l : list A) (a : A) :
  NoDup l -> ~ In a l -> NoDup (l ++ [a]).
Proof.
  intros Hl Ha. induction l as [|c l IH]; simpl.
  - constructor; [tauto | constructor].
  - inversion Hl; subst. constructor.
    + intros Hin. apply in_app_or in Hin. destruct Hin as [Hin | [Hin | []]].
      * contradiction.
      * subst. apply Ha. left. reflexivity.
    + apply IH; [assumption|]. intros Hin. apply Ha. right. exact Hin.
Qed.

(** No method of the viewer assigns [file_path]. *)
Lemma restart_thumbnails_keeps_path : preserves file_path restart_thumbnails.
Proof. unfold restart_thumbnails. frame. Qed.

Lemma close_keeps_path : preserves file_path close.
Proof. frame. Qed.

Lemma next_result_keeps_path : preserves file_path next_result.
Proof. unfold next_result. frame. Qed.

Lemma prev_result_keeps_path : preserves file_path prev_result.
Proof. unfold prev_result. frame. Qed.

Lemma zoom_in_keeps_path : preserves file_path zoom_in.
Proof. frame. Qed.

Lemma zoom_out_keeps_path : preserves file_path zoom_out.
Proof. frame. Qed.

Lemma rotate_keeps_path angle :
  preserves file_path (rotate angle ;; restart_thumbnails).
Proof. unfold restart_thumbnails. frame. Qed.

Lemma paths_on_current_viewer (m : M unit) (w : MainWindow) :
  preserves file_path m -> paths (on_current_viewer m w) = paths w.
Proof.
  intros Hm. unfold on_current_viewer.
  destruct (_get_current_viewer w) as [v|] eqn:Hv; [|reflexivity].
  unfold paths. simpl. unfold _get_current_viewer, widget in Hv.
  destruct (current_index w <? 0)%Z; [discriminate|].
  apply (map_replace_nth file_path _ _ _ v Hv). apply Hm.
Qed.

Lemma doc_bool_keeps_viewer v b v' : doc_bool v = Ok b v' -> v' = v.
Proof.
  intros H. pose proof (PageProps.doc_bool_pure v) as Hp.
  rewrite H in Hp. exact Hp.
Qed.

(** Adding a path that no tab has appends one tab for it, or none. *)
Lemma paths_after_add fitz_open geometry p w :
  ~ In p (paths w) ->
  paths (_add_new_tab fitz_open geometry p w) = paths w \/
  paths (_add_new_tab fitz_open geometry p w) = paths w ++ [p].
Proof.
  intros Hnew. unfold _add_new_tab.
  destruct (find_tab p 0 (tabs w)) as [i|] eqn:Ef.
  - left. reflexivity.
  - destruct (doc_bool (__init__ fitz_open geometry p)) as [b v|e v|v] eqn:Eb;
      try (left; reflexivity).
    destruct b; [|left; reflexivity].
    apply doc_bool_keeps_viewer in Eb. subst v.
    right. unfold paths. cbn [tabs].
    change (map file_path (tabs (_refresh_thumbnails ?x))) with (paths (_refresh_thumbnails x)).
    unfold _refresh_thumbnails.
    rewrite paths_on_current_viewer by apply restart_thumbnails_keeps_path.
    unfold paths. cbn [tabs]. rewrite map_app. reflexivity.
Qed.

Lemma paths_after_close index w :
  paths (_close_tab index w) = paths w \/
  paths (_close_tab index w) = remove_nth (Z.to_nat index) (paths w).
Proof.
  unfold _close_tab.
  destruct (widget w index) as [v|] eqn:Hv; [|left; reflexivity].
  pose proof (close_keeps_path v) as Hp.
  unfold widget in Hv. destruct (index <? 0)%Z; [discriminate|].
  destruct (close v) as [[] v'|e v'|v'] eqn:Ec; simpl in Hp.
  - right. unfold paths. cbn [tabs]. apply map_remove_nth.
  - left. unfold paths. cbn [tabs].
    apply (map_replace_nth file_path _ _ _ v Hv). exact Hp.
  - left. unfold paths. cbn [tabs].
    apply (map_replace_nth file_path _ _ _ v Hv). exact Hp.
Qed.

Lemma request_keeps_paths_distinct fitz_open geometry w r :
  NoDup (paths w) -> NoDup (paths (request fitz_open geometry w r)).
Proof.
  intros Hw. destruct r as [p|i| | | | |angle]; simpl.
  - destruct (in_dec string_dec p (paths w)) as [Hin | Hnew].
    + unfold _add_new_tab.
      destruct (find_tab_in p (tabs w) 0 Hin) as [j Hj]. rewrite Hj. exact Hw.
    + destruct (paths_after_add fitz_open geometry p w Hnew) as [-> | ->].
      * exact Hw.
      * apply NoDup_snoc; assumption.
  - destruct (paths_after_close i w) as [-> | ->].
    + exact Hw.
    + apply NoDup_remove_nth. exact Hw.
  - unfold _go_to_next_result.
    rewrite paths_on_current_viewer by apply next_result_keeps_path. exact Hw.
  - unfold _go_to_prev_result.
    rewrite paths_on_current_viewer by apply prev_result_keeps_path. exact Hw.
  - unfold _zoom_in.
    rewrite paths_on_current_viewer by apply zoom_in_keeps_path. exact Hw.
  - unfold _zoom_out.
    rewrite paths_on_current_viewer by apply zoom_out_keeps_path. exact Hw.
  - unfold _rotate_page.
    rewrite paths_on_current_viewer by apply rotate_keeps_path. exact Hw.
Qed.

(** The window after a sequence of requests, from the empty window. *)
Definition after_requests (fitz_open : string -> option Fitz.Document)
    (geometry : Qt.QSize) (rs : list Request) : MainWindow :=
  fold_left (request fitz_open geometry) rs empty.

Lemma fold_keeps_paths_distinct fitz_open geometry rs : forall w,
  NoDup (paths w) ->
  NoDup (paths (fold_left (request fitz_open geometry) rs w)).
Proof.
  induction rs as [|r rs IH]; intros w Hw; simpl.
  - exact Hw.
  - apply IH. apply request_keeps_paths_distinct. exact Hw.
Qed.

(** C4, as the code has it.  Tabs are told apart by their file path
    as a string, compared with [==] and not normalised.  After any
    sequence of requests no two tabs have the same file path; and
    [_add_new_tab] with the file path of an open tab opens nothing:
    it only makes the first tab with that path the current one. *)
Theorem one_tab_per_file_path_string
    (fitz_open : string -> option Fitz.Document) (geometry : Qt.QSize) :
  (forall rs, NoDup (paths (after_requests fitz_open geometry rs))) /\
  (forall w p, In p (paths w) ->
     exists i v,
       _add_new_tab fitz_open geometry p w
         = mkMainWindow (tabs w) i (pending_fit_to_page w) /\
       widget w i = Some v /\ file_path v = p).
Proof.
  split.
  - intros rs. apply fold_keeps_paths_distinct. constructor.
  - intros w p Hin. destruct (find_tab_in p (tabs w) 0 Hin) as [j Hj].
    destruct (find_tab_some p (tabs w) 0 j Hj) as [Hle [v [Hv Hp]]].
    exists j, v. unfold _add_new_tab. rewrite Hj.
    split; [reflexivity|]. split; [|exact Hp].
    unfold widget. destruct (Z.ltb_spec j 0); [lia|].
    rewrite Z.sub_0_r in Hv. exact Hv.
Qed.

(** What the source does not do: bring a path to a normal form.
    Already dropping a leading [./] identifies paths that the viewer
    keeps apart. *)
Definition normalize (p : string) : string :=
  match p with
  | String "."%char (String "/"%char rest) => rest
  | _ => p
  end.

Definition dot_a_pdf : string := "./a.pdf".

Lemma one_tab_per_file_path_string_witness :
  let fitz_open := fun _ : string => Some Samples.three_pages in
  let w := after_requests fitz_open Samples.geometry [AddTab Samples.a_pdf] in
  paths w = [Samples.a_pdf] /\
  _add_new_tab fitz_open Samples.geometry Samples.a_pdf w
    = mkMainWindow (tabs w) 0 (pending_fit_to_page w).
Proof.
  intros fitz_open w.
  destruct (one_tab_per_file_path_string fitz_open Samples.geometry) as [_ H].
  split; [reflexivity|].
  destruct (H w Samples.a_pdf) as [i [v [Hadd _]]].
  - left. reflexivity.
  - rewrite Hadd. f_equal.
    assert (Hi : current_index (_add_new_tab fitz_open Samples.geometry Samples.a_pdf w)
                 = 0%Z) by reflexivity.
    rewrite Hadd in Hi. exact Hi.
Defined.

(** C4 as stated fails: [a.pdf] and [./a.pdf] name the same file,
    and adding one after the other leaves two tabs on it. *)
Lemma same_file_under_two_paths_has_two_tabs :
  let fitz_open := fun _ : string => Some Samples.three_pages in
  let w := after_requests fitz_open Samples.geometry
             [AddTab Samples.a_pdf; AddTab dot_a_pdf] in
  ~ NoDup (map normalize (paths w)).
Proof.
  intros fitz_open w H.
  assert (Hw : map normalize (paths w) = [Samples.a_pdf; Samples.a_pdf])
    by reflexivity.
  rewrite Hw in H. inversion H as [|? ? Hnotin _]; subst.
  apply Hnotin. left. reflexivity.
Qed.

End TabProps.

(* ------------------------------------------------------------------ *)
(** ** What a call keeps *)

Module Keeps.

Import Viewer Frame Runs.

(** [m] keeps the property [P] of the viewer, however the call ends. *)
Definition keeps {A} (P : PDFViewer -> Prop) (m : M A) : Prop :=
  forall s, P s -> P (final (m s)).

Section Rules.
Context (P : PDFViewer -> Prop).

Lemma keeps_ret A (a : A) : keeps P (ret a).
Proof. intros s H. exact H. Qed.

Lemma keeps_gets A (g : PDFViewer -> A) : keeps P (gets g).
Proof. intros s H. exact H. Qed.

Lemma keeps_raise A e : keeps P (@raise A e).
Proof. intros s H. exact H. Qed.

Lemma keeps_float_trig A : keeps P (@float_trig A).
Proof. intros s H. exact H. Qed.

Lemma keeps_lift A (r : Py.exn + A) : keeps P (lift r).
Proof. destruct r; intros s H; exact H. Qed.

Lemma keeps_modify (g : PDFViewer -> PDFViewer) :
  (forall s, P s -> P (g s)) -> keeps P (modify g).
Proof. intros H s Hs. apply H. exact Hs. Qed.

Lemma keeps_bind A C (m : M A) (k : A -> M C) :
  keeps P m -> (forall a, keeps P (k a)) -> keeps P (bind m k).
Proof.
  intros Hm Hk s Hs. unfold bind. specialize (Hm s Hs).
  destruct (m s) as [a s'|e s'|s']; simpl in *; try exact Hm.
  apply Hk. exact Hm.
Qed.

(** A first step that returns a value and leaves the viewer as it
    was: what is known of the value can be used for the rest. *)
Lemma keeps_bind_value A C (m : M A) (k : A -> M C) (V : A -> Prop) :
  (forall s, P s -> final (m s) = s) ->
  (forall s a s', P s -> m s = Ok a s' -> V a) ->
  (forall a, V a -> keeps P (k a)) -> keeps P (bind m k).
Proof.
  intros Hpure Hv Hk s Hs. unfold bind.
  pose proof (Hpure s Hs) as Hp. pose proof (Hv s) as Hv'.
  destruct (m s) as [a s'|e s'|s']; simpl in *; subst s'; try exact Hs.
  apply Hk; [|exact Hs]. eapply Hv'; [exact Hs | reflexivity].
Qed.

Lemma keeps_try A (body handler : M A) :
  keeps P body -> keeps P handler ->
  keeps P (try_except_ZeroDivisionError body handler).
Proof.
  intros Hb Hh s Hs. unfold try_except_ZeroDivisionError.
  specialize (Hb s Hs).
  destruct (body s) as [a s'|e s'|s']; simpl in *; try exact Hb.
  destruct e; simpl; try exact Hb. apply Hh. exact Hb.
Qed.

Lemma keeps_for_each A (l : list A) (body : A -> M unit) :
  (forall a, keeps P (body a)) -> keeps P (for_each l body).
Proof.
  intros Hb. induction l as [|a l IH]; simpl.
  - apply keeps_ret.
  - apply keeps_bind; auto.
Qed.
End Rules.

(** A property of what a call leaves alone is kept. *)
Lemma keeps_of_preserves A B (f : PDFViewer -> B) (Pf : B -> Prop) (m : M A) :
  preserves f m -> keeps (fun s => Pf (f s)) m.
Proof. intros H s Hs. rewrite H. exact Hs. Qed.

Lemma keeps_and A (P Q : PDFViewer -> Prop) (m : M A) :
  keeps P m -> keeps Q m -> keeps (fun s => P s /\ Q s) m.
Proof. intros HP HQ s [H1 H2]. split; [apply HP | apply HQ]; assumption. Qed.

Ltac keeps_step assigned known :=
  match goal with
  | |- keeps _ _ => solve [known]
  | |- keeps _ (bind _ _) => apply keeps_bind; [| intros ?]
  | |- keeps _ (ret _) => apply keeps_ret
  | |- keeps _ (gets _) => apply keeps_gets
  | |- keeps _ (raise _) => apply keeps_raise
  | |- keeps _ float_trig => apply keeps_float_trig
  | |- keeps _ (lift _) => apply keeps_lift
  | |- keeps _ (modify _) => apply keeps_modify; intros ? ?; assigned
  | |- keeps _ (try_except_ZeroDivisionError _ _) => apply keeps_try
  | |- keeps _ (for_each _ _) => apply keeps_for_each; intros ?
  | |- keeps _ (if ?b then _ else _) => destruct b
  | |- keeps _ (match ?x with _ => _ end) => destruct x
  end.

Ltac keeps_using assigned known := repeat (keeps_step assigned known).

End Keeps.

Module InvariantProps.

Import Viewer Frame Runs Keeps RotationProps.
Local Open Scope Q_scope.

(** The calls that events make on a viewer. *)
Inductive Op : Type :=
| Display_page (page_num : Z)
| Handle_page_scroll (direction : Z)
| Set_zoom_factor (factor : Q)
| Handle_wheel_zoom (factor : Q)
| Zoom_in
| Zoom_out
| Rotate_right
| Rotate_left
| Fit_to_page
| Fit_to_width
| Resize (new_size : Qt.QSize)
| Search_text (text : string)
| Go_to_result (index : Z)
| Next_result
| Prev_result
| Text_selected (scene_rect : Qt.QRectF)
| Page_ready (scale : Q)
| Render_timer_timeout.

Definition exec (o : Op) : M unit :=
  match o with
  | Display_page p => display_page p
  | Handle_page_scroll d => _handle_page_scroll d
  | Set_zoom_factor x => set_zoom_factor x
  | Handle_wheel_zoom f => _handle_wheel_zoom f
  | Zoom_in => zoom_in
  | Zoom_out => zoom_out
  | Rotate_right => rotate 90
  | Rotate_left => rotate (-90)
  | Fit_to_page => fit_to_page
  | Fit_to_width => fit_to_width
  | Resize size => resizeEvent size
  | Search_text text => search_text text
  | Go_to_result i => go_to_result i
  | Next_result => Window.next_result
  | Prev_result => Window.prev_result
  | Text_selected r => _on_text_selected r
  | Page_ready scale => _on_page_ready scale
  | Render_timer_timeout => _render_timer_timeout
  end.

Definition zoom_ok (s : PDFViewer) : Prop :=
  1 # 10 <= current_zoom_factor s /\ current_zoom_factor s <= 15.

Ltac zoom_assigned :=
  first [ assumption
        | apply ZoomProps.new_factor_range
        | split; discriminate ].

Lemma exec_keeps_zoom_ok (o : Op) : keeps zoom_ok (exec o).
Proof.
  destruct o; unfold exec, Window.next_result, Window.prev_result;
    repeat (keeps_step ltac:(zoom_assigned) ltac:(fail) || autounfold with methods).
Qed.


(** The viewer shows a page of its open document [d]. *)
Definition page_ok (d : Fitz.Document) (s : PDFViewer) : Prop :=
  has_open d s /\ (0 <= current_page_index s < count d)%Z.

(** [display_page] on an open document, branch by branch. *)
Lemma display_page_open (d : Fitz.Document) (s : PDFViewer) (p : Z) :
  has_open d s ->
  display_page p s =
    if ((0 <=? p)%Z && (p <? count d)%Z) then
      if (current_page_index s =? p)%Z then fit_to_page s
      else (_request_render true ;; emit page_changed) (set_current_page_index p s)
    else Ok tt s.
Proof.
  intros Ho. unfold display_page.
  rewrite (bind_ok _ _ _ _ _ _ _ (doc_bool_open d s Ho)).
  destruct (count d =? 0)%Z eqn:E0; cbn [negb].
  - apply Z.eqb_eq in E0.
    destruct ((0 <=? p)%Z && (p <? count d)%Z) eqn:E; [|reflexivity].
    apply andb_prop in E. destruct E as [E1 E2].
    apply Z.leb_le in E1. apply Z.ltb_lt in E2. lia.
  - rewrite (bind_ok _ _ _ _ _ _ _ (page_count_open d s Ho)).
    destruct ((0 <=? p)%Z && (p <? count d)%Z); cbn [negb]; [|reflexivity].
    rewrite bind_gets.
    destruct (current_page_index s =? p)%Z; cbn [negb]; reflexivity.
Qed.

Ltac untouched := assumption.

Lemma fit_to_page_keeps_page_ok d : keeps (page_ok d) fit_to_page.
Proof.
  repeat (keeps_step ltac:(untouched) ltac:(fail) || autounfold with methods).
Qed.

Lemma request_render_keeps_page_ok d b : keeps (page_ok d) (_request_render b).
Proof.
  repeat (keeps_step ltac:(untouched) ltac:(fail) || autounfold with methods).
Qed.

Lemma display_page_keeps_page_ok d p : keeps (page_ok d) (display_page p).
Proof.
  intros s Hs. pose proof Hs as [Ho Hr].
  rewrite (display_page_open d s p Ho).
  destruct ((0 <=? p)%Z && (p <? count d)%Z) eqn:E; [|exact Hs].
  destruct (current_page_index s =? p)%Z.
  - apply fit_to_page_keeps_page_ok. exact Hs.
  - apply andb_prop in E. destruct E as [E1 E2].
    apply Z.leb_le in E1. apply Z.ltb_lt in E2.
    apply (keeps_bind (page_ok d)).
    + apply request_render_keeps_page_ok.
    + intros []. unfold emit, effect. apply keeps_modify. intros ? ?. assumption.
    + split; [exact Ho | simpl; lia].
Qed.

Ltac page_known d :=
  first [ apply (display_page_keeps_page_ok d)
        | apply (fit_to_page_keeps_page_ok d)
        | apply (request_render_keeps_page_ok d) ].

Lemma exec_keeps_page_ok d (o : Op) : keeps (page_ok d) (exec o).
Proof.
  destruct o; unfold exec, Window.next_result, Window.prev_result;
    repeat (keeps_step ltac:(untouched) ltac:(page_known d)
            || unfold _handle_page_scroll, go_to_result, search_text,
                 set_zoom_factor, _handle_wheel_zoom, zoom_in, zoom_out, rotate,
                 fit_to_width, resizeEvent, _on_text_selected, _on_page_ready,
                 _render_timer_timeout, _recalculate_base_scale_and_render,
                 _update_highlights, _render_page, stop_render_job, page_count,
                 doc_bool, doc_load_page, search_page, emit, effect).
Qed.


Definition rot_ok (s : PDFViewer) : Prop := right_angle (rotation s).

Lemma exec_keeps_rot_ok (o : Op) : keeps rot_ok (exec o).
Proof.
  assert (Hq : forall a, quarter_turn a -> keeps rot_ok (rotate a)).
  { intros a Ha s Hs. apply (rotate_keeps_right_angle a s Ha Hs). }
  destruct o; unfold exec;
    try (apply Hq; unfold quarter_turn; auto; fail);
    apply (keeps_of_preserves _ _ rotation right_angle);
    unfold Window.next_result, Window.prev_result; frame.
Qed.

(** Every match lies on a page of the document [d]. *)
Definition hits_ok (d : Fitz.Document) (s : PDFViewer) : Prop :=
  forall hit, In hit (search_results s) -> (0 <= fst hit < count d)%Z.

(** The cursor is [-1] without matches and an index of the match
    list otherwise. *)
Definition cursor_ok (s : PDFViewer) : Prop :=
  (search_results s = [] /\ current_search_index s = (-1)%Z) \/
  (0 <= current_search_index s < Z.of_nat (List.length (search_results s)))%Z.

Definition search_state (s : PDFViewer) : list (Z * Fitz.Rect) * Z :=
  (search_results s, current_search_index s).

(** [search_text] with the empty string, on any viewer. *)
Lemma search_text_empty (s : PDFViewer) :
  search_text EmptyString s =
    Ok tt (set_trace (trace s ++ [Emit (search_results_updated 0 0)])
             (set_highlights []
                (set_current_search_index (-1) (set_search_results [] s)))).
Proof. reflexivity. Qed.

(** [go_to_result] with an index outside the match list. *)
Lemma go_to_result_out_of_range (index : Z) (s : PDFViewer) :
  ~ (0 <= index < Z.of_nat (List.length (search_results s)))%Z ->
  go_to_result index s = Ok tt s.
Proof.
  intros H. unfold go_to_result. rewrite bind_gets. cbv zeta.
  assert (E : (0 <=? index)%Z && (index <? Z.of_nat (List.length (search_results s)))%Z
              = false).
  { apply andb_false_iff. destruct (Z.leb_spec 0 index); [|left; reflexivity].
    right. apply Z.ltb_ge. lia. }
  rewrite E. reflexivity.
Qed.

Lemma update_highlights_keeps_page : preserves current_page_index _update_highlights.
Proof. frame. Qed.

(** The page a call [display_page(p)] leaves, for [p] in range. *)
Lemma page_after_display_page d s p :
  has_open d s -> (0 <= p < count d)%Z ->
  current_page_index (final (display_page p s)) = p.
Proof.
  intros Ho [Hlo Hhi]. rewrite (display_page_open d s p Ho).
  apply Z.leb_le in Hlo. apply Z.ltb_lt in Hhi. rewrite Hlo, Hhi. cbn [andb].
  destruct (current_page_index s =? p)%Z eqn:E.
  - apply Z.eqb_eq in E.
    assert (H : preserves current_page_index fit_to_page) by frame.
    rewrite H. exact E.
  - assert (H : preserves current_page_index (_request_render true ;; emit page_changed))
      by frame.
    rewrite H. reflexivity.
Qed.

(** [go_to_result] with an index of the match list. *)
Lemma go_to_result_in_range d s index hit :
  has_open d s -> hits_ok d s ->
  (0 <= index)%Z -> nth_error (search_results s) (Z.to_nat index) = Some hit ->
  exists s' mid,
    go_to_result index s = Ok tt s' /\
    current_search_index s' = index /\
    current_page_index s' = fst hit /\
    search_results s' = search_results s /\
    trace s' = mid ++ [Emit (search_results_updated
                               (index + 1)
                               (Z.of_nat (List.length (search_results s))))].
Proof.
  intros Ho Hhits Hlo Hnth.
  assert (Hhi : (index < Z.of_nat (List.length (search_results s)))%Z).
  { assert (Hn : (Z.to_nat index < List.length (search_results s))%nat)
      by (apply nth_error_Some; congruence).
    lia. }
  assert (Hin : In hit (search_results s)) by (eapply nth_error_In; eassumption).
  pose proof (Hhits hit Hin) as Hpage.
  assert (Hget : getitem (search_results s) index = inr hit).
  { unfold getitem. assert (E : (index <? 0)%Z = false) by (apply Z.ltb_ge; lia).
    rewrite E, E, Hnth. reflexivity. }
  unfold go_to_result. rewrite bind_gets. cbv zeta.
  assert (E : (0 <=? index)%Z && (index <? Z.of_nat (List.length (search_results s)))%Z
              = true).
  { apply andb_true_intro. split; [apply Z.leb_le | apply Z.ltb_lt]; lia. }
  rewrite E. cbn [negb]. rewrite bind_modify.
  set (s0 := set_current_search_index index s).
  rewrite (bind_ok _ _ _ _ _ hit s0) by (unfold lift; rewrite Hget; reflexivity).
  rewrite bind_gets.
  assert (Ho0 : has_open d s0) by exact Ho.
  set (step := if negb (fst hit =? current_page_index s0)%Z
               then display_page (fst hit) else _update_highlights).
  assert (Hret : returns step s0).
  { subst step. destruct (fst hit =? current_page_index s0)%Z eqn:Ep; cbn [negb].
    - apply _update_highlights_returns. simpl. exact Hhi.
    - apply (display_page_returns d); [exact Ho0|]. apply Z.eqb_neq. exact Ep. }
  assert (Hpg : current_page_index (final (step s0)) = fst hit).
  { subst step. destruct (fst hit =? current_page_index s0)%Z eqn:Ep; cbn [negb].
    - rewrite update_highlights_keeps_page. apply Z.eqb_eq in Ep. symmetry. exact Ep.
    - apply (page_after_display_page d s0 (fst hit) Ho0 Hpage). }
  assert (Hres : search_results (final (step s0)) = search_results s).
  { subst step. destruct (negb (fst hit =? current_page_index s0)%Z).
    - assert (H : preserves search_results (display_page (fst hit))) by frame.
      rewrite H. reflexivity.
    - assert (H : preserves search_results _update_highlights) by frame.
      rewrite H. reflexivity. }
  assert (Hidx : current_search_index (final (step s0)) = index).
  { subst step. destruct (negb (fst hit =? current_page_index s0)%Z).
    - assert (H : preserves current_search_index (display_page (fst hit))) by frame.
      rewrite H. reflexivity.
    - assert (H : preserves current_search_index _update_highlights) by frame.
      rewrite H. reflexivity. }
  destruct Hret as [[] [s1 H1]]. rewrite H1 in Hpg, Hres, Hidx. simpl in Hpg, Hres, Hidx.
  rewrite (bind_ok _ _ _ _ _ tt s1 H1). rewrite !bind_gets.
  eexists. exists (trace s1). split; [reflexivity|]. simpl.
  rewrite Hidx, Hres. repeat split; assumption.
Qed.


(** [search_text] with a query that is not empty, on an open document:
    the match list, the cursor, the page shown and the signals. *)
Lemma search_text_open d s text :
  has_open d s -> text <> EmptyString ->
  let found := SearchProps.expected_matches d text in
  let n := Z.of_nat (List.length found) in
  exists s' mid,
    search_text text s = Ok tt s' /\
    search_results s' = found /\
    match found with
    | [] =>
        current_search_index s' = (-1)%Z /\
        current_page_index s' = current_page_index s /\
        trace s' = trace s ++ [Emit (search_results_updated 0 0)]
    | hit :: _ =>
        current_search_index s' = 0%Z /\
        current_page_index s' = fst hit /\
        trace s' = mid ++ [Emit (search_results_updated 1 n);
                           Emit (search_results_updated 1 n)]
    end.
Proof.
  intros Ho Hne found n. destruct text as [|c t]; [congruence|].
  set (text := String c t) in *.
  assert (Hbounds : forall hit, In hit found -> (0 <= fst hit < count d)%Z).
  { intros hit Hin. apply SearchProps.matches_from_bounds in Hin.
    unfold count. simpl in Hin. lia. }
  set (s0 := set_current_search_index (-1) (set_search_results [] s)).
  assert (Ho0 : has_open d s0) by exact Ho.
  assert (Hloop : for_each (range (count d)) (search_page text) s0
                  = Ok tt (set_search_results found s0)).
  { unfold range, count. rewrite Nat2Z.id.
    exact (SearchProps.page_loop text d (Fitz.pages d) [] s0 (proj1 Ho0) (proj2 Ho0)
             eq_refl). }
  set (s1 := set_search_results found s0) in Hloop.
  unfold search_text. subst text. cbv iota. fold s0.
  rewrite !bind_modify. fold s0.
  rewrite (bind_ok _ _ _ _ _ _ _ (page_count_open d s0 Ho0)).
  rewrite (bind_ok _ _ _ _ _ _ _ Hloop).
  rewrite bind_gets.
  change (search_results s1) with found.
  destruct found as [|hit rest] eqn:E.
  - eexists. exists []. split; [reflexivity|]. repeat split.
  - assert (Ho2 : has_open d (set_current_search_index 0 s1)) by exact Ho.
    destruct (go_to_result_in_range d (set_current_search_index 0 s1) 0 hit Ho2)
      as [s2 [mid [H2 [Hidx [Hpg [Hres Htr]]]]]].
    { exact Hbounds. }
    { lia. }
    { reflexivity. }
    rewrite (bind_ok _ _ _ _ _ tt s2) by (rewrite bind_modify; exact H2).
    rewrite !bind_gets. eexists.
    exists (mid). split; [reflexivity|]. simpl in Hres, Htr |- *.
    rewrite Hres, Hidx, Htr. cbn [List.length] in *. subst n.
    repeat split; try assumption.
    rewrite <- app_assoc. reflexivity.
Qed.


Lemma prerotate_right_angle (m : Fitz.Matrix) (rot : Z) :
  right_angle rot ->
  (exists m', Fitz.prerotate m rot = Some m') /\
  (exists m', Fitz.prerotate m (- rot) = Some m').
Proof.
  intros [-> | [-> | [-> | ->]]]; split; eexists; vm_compute; reflexivity.
Qed.

(** [_recalculate_base_scale_and_render] returns on a page of an open
    document under a rotation by a right angle. *)
Lemma recalculate_returns d s :
  page_ok d s -> rot_ok s -> returns _recalculate_base_scale_and_render s.
Proof.
  intros [Ho Hp] Hr. unfold _recalculate_base_scale_and_render.
  eapply returns_bind_pure; [apply (doc_bool_open d s Ho)|].
  destruct (negb (negb (count d =? 0)%Z)); [apply returns_ret|].
  apply returns_bind_gets.
  destruct (viewport s) as [size|]; [|apply returns_ret].
  apply returns_bind_gets.
  destruct (doc_load_page_open d s _ Ho Hp) as [page Hpage].
  eapply returns_bind_pure; [exact Hpage|].
  destruct (Fitz.is_empty (Fitz.rect page)); [apply returns_ret|].
  apply returns_bind_gets.
  destruct (prerotate_right_angle (Fitz.Matrix_scale 1 1) (rotation s) Hr)
    as [[m Hm] _].
  rewrite Hm.
  destruct (Py.is_zero (Fitz.width _)) eqn:Ew; [apply returns_ret|].
  destruct (Py.is_zero (Fitz.height _)) eqn:Eh; [apply returns_ret|].
  cbn [orb].
  eapply returns_bind_pure; [unfold lift, Py.truediv; rewrite Ew; reflexivity|].
  eapply returns_bind_pure; [unfold lift, Py.truediv; rewrite Eh; reflexivity|].
  apply returns_bind_modify. unfold _request_render.
  apply returns_bind_effect. apply returns_modify.
Qed.

Lemma set_zoom_factor_returns x s : returns (set_zoom_factor x) s.
Proof.
  unfold returns. rewrite ZoomProps.set_zoom_factor_eq.
  destruct (Py.Qltb _ _); eexists; eexists; reflexivity.
Qed.

Lemma fit_to_page_returns d s :
  page_ok d s -> rot_ok s -> returns fit_to_page s.
Proof.
  intros Hp Hr. unfold fit_to_page. apply returns_bind_modify.
  unfold emit. apply returns_bind_effect.
  apply (recalculate_returns d); assumption.
Qed.

Lemma display_page_always_returns d s p :
  page_ok d s -> rot_ok s -> returns (display_page p) s.
Proof.
  intros Hp Hr.
  destruct (Z.eq_dec p (current_page_index s)) as [E | E].
  - destruct Hp as [Ho Hrange].
    unfold returns. rewrite (display_page_open d s p Ho).
    destruct ((0 <=? p)%Z && (p <? count d)%Z); [|eexists; eexists; reflexivity].
    subst p. rewrite Z.eqb_refl.
    apply (fit_to_page_returns d); [split|]; assumption.
  - apply (display_page_returns d); [apply Hp | exact E].
Qed.


Lemma scene_to_pdf_rect_cases (v : Qt.QRectF) (scale : Q) :
  (exists r, scene_to_pdf_rect v scale = inr r) \/
  scene_to_pdf_rect v scale = inl Py.ZeroDivisionError.
Proof.
  unfold scene_to_pdf_rect, Py.truediv.
  destruct (Py.is_zero scale); [right; reflexivity | left; eexists; reflexivity].
Qed.

Lemma on_text_selected_returns d s v :
  page_ok d s -> rot_ok s -> returns (_on_text_selected v) s.
Proof.
  intros [Ho Hp] Hr. unfold _on_text_selected.
  eapply returns_bind_pure; [apply (doc_bool_open d s Ho)|].
  destruct (negb (negb (count d =? 0)%Z)); [apply returns_ret|].
  apply returns_bind_gets.
  destruct (scene_to_pdf_rect_cases v (current_render_scale s)) as [[r Hc] | Hc].
  - eapply (returns_bind_pure _ _ _ _ _ (Some r)).
    { unfold try_except_ZeroDivisionError, bind, lift. rewrite Hc. reflexivity. }
    apply returns_bind_gets.
    destruct (doc_load_page_open d s _ Ho Hp) as [page Hpage].
    eapply returns_bind_pure; [exact Hpage|].
    apply returns_bind_gets.
    assert (Hu : exists r', unrotate r (rotation s) = Some r').
    { unfold unrotate. destruct (negb (rotation s =? 0)%Z); [|eexists; reflexivity].
      destruct (prerotate_right_angle (Fitz.Matrix_scale 1 1) (rotation s) Hr)
        as [_ [m Hm]].
      rewrite Hm. eexists. reflexivity. }
    destruct Hu as [r' Hu]. rewrite Hu.
    destruct (Fitz.get_text page r'); [apply returns_ret|].
    apply returns_bind_effect. apply returns_effect.
  - eapply (returns_bind_pure _ _ _ _ _ None).
    { unfold try_except_ZeroDivisionError, bind, lift. rewrite Hc. reflexivity. }
    apply returns_ret.
Qed.

(** [fit_to_width] returns, unless it comes to divide by a base scale
    of zero: then it raises [ZeroDivisionError] and the viewer is as
    it was. *)
Lemma fit_to_width_returns_or_divides_by_zero d s :
  page_ok d s -> rot_ok s ->
  returns fit_to_width s \/
  (base_scale s == 0 /\ fit_to_width s = Raise Py.ZeroDivisionError s).
Proof.
  intros [Ho Hp] Hr. unfold fit_to_width.
  pose proof (doc_bool_open d s Ho) as Hb.
  destruct (negb (count d =? 0)%Z) eqn:Ec.
  2:{ left. eapply returns_bind_pure; [exact Hb|]. apply returns_ret. }
  destruct (viewport s) as [size|] eqn:Ev.
  2:{ left. eapply returns_bind_pure; [exact Hb|]. cbn [negb].
      apply returns_bind_gets. rewrite Ev. apply returns_ret. }
  destruct (doc_load_page_open d s _ Ho Hp) as [page Hpage].
  destruct (Fitz.is_empty (Fitz.rect page)) eqn:Ee.
  { left. eapply returns_bind_pure; [exact Hb|]. cbn [negb].
    apply returns_bind_gets. rewrite Ev. apply returns_bind_gets.
    eapply returns_bind_pure; [exact Hpage|]. rewrite Ee. apply returns_ret. }
  destruct (prerotate_right_angle (Fitz.Matrix_scale 1 1) (rotation s) Hr)
    as [[m Hm] _].
  destruct (Py.is_zero (Fitz.width (Fitz.transform (Fitz.rect page) m))) eqn:Ew.
  { left. eapply returns_bind_pure; [exact Hb|]. cbn [negb].
    apply returns_bind_gets. rewrite Ev. apply returns_bind_gets.
    eapply returns_bind_pure; [exact Hpage|]. rewrite Ee.
    apply returns_bind_gets. rewrite Hm, Ew. apply returns_ret. }
  destruct (Py.is_zero (base_scale s)) eqn:Eb.
  - right. split; [apply PyFacts.is_zero_iff; exact Eb|].
    rewrite (bind_ok _ _ _ _ _ _ _ Hb). cbn [negb].
    rewrite bind_gets, Ev, bind_gets.
    rewrite (bind_ok _ _ _ _ _ _ _ Hpage). rewrite Ee, bind_gets, Hm, Ew.
    unfold Py.truediv at 1. rewrite Ew. unfold lift at 1.
    unfold bind at 1. unfold ret at 1. rewrite bind_gets.
    unfold Py.truediv. rewrite Eb. reflexivity.
  - left. eapply returns_bind_pure; [exact Hb|]. cbn [negb].
    apply returns_bind_gets. rewrite Ev. apply returns_bind_gets.
    eapply returns_bind_pure; [exact Hpage|]. rewrite Ee.
    apply returns_bind_gets. rewrite Hm, Ew.
    eapply returns_bind_pure; [unfold lift, Py.truediv; rewrite Ew; reflexivity|].
    apply returns_bind_gets.
    eapply returns_bind_pure; [unfold lift, Py.truediv; rewrite Eb; reflexivity|].
    apply set_zoom_factor_returns.
Qed.


(** What holds of a viewer between two calls. *)
Definition Inv (d : Fitz.Document) (s : PDFViewer) : Prop :=
  page_ok d s /\ zoom_ok s /\ rot_ok s /\ hits_ok d s /\ cursor_ok s.

Lemma fresh_viewer_inv fitz_open geometry path d :
  fitz_open path = Some d -> Fitz.is_closed d = false -> count d <> 0%Z ->
  Inv d (__init__ fitz_open geometry path).
Proof.
  intros Hopen Hc Hn. unfold Inv, page_ok, has_open, zoom_ok, rot_ok, hits_ok,
    cursor_ok, __init__; simpl.
  split; [|split; [|split; [|split]]].
  - split; [split; assumption | unfold count in *; lia].
  - split; lra.
  - left. reflexivity.
  - intros hit [].
  - left. split; reflexivity.
Qed.

Lemma in_range_nth {A} (l : list A) (i : Z) :
  (0 <= i < Z.of_nat (List.length l))%Z ->
  exists a, nth_error l (Z.to_nat i) = Some a.
Proof.
  intros H. destruct (nth_error l (Z.to_nat i)) as [a|] eqn:E.
  - exists a. reflexivity.
  - apply nth_error_None in E. lia.
Qed.

Lemma go_to_result_keeps_search d s index :
  has_open d s -> hits_ok d s -> cursor_ok s ->
  hits_ok d (final (go_to_result index s)) /\
  cursor_ok (final (go_to_result index s)).
Proof.
  intros Ho Hh Hc.
  destruct (Z_le_dec 0 index) as [Hlo|Hlo];
    [destruct (Z_lt_dec index (Z.of_nat (List.length (search_results s)))) as [Hhi|Hhi]|].
  - destruct (in_range_nth (search_results s) index (conj Hlo Hhi)) as [hit Hnth].
    destruct (go_to_result_in_range d s index hit Ho Hh Hlo Hnth)
      as [s' [mid [Hs' [Hidx [_ [Hres _]]]]]].
    rewrite Hs'. simpl. unfold hits_ok, cursor_ok. rewrite Hres, Hidx.
    split; [exact Hh | right; lia].
  - rewrite go_to_result_out_of_range by lia. split; assumption.
  - rewrite go_to_result_out_of_range by lia. split; assumption.
Qed.

Lemma exec_keeps_search d (o : Op) (s : PDFViewer) :
  Inv d s ->
  hits_ok d (final (exec o s)) /\ cursor_ok (final (exec o s)).
Proof.
  intros [[Ho Hp] [_ [_ [Hh Hc]]]].
  assert (Hother : preserves search_state (exec o) ->
                   hits_ok d (final (exec o s)) /\ cursor_ok (final (exec o s))).
  { intros H. specialize (H s). unfold search_state in H.
    injection H as H1 H2. unfold hits_ok, cursor_ok. rewrite H1, H2.
    split; assumption. }
  destruct o; try (apply Hother; unfold exec; frame; fail); unfold exec.
  - (* search_text *)
    destruct text as [|c t].
    + rewrite search_text_empty. simpl. split.
      * intros hit [].
      * left. split; reflexivity.
    + destruct (search_text_open d s (String c t) Ho) as [s' [mid [Hs' [Hres Hrest]]]];
        [discriminate|].
      rewrite Hs'. simpl. unfold hits_ok, cursor_ok. rewrite Hres. split.
      * intros hit Hin. apply SearchProps.matches_from_bounds in Hin.
        unfold count. simpl in Hin. lia.
      * destruct (SearchProps.expected_matches d (String c t)) as [|hit rest].
        -- left. split; [reflexivity | apply Hrest].
        -- right. destruct Hrest as [-> _]. simpl List.length. lia.
  - apply go_to_result_keeps_search; assumption.
  - unfold Window.next_result. rewrite bind_gets.
    destruct (search_results s) eqn:E; [simpl; split; assumption|].
    rewrite bind_gets. cbv zeta. rewrite <- E.
    apply go_to_result_keeps_search; assumption.
  - unfold Window.prev_result. rewrite bind_gets.
    destruct (search_results s) eqn:E; [simpl; split; assumption|].
    rewrite bind_gets. cbv zeta. rewrite <- E.
    apply go_to_result_keeps_search; assumption.
Qed.

Lemma exec_keeps_inv d (o : Op) (s : PDFViewer) :
  Inv d s -> Inv d (final (exec o s)).
Proof.
  intros H. pose proof (exec_keeps_search d o s H) as [Hh Hc].
  destruct H as [Hp [Hz [Hr _]]].
  split; [|split; [|split; [|split]]].
  - apply (exec_keeps_page_ok d o s Hp).
  - apply (exec_keeps_zoom_ok o s Hz).
  - apply (exec_keeps_rot_ok o s Hr).
  - exact Hh.
  - exact Hc.
Qed.

Lemma quarter_turn_right_angle (r a : Z) :
  right_angle r -> quarter_turn a -> right_angle (Py.mod_ (r + a) 360).
Proof.
  unfold right_angle, quarter_turn, Py.mod_.
  intros [-> | [-> | [-> | ->]]] [-> | ->]; vm_compute; tauto.
Qed.

(** Every call returns, but for [fit_to_width] at a base scale of
    zero. *)
Lemma exec_returns d (o : Op) (s : PDFViewer) :
  Inv d s ->
  returns (exec o) s \/
  (o = Fit_to_width /\ base_scale s == 0 /\
   exec o s = Raise Py.ZeroDivisionError s).
Proof.
  intros [Hp [Hz [Hr [Hh Hc]]]]. pose proof Hp as [Ho Hrange].
  assert (Hcur : (current_search_index s < Z.of_nat (List.length (search_results s)))%Z).
  { destruct Hc as [[-> ->] | Hc]; simpl; lia. }
  destruct o; unfold exec.
  - left. apply (display_page_always_returns d); assumption.
  - left. unfold _handle_page_scroll. apply returns_bind_gets.
    destruct (0 <? direction)%Z.
    + eapply returns_bind_pure; [apply (page_count_open d s Ho)|].
      destruct (current_page_index s <? count d - 1)%Z; [|apply returns_ret].
      apply (display_page_returns d); [exact Ho | lia].
    + destruct ((direction <? 0)%Z && (0 <? current_page_index s)%Z);
        [|apply returns_ret].
      apply returns_bind_modify.
      apply (display_page_returns d); [exact Ho | simpl; lia].
  - left. apply set_zoom_factor_returns.
  - left. unfold _handle_wheel_zoom. apply returns_bind_gets. apply set_zoom_factor_returns.
  - left. unfold zoom_in. apply returns_bind_gets. apply set_zoom_factor_returns.
  - left. unfold zoom_out. apply returns_bind_gets. apply set_zoom_factor_returns.
  - left. unfold rotate. apply returns_bind_gets. apply returns_bind_modify.
    apply returns_bind.
    + apply (recalculate_returns d); [exact Hp|].
      apply quarter_turn_right_angle; [exact Hr | left; reflexivity].
    + intros [] s1 _. apply returns_effect.
  - left. unfold rotate. apply returns_bind_gets. apply returns_bind_modify.
    apply returns_bind.
    + apply (recalculate_returns d); [exact Hp|].
      apply quarter_turn_right_angle; [exact Hr | right; reflexivity].
    + intros [] s1 _. apply returns_effect.
  - left. apply (fit_to_page_returns d); assumption.
  - destruct (fit_to_width_returns_or_divides_by_zero d s Hp Hr) as [H | [H1 H2]].
    + left. exact H.
    + right. split; [reflexivity|]. split; assumption.
  - left. unfold resizeEvent. apply returns_bind_modify.
    apply (recalculate_returns d); assumption.
  - left. destruct text as [|c t].
    + unfold returns. rewrite search_text_empty. eexists; eexists; reflexivity.
    + destruct (search_text_open d s (String c t) Ho) as [s' [mid [Hs' _]]];
        [discriminate|].
      exists tt, s'. exact Hs'.
  - left. apply (go_to_result_returns d); assumption.
  - left. unfold Window.next_result. apply returns_bind_gets.
    destruct (search_results s) eqn:E; [apply returns_ret|].
    apply returns_bind_gets. cbv zeta.
    apply (go_to_result_returns d); [exact Ho | exact Hh].
  - left. unfold Window.prev_result. apply returns_bind_gets.
    destruct (search_results s) eqn:E; [apply returns_ret|].
    apply returns_bind_gets. cbv zeta.
    apply (go_to_result_returns d); [exact Ho | exact Hh].
  - left. apply (on_text_selected_returns d); assumption.
  - left. unfold _on_page_ready. apply returns_bind_modify. apply returns_bind_effect.
    apply returns_bind_modify. apply returns_bind_gets.
    apply returns_bind.
    + destruct (scroll_to_bottom_on_load _).
      * apply returns_bind_effect. apply returns_modify.
      * apply returns_effect.
    + intros [] s1 H1. apply _update_highlights_returns.
      assert (Hs : search_state s1 = search_state s).
      { match type of H1 with
        | ?m ?s0 = _ =>
            assert (Hpres : preserves search_state m)
              by (destruct (scroll_to_bottom_on_load s0); frame);
            exact (after _ _ search_state m s0 tt s1 Hpres H1)
        end. }
      unfold search_state in Hs. injection Hs as -> ->. exact Hcur.
  - left. unfold _render_timer_timeout. apply returns_bind_gets.
    destruct (render_timer_active s); [|apply returns_ret].
    apply returns_bind_modify. apply (_render_page_returns d); assumption.
Qed.


(** The calls of a list, one after the other, each from the viewer in
    which the one before ended. *)
Definition run (ops : list Op) (s : PDFViewer) : PDFViewer :=
  fold_left (fun s o => final (exec o s)) ops s.

Lemma run_keeps_inv d ops : forall s, Inv d s -> Inv d (run ops s).
Proof.
  induction ops as [|o ops IH]; intros s H; simpl.
  - exact H.
  - apply IH. apply exec_keeps_inv. exact H.
Qed.

(** X1. A viewer opened on a document with at least one page keeps,
    through every sequence of calls: a current page index inside the
    document, a zoom factor within [0.1, 15], a rotation among 0, 90,
    180, 270, matches that all lie on pages of the document, and a
    cursor that is -1 without matches and an index of the match list
    otherwise. *)
Theorem viewer_invariants_hold
    (fitz_open : string -> option Fitz.Document) (geometry : Qt.QSize)
    (path : string) (d : Fitz.Document) (ops : list Op) :
  fitz_open path = Some d -> Fitz.is_closed d = false -> count d <> 0%Z ->
  let s := run ops (__init__ fitz_open geometry path) in
  (doc s = Some d /\ (0 <= current_page_index s < count d)%Z) /\
  (1 # 10 <= current_zoom_factor s /\ current_zoom_factor s <= 15) /\
  right_angle (rotation s) /\
  (forall hit, In hit (search_results s) -> (0 <= fst hit < count d)%Z) /\
  ((search_results s = [] /\ current_search_index s = (-1)%Z) \/
   (0 <= current_search_index s < Z.of_nat (List.length (search_results s)))%Z).
Proof.
  intros Hopen Hc Hn s.
  pose proof (run_keeps_inv d ops _ (fresh_viewer_inv fitz_open geometry path d
                                      Hopen Hc Hn)) as H.
  fold s in H. destruct H as [[[Hd _] Hp] [Hz [Hr [Hh Hcur]]]].
  split; [split; assumption|]. split; [exact Hz|]. split; [exact Hr|].
  split; [exact Hh | exact Hcur].
Qed.

Lemma viewer_invariants_hold_witness :
  let s := run [Search_text "test"; Next_result; Zoom_in; Rotate_right;
                Handle_page_scroll 1; Fit_to_width]
               (Samples.viewer Samples.a_pdf) in
  (0 <= current_page_index s < 3)%Z /\
  (1 # 10 <= current_zoom_factor s /\ current_zoom_factor s <= 15) /\
  right_angle (rotation s).
Proof.
  intros s.
  destruct (viewer_invariants_hold (fun _ => Some Samples.three_pages)
              Samples.geometry Samples.a_pdf Samples.three_pages
              [Search_text "test"; Next_result; Zoom_in; Rotate_right;
               Handle_page_scroll 1; Fit_to_width])
    as [[_ Hp] [Hz [Hr _]]].
  - reflexivity.
  - reflexivity.
  - discriminate.
  - split; [exact Hp|]. split; [exact Hz | exact Hr].
Defined.

(** X2. On such a viewer no call raises, with one exception:
    [fit_to_width] divides by the base scale without a guard, and with
    a base scale of zero it raises [ZeroDivisionError], leaving the
    viewer as it was. *)
Theorem calls_return_except_fit_to_width_at_zero_base_scale
    (fitz_open : string -> option Fitz.Document) (geometry : Qt.QSize)
    (path : string) (d : Fitz.Document) (ops : list Op) (o : Op) :
  fitz_open path = Some d -> Fitz.is_closed d = false -> count d <> 0%Z ->
  let s := run ops (__init__ fitz_open geometry path) in
  (exists s', exec o s = Ok tt s') \/
  (o = Fit_to_width /\ base_scale s == 0 /\
   exec o s = Raise Py.ZeroDivisionError s).
Proof.
  intros Hopen Hc Hn s.
  pose proof (run_keeps_inv d ops _ (fresh_viewer_inv fitz_open geometry path d
                                      Hopen Hc Hn)) as H.
  fold s in H.
  destruct (exec_returns d o s H) as [[[] [s' Hs']] | Hraise].
  - left. exists s'. exact Hs'.
  - right. exact Hraise.
Qed.

Lemma calls_return_except_fit_to_width_at_zero_base_scale_witness :
  let collapsed := run [Resize (Qt.mkQSize 0 0)] (Samples.viewer Samples.a_pdf) in
  (exists s', exec Zoom_in collapsed = Ok tt s') /\
  exec Fit_to_width collapsed = Raise Py.ZeroDivisionError collapsed.
Proof.
  intros collapsed. split.
  - destruct (calls_return_except_fit_to_width_at_zero_base_scale
                (fun _ => Some Samples.three_pages) Samples.geometry Samples.a_pdf
                Samples.three_pages [Resize (Qt.mkQSize 0 0)] Zoom_in)
      as [H | [H _]].
    + reflexivity.
    + reflexivity.
    + discriminate.
    + exact H.
    + discriminate.
  - destruct (calls_return_except_fit_to_width_at_zero_base_scale
                (fun _ => Some Samples.three_pages) Samples.geometry Samples.a_pdf
                Samples.three_pages [Resize (Qt.mkQSize 0 0)] Fit_to_width)
      as [[s' H] | [_ [_ H]]].
    + reflexivity.
    + reflexivity.
    + discriminate.
    + exfalso. vm_compute in H. discriminate.
    + exact H.
Defined.

End InvariantProps.

Module SearchOutcomeProps.

Import Viewer Frame Runs Keeps RotationProps InvariantProps.
Local Open Scope Q_scope.

(** What a search finds: nothing for the empty query. *)
Definition found (d : Fitz.Document) (text : string) : list (Z * Fitz.Rect) :=
  match text with
  | EmptyString => []
  | String _ _ => SearchProps.expected_matches d text
  end.

(** X3. On an open document [search_text] returns for every query.
    Without a match (always so for the empty query) the cursor is -1,
    the page shown stays, and [search_results_updated(0, 0)] is
    emitted once; with matches the cursor is 0, the page of the first
    match is shown, and [search_results_updated(1, n)] is emitted
    twice, by [go_to_result] and by [search_text] itself. *)
Theorem search_text_outcome (d : Fitz.Document) (s : PDFViewer) (text : string) :
  has_open d s ->
  let n := Z.of_nat (List.length (found d text)) in
  exists s' mid,
    search_text text s = Ok tt s' /\
    search_results s' = found d text /\
    match found d text with
    | [] =>
        current_search_index s' = (-1)%Z /\
        current_page_index s' = current_page_index s /\
        trace s' = trace s ++ [Emit (search_results_updated 0 0)]
    | hit :: _ =>
        current_search_index s' = 0%Z /\
        current_page_index s' = fst hit /\
        trace s' = mid ++ [Emit (search_results_updated 1 n);
                           Emit (search_results_updated 1 n)]
    end.
Proof.
  intros Ho n. destruct text as [|c t].
  - rewrite search_text_empty. eexists. exists []. split; [reflexivity|].
    simpl. repeat split.
  - destruct (search_text_open d s (String c t) Ho) as [s' [mid H]]; [discriminate|].
    exists s', mid. exact H.
Qed.

Lemma search_text_outcome_witness :
  let s := Samples.viewer Samples.a_pdf in
  exists s', search_text "test" s = Ok tt s' /\
    search_results s' = [(0%Z, Samples.r0); (2%Z, Samples.r2)] /\
    current_search_index s' = 0%Z /\ current_page_index s' = 0%Z.
Proof.
  intros s.
  destruct (search_text_outcome Samples.three_pages s "test")
    as [s' [mid [H1 [H2 H3]]]].
  - split; reflexivity.
  - exists s'. split; [exact H1|]. split; [exact H2|].
    destruct H3 as [H3 [H4 _]]. split; [exact H3 | exact H4].
Defined.

(** X4. [go_to_result] checks its index.  With an index of the match
    list it returns with the cursor on that match and the page of
    that match shown, keeps the match list, and emits
    [search_results_updated(index + 1, n)] last; with any other index
    it returns with the viewer as it was. *)
Theorem go_to_result_is_bounds_checked
    (d : Fitz.Document) (s : PDFViewer) (index : Z) :
  has_open d s ->
  (forall hit, In hit (search_results s) -> (0 <= fst hit < count d)%Z) ->
  let n := Z.of_nat (List.length (search_results s)) in
  ((0 <= index < n)%Z ->
     exists hit s' mid,
       nth_error (search_results s) (Z.to_nat index) = Some hit /\
       go_to_result index s = Ok tt s' /\
       current_search_index s' = index /\
       current_page_index s' = fst hit /\
       search_results s' = search_results s /\
       trace s' = mid ++ [Emit (search_results_updated (index + 1) n)]) /\
  (~ (0 <= index < n)%Z -> go_to_result index s = Ok tt s).
Proof.
  intros Ho Hh n. split.
  - intros Hr. destruct (in_range_nth (search_results s) index Hr) as [hit Hnth].
    destruct (go_to_result_in_range d s index hit Ho Hh (proj1 Hr) Hnth)
      as [s' [mid H]].
    exists hit, s', mid. split; [exact Hnth | exact H].
  - intros Hr. apply go_to_result_out_of_range. exact Hr.
Qed.

(** The sample viewer after a search: two matches, on pages 0 and 2. *)
Definition searched_viewer : PDFViewer :=
  final (search_text "test" (Samples.viewer Samples.a_pdf)).

Lemma go_to_result_is_bounds_checked_witness :
  (exists s', go_to_result 1 searched_viewer = Ok tt s' /\
     current_search_index s' = 1%Z /\ current_page_index s' = 2%Z) /\
  go_to_result 2 searched_viewer = Ok tt searched_viewer.
Proof.
  destruct (go_to_result_is_bounds_checked Samples.three_pages searched_viewer 1)
    as [Hin _].
  { split; reflexivity. }
  { intros hit [<- | [<- | []]]; unfold count; simpl; lia. }
  destruct (go_to_result_is_bounds_checked Samples.three_pages searched_viewer 2)
    as [_ Hout].
  { split; reflexivity. }
  { intros hit [<- | [<- | []]]; unfold count; simpl; lia. }
  split.
  - destruct Hin as [hit [s' [mid [Hnth [H1 [H2 [H3 _]]]]]]].
    + simpl. lia.
    + exists s'. split; [exact H1|]. split; [exact H2|].
      rewrite H3. vm_compute in Hnth. injection Hnth as <-. reflexivity.
  - apply Hout. simpl. lia.
Defined.

End SearchOutcomeProps.

Module HighlightProps.

Import Viewer Frame Runs.
Local Open Scope Z_scope.

Definition on_page (page_index : Z) (hit : Z * Fitz.Rect) : bool :=
  fst hit =? page_index.

Lemma highlight_items_rects results cur sc idx : forall i,
  map hl_rect (highlight_items i results cur sc idx)
  = map (fun hit => highlight_rect (snd hit) sc) (filter (on_page cur) results).
Proof.
  induction results as [|[p r] rest IH]; intros i; simpl.
  - reflexivity.
  - unfold on_page at 1. simpl. destruct (p =? cur); simpl; rewrite IH; reflexivity.
Qed.

Lemma highlight_items_none_active results cur sc idx : forall i,
  idx < i ->
  filter hl_active (highlight_items i results cur sc idx) = [].
Proof.
  induction results as [|[p r] rest IH]; intros i Hi; simpl.
  - reflexivity.
  - destruct (p =? cur); simpl.
    + assert (E : (i =? idx) = false) by (apply Z.eqb_neq; lia).
      rewrite E. apply IH. lia.
    + apply IH. lia.
Qed.

Lemma highlight_items_active results cur sc idx : forall i hit,
  i <= idx ->
  nth_error results (Z.to_nat (idx - i)) = Some hit ->
  List.length (filter hl_active (highlight_items i results cur sc idx))
  = if on_page cur hit then 1%nat else 0%nat.
Proof.
  induction results as [|[p r] rest IH]; intros i hit Hi Hnth.
  - destruct (Z.to_nat (idx - i)); discriminate.
  - simpl. destruct (Z.eq_dec i idx) as [E | E].
    + subst i. rewrite Z.sub_diag in Hnth. simpl in Hnth. injection Hnth as <-.
      unfold on_page. simpl. destruct (p =? cur); simpl.
      * rewrite Z.eqb_refl. simpl.
        rewrite highlight_items_none_active by lia. reflexivity.
      * rewrite highlight_items_none_active by lia. reflexivity.
    + assert (Hn : Z.to_nat (idx - i) = S (Z.to_nat (idx - (i + 1)))) by lia.
      rewrite Hn in Hnth. simpl in Hnth.
      assert (Ei : (i =? idx) = false) by (apply Z.eqb_neq; exact E).
      destruct (p =? cur); simpl; [rewrite Ei|]; apply IH; try lia; exact Hnth.
Qed.

(** X5. [_update_highlights] with the cursor on a match.  If that
    match is on the page shown, the scene gets one highlight for each
    match on this page, in the order of the match list, each being
    the match rectangle times the render scale, and exactly one of
    them is marked active; if it is on another page, the scene gets
    no highlight. *)
Theorem update_highlights_marks_the_active_match
    (s : PDFViewer) (hit : Z * Fitz.Rect) :
  0 <= current_search_index s ->
  nth_error (search_results s) (Z.to_nat (current_search_index s)) = Some hit ->
  exists s', _update_highlights s = Ok tt s' /\
    (fst hit = current_page_index s ->
       map hl_rect (highlights s')
       = map (fun m => highlight_rect (snd m) (current_render_scale s))
             (filter (on_page (current_page_index s)) (search_results s)) /\
       List.length (filter hl_active (highlights s')) = 1%nat) /\
    (fst hit <> current_page_index s -> highlights s' = []).
Proof.
  intros Hlo Hnth. unfold _update_highlights.
  rewrite bind_modify, bind_gets, bind_gets.
  change (search_results (set_highlights [] s)) with (search_results s).
  change (current_search_index (set_highlights [] s)) with (current_search_index s).
  destruct (search_results s) as [|h rest] eqn:E.
  { destruct (Z.to_nat (current_search_index s)); discriminate. }
  assert (E0 : (current_search_index s <? 0) = false) by (apply Z.ltb_ge; lia).
  rewrite E0.
  assert (Hget : getitem (h :: rest) (current_search_index s) = inr hit).
  { unfold getitem. rewrite E0, E0, Hnth. reflexivity. }
  rewrite (bind_ok _ _ _ _ _ hit (set_highlights [] s))
    by (unfold lift; rewrite Hget; reflexivity).
  rewrite bind_gets.
  change (current_page_index (set_highlights [] s)) with (current_page_index s).
  destruct (fst hit =? current_page_index s) eqn:Ep; cbn [negb].
  - apply Z.eqb_eq in Ep. rewrite bind_gets.
    eexists. split; [reflexivity|]. split; [|intros Hne; contradiction].
    intros _.
    change (highlights (set_highlights ?x ?y)) with x.
    change (current_render_scale (set_highlights [] s)) with (current_render_scale s).
    split.
    + apply highlight_items_rects.
    + rewrite (highlight_items_active (h :: rest) _ _ _ 0 hit); try lia.
      * unfold on_page. rewrite Ep, Z.eqb_refl. reflexivity.
      * rewrite Z.sub_0_r. exact Hnth.
  - apply Z.eqb_neq in Ep. eexists. split; [reflexivity|].
    split; [intros He; contradiction | intros _; reflexivity].
Qed.

Lemma update_highlights_marks_the_active_match_witness :
  let s := SearchOutcomeProps.searched_viewer in
  exists s', _update_highlights s = Ok tt s' /\
    List.length (highlights s') = 1%nat /\
    List.length (filter hl_active (highlights s')) = 1%nat.
Proof.
  intros s.
  destruct (update_highlights_marks_the_active_match s (0, Samples.r0))
    as [s' [H1 [H2 _]]].
  - simpl. lia.
  - reflexivity.
  - exists s'. split; [exact H1|]. destruct (H2 eq_refl) as [Hr Ha].
    split; [|exact Ha].
    rewrite <- (length_map hl_rect), Hr. reflexivity.
Defined.

End HighlightProps.

Module ViewProps.

Import Viewer Frame Runs Keeps RotationProps ZoomProps GeometryProps InvariantProps.
Local Open Scope Q_scope.

Lemma new_factor_inside x : 1 # 10 <= x -> x <= 15 -> new_factor x == x.
Proof.
  intros Hlo Hhi. rewrite new_factor_clamp. unfold clamp.
  destruct (Py.Qltb x (1 # 10)) eqn:E1; order_cases; [lra|].
  destruct (Py.Qltb 15 x) eqn:E2; order_cases; [lra|]. reflexivity.
Qed.

(** [set_zoom_factor(x)] for a request inside the range and further
    than 0.01 from the current factor. *)
Lemma set_zoom_factor_takes x s :
  1 # 10 <= x -> x <= 15 ->
  (x - current_zoom_factor s < - (1 # 100) \/ 1 # 100 < x - current_zoom_factor s) ->
  exists s', set_zoom_factor x s = Ok tt s' /\
    current_zoom_factor s' = new_factor x /\ new_factor x == x /\
    base_scale s' = base_scale s.
Proof.
  intros Hlo Hhi Hfar. pose proof (new_factor_inside x Hlo Hhi) as Hn.
  rewrite set_zoom_factor_eq.
  assert (E : Py.Qltb (1 # 100) (Qabs (new_factor x - current_zoom_factor s)) = true).
  { apply PyFacts.Qltb_lt. rewrite Hn. destruct Hfar as [Hf | Hf].
    - rewrite Qabs_neg by lra. lra.
    - rewrite Qabs_pos by lra. lra. }
  rewrite E. eexists. split; [reflexivity|]. repeat split. exact Hn.
Qed.

(** X6. Zooming in and then out, or out and then in, brings the zoom
    factor back to its value, as long as the step in between stays
    within [0.1, 15]. *)
Theorem zoom_in_and_out_round_trip (s : PDFViewer) :
  let z := current_zoom_factor s in
  (1 # 10 <= z -> z <= 12 ->
     exists s1 s2, zoom_in s = Ok tt s1 /\ zoom_out s1 = Ok tt s2 /\
       current_zoom_factor s1 == z * (125 # 100) /\
       current_zoom_factor s2 == z) /\
  (1 # 8 <= z -> z <= 15 ->
     exists s1 s2, zoom_out s = Ok tt s1 /\ zoom_in s1 = Ok tt s2 /\
       current_zoom_factor s1 == z / (125 # 100) /\
       current_zoom_factor s2 == z).
Proof.
  intros z. split; intros Hlo Hhi.
  - destruct (set_zoom_factor_takes (z * (125 # 100)) s) as [s1 [H1 [Hz1 [Hn1 _]]]];
      [lra | lra | right; fold z; lra |].
    assert (Hz1' : current_zoom_factor s1 == z * (125 # 100))
      by (rewrite Hz1; exact Hn1).
    assert (Hq : current_zoom_factor s1 / (125 # 100) == z)
      by (rewrite Hz1'; field).
    destruct (set_zoom_factor_takes (current_zoom_factor s1 / (125 # 100)) s1)
      as [s2 [H2 [Hz2 [Hn2 _]]]].
    + rewrite Hq. lra.
    + rewrite Hq. lra.
    + left. rewrite Hq, Hz1'. lra.
    + exists s1, s2. split; [exact H1|]. split; [exact H2|]. split; [exact Hz1'|].
      rewrite Hz2, Hn2. exact Hq.
  - assert (Hd : z / (125 # 100) == z * (4 # 5)) by field.
    destruct (set_zoom_factor_takes (z / (125 # 100)) s) as [s1 [H1 [Hz1 [Hn1 _]]]].
    + rewrite Hd. lra.
    + rewrite Hd. lra.
    + left. fold z. rewrite Hd. lra.
    + assert (Hz1' : current_zoom_factor s1 == z / (125 # 100))
        by (rewrite Hz1; exact Hn1).
      assert (Hq : current_zoom_factor s1 * (125 # 100) == z)
        by (rewrite Hz1'; field).
      destruct (set_zoom_factor_takes (current_zoom_factor s1 * (125 # 100)) s1)
        as [s2 [H2 [Hz2 [Hn2 _]]]].
      * rewrite Hq. lra.
      * rewrite Hq. lra.
      * right. rewrite Hq, Hz1', Hd. lra.
      * exists s1, s2. split; [exact H1|]. split; [exact H2|]. split; [exact Hz1'|].
        rewrite Hz2, Hn2. exact Hq.
Qed.

Lemma zoom_in_and_out_round_trip_witness :
  let s := Samples.viewer Samples.a_pdf in
  exists s1 s2, zoom_in s = Ok tt s1 /\ zoom_out s1 = Ok tt s2 /\
    current_zoom_factor s1 == 125 # 100 /\ current_zoom_factor s2 == 1.
Proof.
  intros s. destruct (zoom_in_and_out_round_trip s) as [H _].
  destruct H as [s1 [s2 [H1 [H2 [H3 H4]]]]].
  - vm_compute. discriminate.
  - vm_compute. discriminate.
  - exists s1, s2. split; [exact H1|]. split; [exact H2|]. split.
    + rewrite H3. reflexivity.
    + rewrite H4. reflexivity.
Defined.

End ViewProps.

(* ------------------------------------------------------------------ *)
(** ** Text, sets and ranges *)

Module TextProps.

Import Py PyText.
Local Open Scope Z_scope.

(** Strictly ascending: sorted and without duplicates. *)
Definition ascending (l : list Z) : Prop := StronglySorted Z.lt l.

Lemma set_add_In (p : Z) (s : list Z) (x : Z) :
  In x (set_add p s) <-> x = p \/ In x s.
Proof.
  induction s as [|q s IH]; simpl.
  - intuition.
  - destruct (p <? q) eqn:E1; [simpl; intuition|].
    destruct (p =? q) eqn:E2.
    + apply Z.eqb_eq in E2. subst q. simpl. intuition.
    + simpl. rewrite IH. intuition.
Qed.

Lemma set_add_ascending (p : Z) (s : list Z) :
  ascending s -> ascending (set_add p s).
Proof.
  unfold ascending. induction s as [|q s IH]; intros H; simpl.
  - constructor; constructor.
  - inversion H as [|? ? Hs Hq]; subst.
    destruct (p <? q) eqn:E1.
    + apply Z.ltb_lt in E1. constructor; [exact H|].
      constructor; [exact E1|].
      eapply Forall_impl; [|exact Hq]. intros a Ha. simpl in Ha. lia.
    + destruct (p =? q) eqn:E2; [exact H|].
      apply Z.ltb_ge in E1. apply Z.eqb_neq in E2.
      constructor; [apply IH; exact Hs|].
      apply Forall_forall. intros x Hx. apply set_add_In in Hx.
      destruct Hx as [-> | Hx]; [lia|].
      rewrite Forall_forall in Hq. apply Hq. exact Hx.
Qed.

Lemma set_update_In (l s : list Z) (x : Z) :
  In x (set_update s l) <-> In x l \/ In x s.
Proof.
  unfold set_update. revert s. induction l as [|p l IH]; intros s; simpl.
  - intuition.
  - rewrite IH, set_add_In. intuition.
Qed.

Lemma set_update_ascending (l s : list Z) :
  ascending s -> ascending (set_update s l).
Proof.
  unfold set_update. revert s. induction l as [|p l IH]; intros s H; simpl.
  - exact H.
  - apply IH. apply set_add_ascending. exact H.
Qed.

Lemma range_In (n x : Z) : In x (Viewer.range n) <-> 0 <= x < n.
Proof.
  unfold Viewer.range. rewrite in_map_iff. split.
  - intros [k [<- Hk]]. apply in_seq in Hk. lia.
  - intros H. exists (Z.to_nat x). split; [lia|]. apply in_seq. lia.
Qed.

Lemma range2_In (a b x : Z) : In x (range2 a b) <-> a <= x < b.
Proof.
  unfold range2. rewrite in_map_iff. split.
  - intros [k [<- Hk]]. apply range_In in Hk. lia.
  - intros H. exists (x - a). split; [lia|]. apply range_In. lia.
Qed.

(** Two ascending lists with the same members are the same list. *)
Lemma ascending_ext (l l' : list Z) :
  ascending l -> ascending l' -> (forall x, In x l <-> In x l') -> l = l'.
Proof.
  unfold ascending. revert l'. induction l as [|a l IH]; intros l' Hl Hl' Hx.
  - destruct l' as [|b l']; [reflexivity|].
    exfalso. apply (proj2 (Hx b)). left. reflexivity.
  - destruct l' as [|b l'].
    + exfalso. apply (proj1 (Hx a)). left. reflexivity.
    + inversion Hl as [|? ? Hs Ha]; subst. inversion Hl' as [|? ? Hs' Hb]; subst.
      rewrite Forall_forall in Ha, Hb.
      assert (a = b).
      { destruct (proj1 (Hx a) (or_introl eq_refl)) as [E | E]; [auto|].
        destruct (proj2 (Hx b) (or_introl eq_refl)) as [E' | E']; [auto|].
        specialize (Ha _ E'). specialize (Hb _ E). lia. }
      subst b. f_equal. apply IH; [exact Hs | exact Hs'|].
      intros x. split; intros H.
      * destruct (proj1 (Hx x) (or_intror H)) as [E | E]; [|exact E].
        subst x. specialize (Ha _ H). lia.
      * destruct (proj2 (Hx x) (or_intror H)) as [E | E]; [|exact E].
        subst x. specialize (Hb _ H). lia.
Qed.

Lemma ascending_filter (f : Z -> bool) (l : list Z) :
  ascending l -> ascending (filter f l).
Proof.
  unfold ascending. induction l as [|a l IH]; intros H; simpl.
  - constructor.
  - inversion H as [|? ? Hs Ha]; subst.
    destruct (f a); [|apply IH; exact Hs].
    constructor; [apply IH; exact Hs|].
    rewrite Forall_forall in *. intros x Hx. apply filter_In in Hx. apply Ha, Hx.
Qed.

Lemma ascending_NoDup (l : list Z) : ascending l -> NoDup l.
Proof.
  unfold ascending. induction 1 as [|a l Hs IH Ha]; constructor; [|exact IH].
  intros Hin. rewrite Forall_forall in Ha. specialize (Ha _ Hin). lia.
Qed.

Lemma range2_ascending (a b : Z) : ascending (range2 a b).
Proof.
  unfold ascending, range2, Viewer.range. rewrite map_map.
  generalize (Z.to_nat (b - a)). intros n. generalize 0%nat.
  induction n as [|n IH]; intros k; simpl.
  - constructor.
  - constructor; [apply IH|].
    apply Forall_forall. intros x Hx. apply in_map_iff in Hx.
    destruct Hx as [j [<- Hj]]. apply in_seq in Hj. lia.
Qed.

(** [split] on a text put together with the separator. *)
Lemma split_app (sep : ascii) (a b : string) :
  split sep (a ++ String sep b) = split sep a ++ split sep b.
Proof.
  induction a as [|c a IH]; simpl.
  - rewrite Ascii.eqb_refl. reflexivity.
  - destruct (Ascii.eqb c sep); [rewrite IH; reflexivity|].
    rewrite IH. destruct (split sep a) as [|piece pieces] eqn:E; [|reflexivity].
    destruct a; simpl in E; [discriminate|].
    destruct (Ascii.eqb a sep); [discriminate|].
    destruct (split sep a0); discriminate.
Qed.

Lemma split_not_nil (sep : ascii) (s : string) : split sep s <> [].
Proof.
  destruct s as [|c s]; simpl; [discriminate|].
  destruct (Ascii.eqb c sep); [discriminate|].
  destruct (split sep s); discriminate.
Qed.

(** [int] raises nothing but [ValueError]. *)
Lemma int_raises_ValueError (lim : Z) (s : string) (e : exn) :
  int lim s = inl e -> e = ValueError.
Proof.
  unfold int.
  destruct (match skip_blanks s with
            | String "+" s' => (1, s')
            | String "-" s' => (-1, s')
            | _ => (1, skip_blanks s)
            end) as [sign s0] eqn:E.
  intros H.
  repeat match type of H with
         | inl _ = inl _ => injection H as <-; reflexivity
         | inr _ = inl _ => discriminate
         | context [match ?x with _ => _ end] => destruct x
         | context [if ?x then _ else _] => destruct x
         end.
Qed.

End TextProps.

(* ------------------------------------------------------------------ *)
(** ** The print dialog *)

Module PrintProps.

Import Py PyText PrintDialog TextProps.
Local Open Scope Z_scope.

(** The pages a part of the text names: the number it is, or the
    numbers between the two numbers around its hyphen, whichever of
    the two is the larger. *)
Definition names (lim : Z) (part : string) (p : Z) : Prop :=
  (contains "-" (strip part) = false /\ int lim (strip part) = inr p) \/
  (exists first second x y,
     split "-" (strip part) = [first; second] /\
     int lim first = inr x /\ int lim second = inr y /\
     Z.min x y <= p <= Z.max x y).

(** A part the loop accepts: blank, a number, or two numbers around
    one hyphen. *)
Definition readable (lim : Z) (part : string) : Prop :=
  strip part = EmptyString \/
  (contains "-" (strip part) = false /\ exists p, int lim (strip part) = inr p) \/
  (exists first second x y,
     split "-" (strip part) = [first; second] /\
     int lim first = inr x /\ int lim second = inr y).

Lemma split_without_separator (sep : ascii) (s : string) :
  contains sep s = false -> split sep s = [s].
Proof.
  induction s as [|c s IH]; simpl; intros H.
  - reflexivity.
  - apply orb_false_iff in H. destruct H as [H1 H2].
    rewrite H1, (IH H2). reflexivity.
Qed.

Lemma split_with_separator (sep : ascii) (s : string) :
  contains sep s = true -> exists a b rest, split sep s = a :: b :: rest.
Proof.
  induction s as [|c s IH]; simpl; intros H.
  - discriminate.
  - destruct (Ascii.eqb c sep) eqn:E.
    + destruct (split sep s) as [|b rest] eqn:Es.
      * exfalso. exact (split_not_nil sep s Es).
      * eexists. eexists. eexists. reflexivity.
    + simpl in H. destruct (IH H) as [a [b [rest Hs]]]. rewrite Hs.
      eexists. eexists. eexists. reflexivity.
Qed.

(** One turn of the loop: either the part is readable and its pages
    join the set, or the turn raises [ValueError]. *)
Lemma parse_part_cases (lim : Z) (pages : list Z) (part : string) :
  (readable lim part /\
   exists pages', parse_part lim pages part = inr pages' /\
     (ascending pages -> ascending pages') /\
     (forall x, In x pages' <-> In x pages \/ names lim part x)) \/
  (~ readable lim part /\ parse_part lim pages part = inl ValueError).
Proof.
  unfold parse_part, readable, names, and_then.
  destruct (strip part) as [|c q] eqn:Eq.
  - left. split; [left; reflexivity|]. exists pages. split; [reflexivity|].
    split; [auto|]. intros x. split; [auto|].
    intros [H | [[_ H] | [f [g [a [b [H _]]]]]]]; [exact H | |];
      vm_compute in H; discriminate.
  - destruct (contains "-" (String c q)) eqn:Ec.
    + destruct (split "-" (String c q)) as [|f [|g [|h rest]]] eqn:Es.
      * exfalso. exact (split_not_nil _ _ Es).
      * destruct (split_with_separator _ _ Ec) as [a [b [rest Hs]]]. congruence.
      * destruct (int lim f) as [e | x] eqn:Ef.
        { right. rewrite (int_raises_ValueError lim f e Ef). split; [|reflexivity].
          intros [H | [[H _] | [f' [g' [a [b [Hs [Ha _]]]]]]]]; try discriminate.
          congruence. }
        destruct (int lim g) as [e | y] eqn:Eg.
        { right. rewrite (int_raises_ValueError lim g e Eg). split; [|reflexivity].
          intros [H | [[H _] | [f' [g' [a [b [Hs [_ Hb]]]]]]]]; try discriminate.
          congruence. }
        left. split.
        { right. right. exists f, g, x, y. auto. }
        destruct (y <? x) eqn:Exy.
        -- apply Z.ltb_lt in Exy. eexists. split; [reflexivity|]. split.
           ++ apply set_update_ascending.
           ++ intros p. rewrite set_update_In, range2_In. split.
              ** intros [H | H]; [|left; exact H]. right. right.
                 exists f, g, x, y. repeat split; try reflexivity; try assumption; lia.
              ** intros [H | [[H _] | [f' [g' [a [b [Hs [Ha [Hb Hr]]]]]]]]];
                   [right; exact H | discriminate |].
                 left. injection Hs as <- <-. rewrite Ef in Ha. rewrite Eg in Hb.
                 injection Ha as <-. injection Hb as <-. lia.
        -- apply Z.ltb_ge in Exy. eexists. split; [reflexivity|]. split.
           ++ apply set_update_ascending.
           ++ intros p. rewrite set_update_In, range2_In. split.
              ** intros [H | H]; [|left; exact H]. right. right.
                 exists f, g, x, y. repeat split; try reflexivity; try assumption; lia.
              ** intros [H | [[H _] | [f' [g' [a [b [Hs [Ha [Hb Hr]]]]]]]]];
                   [right; exact H | discriminate |].
                 left. injection Hs as <- <-. rewrite Ef in Ha. rewrite Eg in Hb.
                 injection Ha as <-. injection Hb as <-. lia.
      * right. split; [|reflexivity].
        intros [H | [[H _] | [f' [g' [a [b [Hs _]]]]]]]; discriminate.
    + destruct (int lim (String c q)) as [e | p] eqn:Ei.
      * right. rewrite (int_raises_ValueError lim _ e Ei). split; [|reflexivity].
        intros [H | [[_ [p Hp]] | [f' [g' [a [b [Hs _]]]]]]]; try discriminate.
        rewrite (split_without_separator _ _ Ec) in Hs. discriminate.
      * left. split; [right; left; split; [reflexivity | exists p; reflexivity]|].
        eexists. split; [reflexivity|]. split; [apply set_add_ascending|].
        intros x. rewrite set_add_In. split.
        -- intros [-> | H]; [right; left; split; reflexivity | left; exact H].
        -- intros [H | [[_ H] | [f' [g' [a [b [Hs _]]]]]]].
           ++ right. exact H.
           ++ left. congruence.
           ++ rewrite (split_without_separator _ _ Ec) in Hs. discriminate.
Qed.

(** The loop over the parts. *)
Lemma parse_parts_cases (lim : Z) (parts : list string) : forall pages,
  (Forall (readable lim) parts /\
   exists pages', parse_parts lim pages parts = inr pages' /\
     (ascending pages -> ascending pages') /\
     (forall x, In x pages' <->
                In x pages \/ exists part, In part parts /\ names lim part x)) \/
  (Exists (fun part => ~ readable lim part) parts /\
   parse_parts lim pages parts = inl ValueError).
Proof.
  induction parts as [|part parts IH]; intros pages; simpl.
  - left. split; [constructor|]. exists pages. split; [reflexivity|].
    split; [auto|]. intros x. split; [auto|].
    intros [H | [part [[] _]]]. exact H.
  - destruct (parse_part_cases lim pages part)
      as [[Hr [pages1 [H1 [Ha1 Hin1]]]] | [Hr H1]].
    + rewrite H1. unfold and_then.
      destruct (IH pages1) as [[Hrs [pages2 [H2 [Ha2 Hin2]]]] | [Hrs H2]].
      * left. split; [constructor; assumption|]. exists pages2.
        split; [exact H2|]. split; [auto|].
        intros x. rewrite Hin2, Hin1. split.
        -- intros [[H | H] | [p [Hp Hn]]].
           ++ left. exact H.
           ++ right. exists part. auto.
           ++ right. exists p. auto.
        -- intros [H | [p [[<- | Hp] Hn]]].
           ++ left. left. exact H.
           ++ left. right. exact Hn.
           ++ right. exists p. auto.
      * right. split; [apply Exists_cons_tl; exact Hrs | exact H2].
    + right. rewrite H1. split; [apply Exists_cons_hd; exact Hr | reflexivity].
Qed.

(** A page of the document [d]. *)
Definition in_document (d : Fitz.Document) (p : Z) : bool :=
  (1 <=? p) && (p <=? Runs.count d).

Lemma valid_pages_filter (doc : option Fitz.Document) (l : list Z) : forall l',
  valid_pages doc l = inr l' ->
  l' = filter (fun p => (1 <=? p) &&
                        match page_count doc with
                        | inr n => p <=? n
                        | inl _ => false
                        end) l.
Proof.
  induction l as [|p l IH]; simpl; intros l' H.
  - injection H as <-. reflexivity.
  - unfold and_then in H.
    destruct (1 <=? p) eqn:E1; cbn [andb].
    + destruct (page_count doc) as [e | n] eqn:En; [discriminate|].
      destruct (valid_pages doc l) as [e | v]; [discriminate|].
      rewrite <- (IH v eq_refl). injection H as <-. reflexivity.
    + destruct (valid_pages doc l) as [e | v]; [discriminate|].
      rewrite <- (IH v eq_refl). injection H as <-. reflexivity.
Qed.

Lemma valid_pages_open (d : Fitz.Document) (l : list Z) :
  Fitz.is_closed d = false ->
  valid_pages (Some d) l = inr (filter (in_document d) l).
Proof.
  intros Hc.
  assert (Hn : page_count (Some d) = inr (Runs.count d)).
  { unfold page_count, Fitz.len. rewrite Hc. reflexivity. }
  induction l as [|p l IH]; cbn [valid_pages filter]; [reflexivity|].
  rewrite Hn, IH. unfold and_then, in_document.
  destruct (1 <=? p); reflexivity.
Qed.

Lemma valid_pages_sound (doc : option Fitz.Document) (l l' : list Z) :
  valid_pages doc l = inr l' ->
  (ascending l -> ascending l') /\
  (forall p, In p l' -> exists n, page_count doc = inr n /\ 1 <= p <= n).
Proof.
  intros H. rewrite (valid_pages_filter doc l l' H). split.
  - apply ascending_filter.
  - intros p Hp. apply filter_In in Hp. destruct Hp as [_ Hp].
    apply andb_prop in Hp. destruct Hp as [H1 H2].
    destruct (page_count doc) as [e | n]; [discriminate|].
    exists n. split; [reflexivity|]. apply Z.leb_le in H1. apply Z.leb_le in H2. lia.
Qed.


Lemma parse_page_ranges_text (lim : Z) (g : AdvancedPrintDialog) (text : string) :
  text <> EmptyString ->
  _parse_page_ranges lim g text =
    match parse_parts lim [] (split "," text) with
    | inl ValueError => inr None
    | inl e => inl e
    | inr pages =>
        match valid_pages (doc g) pages with
        | inl e => inl e
        | inr valid => inr (Some valid)
        end
    end.
Proof. destruct text; [congruence | reflexivity]. Qed.

Lemma ascending_nil : ascending [].
Proof. constructor. Qed.

(** A dialog on the sample viewer, with a range typed in. *)
Definition range_dialog (text : string) : AdvancedPrintDialog :=
  mkAdvancedPrintDialog (Samples.viewer Samples.a_pdf) (Some Samples.three_pages)
    0 "printer" 1 false false false true text true false false None true true.

(** X7. Whatever the text, the pages [_parse_page_ranges] returns are
    strictly ascending, so sorted and none of them twice, and each is
    a page of the document: between 1 and the page count. *)
Theorem parse_page_ranges_ascending_in_document
    (lim : Z) (g : AdvancedPrintDialog) (text : string) (l : list Z) :
  _parse_page_ranges lim g text = inr (Some l) ->
  StronglySorted Z.lt l /\
  (forall p, In p l -> exists n, page_count (doc g) = inr n /\ 1 <= p <= n).
Proof.
  destruct text as [|c t].
  - intros H. injection H as <-. split; [constructor | intros p []].
  - rewrite parse_page_ranges_text by discriminate.
    destruct (parse_parts_cases lim (split "," (String c t)) [])
      as [[_ [pages [Hp [Ha _]]]] | [_ Hp]]; rewrite Hp; [|discriminate].
    destruct (valid_pages (doc g) pages) as [e | valid] eqn:Ev; [discriminate|].
    intros H. injection H as <-.
    destruct (valid_pages_sound _ _ _ Ev) as [H1 H2].
    split; [apply H1, Ha, ascending_nil | exact H2].
Qed.

Lemma parse_page_ranges_ascending_in_document_witness :
  _parse_page_ranges 4300 (range_dialog "3, 7, 2-1, 3") "3, 7, 2-1, 3"
    = inr (Some [1; 2; 3]) /\
  StronglySorted Z.lt [1; 2; 3].
Proof.
  split; [reflexivity|].
  apply (parse_page_ranges_ascending_in_document 4300
           (range_dialog "3, 7, 2-1, 3") "3, 7, 2-1, 3" [1; 2; 3]).
  reflexivity.
Defined.

(** X8. On an open document, for a text that is not empty: if every
    part between commas is blank, a number, or two numbers around one
    hyphen, [_parse_page_ranges] returns exactly the pages of the
    document that some part names, the bounds of a range taken in
    either order; if one part is anything else, it returns [None],
    whatever the other parts are. *)
Theorem parse_page_ranges_reads_every_part
    (lim : Z) (g : AdvancedPrintDialog) (d : Fitz.Document) (text : string) :
  doc g = Some d -> Fitz.is_closed d = false -> text <> EmptyString ->
  (Forall (readable lim) (split "," text) /\
   exists l, _parse_page_ranges lim g text = inr (Some l) /\
     forall p, In p l <->
       (1 <= p <= Runs.count d /\
        exists part, In part (split "," text) /\ names lim part p)) \/
  (Exists (fun part => ~ readable lim part) (split "," text) /\
   _parse_page_ranges lim g text = inr None).
Proof.
  intros Hd Hc Ht. rewrite (parse_page_ranges_text lim g text Ht).
  destruct (parse_parts_cases lim (split "," text) [])
    as [[Hall [pages [Hp [_ Hin]]]] | [Hex Hp]]; rewrite Hp.
  - left. split; [exact Hall|]. rewrite Hd, (valid_pages_open d pages Hc).
    eexists. split; [reflexivity|]. intros p. rewrite filter_In, Hin.
    unfold in_document. rewrite andb_true_iff, Z.leb_le, Z.leb_le. split.
    + intros [[[] | H] Hr]. split; [lia | exact H].
    + intros [Hr H]. split; [right; exact H | lia].
  - right. split; [exact Hex | reflexivity].
Qed.

Lemma parse_page_ranges_reads_every_part_witness :
  _parse_page_ranges 4300 (range_dialog "1-2, 1-2-3") "1-2, 1-2-3" = inr None /\
  exists l, _parse_page_ranges 4300 (range_dialog "3-2") "3-2" = inr (Some l) /\
    (In 2 l <-> (1 <= 2 <= 3 /\
                 exists part, In part (split "," "3-2") /\ names 4300 part 2)).
Proof.
  split.
  - destruct (parse_page_ranges_reads_every_part 4300 (range_dialog "1-2, 1-2-3")
                Samples.three_pages "1-2, 1-2-3")
      as [[_ [l [H _]]] | [_ H]].
    + reflexivity.
    + reflexivity.
    + discriminate.
    + vm_compute in H. discriminate.
    + exact H.
  - destruct (parse_page_ranges_reads_every_part 4300 (range_dialog "3-2")
                Samples.three_pages "3-2")
      as [[_ [l [H Hin]]] | [_ H]].
    + reflexivity.
    + reflexivity.
    + discriminate.
    + exists l. split; [exact H | exact (Hin 2)].
    + vm_compute in H. discriminate.
Defined.

(** X9. The order of the parts does not matter: two texts joined by a
    comma give the same answer in either order, be it a list of pages
    or [None]. *)
Theorem parse_page_ranges_ignores_order
    (lim : Z) (g : AdvancedPrintDialog) (a b : string) :
  _parse_page_ranges lim g (a ++ String "," b)
  = _parse_page_ranges lim g (b ++ String "," a).
Proof.
  assert (Hne : forall x y : string, (x ++ String "," y)%string <> EmptyString).
  { intros [|c x] y; discriminate. }
  rewrite !parse_page_ranges_text by apply Hne.
  rewrite !split_app.
  destruct (parse_parts_cases lim (split "," a ++ split "," b) [])
    as [[Hall [pages [Hp [Ha Hin]]]] | [Hex Hp]];
  destruct (parse_parts_cases lim (split "," b ++ split "," a) [])
    as [[Hall' [pages' [Hp' [Ha' Hin']]]] | [Hex' Hp']];
  rewrite Hp, Hp'.
  - assert (E : pages = pages').
    { apply ascending_ext; [apply Ha, ascending_nil | apply Ha', ascending_nil|].
      intros x. rewrite Hin, Hin'. split.
      - intros [[] | [part [Hpart Hn]]]. right. exists part.
        split; [|exact Hn]. apply in_app_iff. apply in_app_iff in Hpart. tauto.
      - intros [[] | [part [Hpart Hn]]]. right. exists part.
        split; [|exact Hn]. apply in_app_iff. apply in_app_iff in Hpart. tauto. }
    rewrite E. reflexivity.
  - exfalso. apply Forall_app in Hall. apply Exists_app in Hex'.
    destruct Hall as [H1 H2]. rewrite Forall_forall in H1, H2.
    destruct Hex' as [H | H]; apply Exists_exists in H;
      destruct H as [part [Hpart Hn]]; apply Hn; auto.
  - exfalso. apply Forall_app in Hall'. apply Exists_app in Hex.
    destruct Hall' as [H1 H2]. rewrite Forall_forall in H1, H2.
    destruct Hex as [H | H]; apply Exists_exists in H;
      destruct H as [part [Hpart Hn]]; apply Hn; auto.
  - reflexivity.
Qed.


(** The pages of a list drawn one after the other, with one new page
    between two of them. *)
Fixpoint between_pages (l : list Z) : list PrinterOp :=
  match l with
  | [] => []
  | p :: rest =>
      Draw_page (p - 1)
        :: match rest with
           | [] => []
           | _ :: _ => New_page :: between_pages rest
           end
  end.

Lemma print_loop_between (d : Fitz.Document) (final_page : Z) (l : list Z) :
  Fitz.is_closed d = false -> NoDup l ->
  (forall p, In p l -> 1 <= p <= Runs.count d) ->
  (l <> [] -> final_page = last l 0) ->
  print_loop (Some d) final_page l = (between_pages l, None).
Proof.
  intros Hc. induction l as [|p rest IH]; intros Hnd Hall Hfin.
  - reflexivity.
  - cbn [print_loop between_pages].
    destruct (Runs.load_page_in_range d (p - 1) Hc) as [page Hpage].
    { specialize (Hall p (or_introl eq_refl)). lia. }
    unfold load_page at 1. rewrite Hpage.
    apply NoDup_cons_iff in Hnd. destruct Hnd as [Hp Hrest].
    destruct rest as [|q rest'].
    + cbn [print_loop]. rewrite (Hfin ltac:(discriminate)). simpl last.
      rewrite Z.eqb_refl. reflexivity.
    + rewrite IH.
      * assert (E : (p =? final_page) = false).
        { apply Z.eqb_neq. intros Heq. apply Hp.
          rewrite Heq, (Hfin ltac:(discriminate)).
          change (last (p :: q :: rest') 0) with (last (q :: rest') 0).
          destruct (exists_last (l := q :: rest') ltac:(discriminate)) as [l0 [z Hz]].
          rewrite Hz, last_last. apply in_app_iff. right. left. reflexivity. }
        rewrite E. reflexivity.
      * exact Hrest.
      * intros x Hx. apply Hall. right. exact Hx.
      * intros _. rewrite (Hfin ltac:(discriminate)). reflexivity.
Qed.

Lemma print_pages_between (d : Fitz.Document) (l : list Z) :
  Fitz.is_closed d = false -> NoDup l ->
  (forall p, In p l -> 1 <= p <= Runs.count d) ->
  print_pages (Some d) l = (between_pages l, None).
Proof.
  intros Hc Hnd Hall. apply print_loop_between; auto.
Qed.

(** X10. The page loop of [_print_pdf], on an open document and a
    list of pages of this document without repetition: it raises
    nothing, draws the pages in the order of the list, and asks for a
    new page exactly between two pages, not after the last. *)
Theorem print_loop_separates_the_pages (d : Fitz.Document) (l : list Z) :
  Fitz.is_closed d = false -> NoDup l ->
  (forall p, In p l -> 1 <= p <= Runs.count d) ->
  print_pages (Some d) l = (between_pages l, None).
Proof. apply print_pages_between. Qed.

Lemma print_loop_separates_the_pages_witness :
  print_pages (Some Samples.three_pages) [3; 1]
  = ([Draw_page 2; New_page; Draw_page 0], None).
Proof.
  apply (print_loop_separates_the_pages Samples.three_pages [3; 1]).
  - reflexivity.
  - repeat constructor; simpl; intuition discriminate.
  - intros p [<- | [<- | []]]; unfold Runs.count; simpl; lia.
Defined.

Lemma range2_first (a b : Z) : a < b -> exists rest, range2 a b = a :: rest.
Proof.
  intros H. unfold range2, Viewer.range.
  destruct (Z.to_nat (b - a)) as [|n] eqn:E; [lia|].
  simpl. rewrite Z.add_0_r. eexists. reflexivity.
Qed.

Lemma parse_page_ranges_open (lim : Z) (g : AdvancedPrintDialog)
    (d : Fitz.Document) (text : string) :
  doc g = Some d -> Fitz.is_closed d = false ->
  exists r, _parse_page_ranges lim g text = inr r /\
    forall l, r = Some l ->
      ascending l /\ forall p, In p l -> 1 <= p <= Runs.count d.
Proof.
  intros Hd Hc. destruct text as [|c t].
  - eexists. split; [reflexivity|]. intros l H. injection H as <-.
    split; [apply ascending_nil | intros p []].
  - rewrite parse_page_ranges_text by discriminate.
    destruct (parse_parts_cases lim (split "," (String c t)) [])
      as [[_ [pages [Hp [Ha _]]]] | [_ Hp]]; rewrite Hp.
    + rewrite Hd, (valid_pages_open d pages Hc). eexists. split; [reflexivity|].
      intros l H. injection H as <-. split.
      * apply ascending_filter, Ha, ascending_nil.
      * intros p Hp'. apply filter_In in Hp'. destruct Hp' as [_ Hp'].
        unfold in_document in Hp'. apply andb_prop in Hp'.
        destruct Hp' as [H1 H2]. apply Z.leb_le in H1. apply Z.leb_le in H2. lia.
    + eexists. split; [reflexivity|]. discriminate.
Qed.

(** X11. A dialog on an open document whose viewer shows one of its
    pages: [get_print_settings] raises nothing.  The choices "all"
    and "current page" always give settings, with all pages and with
    the page shown.  Whatever the choice, the pages of the settings
    are not empty, strictly ascending and pages of the document, and
    the page loop of [_print_pdf] prints them without raising, with a
    new page between two of them. *)
Theorem print_settings_name_printable_pages
    (lim : Z) (g : AdvancedPrintDialog) (d : Fitz.Document) :
  doc g = Some d -> Fitz.is_closed d = false ->
  0 <= Viewer.current_page_index (viewer g) < Runs.count d ->
  exists r, get_print_settings lim g = inr r /\
    (r = None -> radio_all g = false /\ radio_current g = false) /\
    forall settings, r = Some settings ->
      page_list settings <> [] /\
      StronglySorted Z.lt (page_list settings) /\
      (forall p, In p (page_list settings) -> 1 <= p <= Runs.count d) /\
      (radio_all g = true ->
         page_list settings = range2 1 (Runs.count d + 1)) /\
      (radio_all g = false -> radio_current g = true ->
         page_list settings = [Viewer.current_page_index (viewer g) + 1]) /\
      print_pages (doc g) (page_list settings)
      = (between_pages (page_list settings), None).
Proof.
  intros Hd Hc Hcur. unfold get_print_settings.
  assert (Hn : page_count (doc g) = inr (Runs.count d)).
  { rewrite Hd. unfold page_count, Fitz.len. rewrite Hc. reflexivity. }
  match goal with |- context [and_then _ ?k] => set (finish := k) end.
  assert (Hfinish : forall l, ascending l ->
            (forall p, In p l -> 1 <= p <= Runs.count d) ->
            exists r, finish (Some l) = inr r /\
              (l = [] -> r = None) /\
              (l <> [] -> exists settings, r = Some settings /\
                                           page_list settings = l)).
  { intros l Ha Hall. subst finish. cbv beta.
    destruct l as [|first rest].
    - eexists. split; [reflexivity|]. split; [reflexivity | congruence].
    - destruct (Runs.load_page_in_range d (first - 1) Hc) as [page Hpage].
      { specialize (Hall first (or_introl eq_refl)). lia. }
      unfold load_page. rewrite Hd, Hpage. unfold and_then.
      destruct (orient_landscape g); [|destruct (orient_auto g)];
        (eexists; split; [reflexivity|]; split; [discriminate|];
         intros _; eexists; split; reflexivity). }
  assert (Hdone : forall l, ascending l ->
            (forall p, In p l -> 1 <= p <= Runs.count d) ->
            exists r, finish (Some l) = inr r /\
              (l <> [] -> r <> None) /\
              forall settings, r = Some settings ->
                page_list settings = l /\ l <> [] /\
                StronglySorted Z.lt l /\
                (forall p, In p l -> 1 <= p <= Runs.count d) /\
                print_pages (doc g) l = (between_pages l, None)).
  { intros l Ha Hall. destruct (Hfinish l Ha Hall) as [r [Hr [Hnil Hcons]]].
    exists r. split; [exact Hr|]. split.
    - intros Hne. destruct (Hcons Hne) as [settings [-> _]]. discriminate.
    - intros settings ->. destruct l as [|first rest].
      + specialize (Hnil eq_refl). discriminate.
      + destruct (Hcons ltac:(discriminate)) as [settings' [E Hl]].
        injection E as <-. split; [exact Hl|]. split; [discriminate|].
        split; [exact Ha|]. split; [exact Hall|].
        rewrite Hd. apply print_pages_between;
          [exact Hc | apply ascending_NoDup; exact Ha | exact Hall]. }
  destruct (radio_all g) eqn:Eall.
  - rewrite Hn. unfold and_then at 1. unfold and_then at 1.
    destruct (range2_first 1 (Runs.count d + 1)) as [rest Hrange]; [lia|].
    destruct (Hdone (range2 1 (Runs.count d + 1))) as [r [Hr [Hsome Hset]]].
    { apply range2_ascending. }
    { intros p Hp. apply range2_In in Hp. lia. }
    exists r. split; [exact Hr|]. split.
    + intros ->. exfalso. apply Hsome; [rewrite Hrange; discriminate | reflexivity].
    + intros settings E. destruct (Hset settings E) as [Hl [Hne [Ha [Hall Hprint]]]].
      rewrite Hl. repeat split; auto; try discriminate; apply Hall; assumption.
  - destruct (radio_current g) eqn:Ecur.
    + unfold and_then at 1.
      destruct (Hdone [Viewer.current_page_index (viewer g) + 1])
        as [r [Hr [Hsome Hset]]].
      { repeat constructor. }
      { intros p [<- | []]. lia. }
      exists r. split; [exact Hr|]. split.
      * intros ->. exfalso. apply Hsome; [discriminate | reflexivity].
      * intros settings E. destruct (Hset settings E) as [Hl [Hne [Ha [Hall Hprint]]]].
        rewrite Hl. repeat split; auto; try discriminate; apply Hall; assumption.
    + destruct (radio_range g).
      * destruct (parse_page_ranges_open lim g d (range_input g) Hd Hc)
          as [sel [Hsel Hl]].
        rewrite Hsel. unfold and_then at 1. destruct sel as [l|].
        -- destruct (Hl l eq_refl) as [Ha Hall].
           destruct (Hdone l Ha Hall) as [r [Hr [Hsome Hset]]].
           exists r. split; [exact Hr|]. split; [auto|].
           intros settings E.
           destruct (Hset settings E) as [Hpl [Hne [Ha' [Hall' Hprint]]]].
           rewrite Hpl. repeat split; auto; try discriminate; apply Hall; assumption.
        -- subst finish. cbv beta. eexists. split; [reflexivity|].
           split; [auto | discriminate].
      * unfold and_then at 1. subst finish. cbv beta. eexists.
        split; [reflexivity|]. split; [auto | discriminate].
Qed.

Lemma print_settings_name_printable_pages_witness :
  exists settings,
    get_print_settings 4300 (range_dialog "3, 1-2, 9") = inr (Some settings) /\
    page_list settings = [1; 2; 3] /\
    print_pages (Some Samples.three_pages) (page_list settings)
    = (between_pages (page_list settings), None).
Proof.
  destruct (print_settings_name_printable_pages 4300 (range_dialog "3, 1-2, 9")
              Samples.three_pages) as [r [Hr [_ H]]].
  - reflexivity.
  - reflexivity.
  - unfold Runs.count. simpl. lia.
  - vm_compute in Hr. injection Hr as <-. eexists. split; [reflexivity|].
    split; [reflexivity|].
    match goal with
    | |- print_pages _ (page_list ?s) = _ =>
        destruct (H s eq_refl) as [_ [_ [_ [_ [_ Hp]]]]]; exact Hp
    end.
Defined.


(** The two buttons under the preview. *)
Inductive Click : Set := Prev | Next.

Definition click (c : Click) (g : AdvancedPrintDialog)
  : AdvancedPrintDialog * option exn :=
  match c with
  | Prev => show_prev_preview g
  | Next => show_next_preview g
  end.

(** The dialog after a list of clicks. *)
Definition clicks (cs : list Click) (g : AdvancedPrintDialog) : AdvancedPrintDialog :=
  fold_left (fun g c => fst (click c g)) cs g.

(** The preview shows the page of the preview index, a page of the
    open document [d], and the two buttons are enabled as there is a
    page before and after it. *)
Definition preview_ok (d : Fitz.Document) (g : AdvancedPrintDialog) : Prop :=
  doc g = Some d /\ Fitz.is_closed d = false /\
  0 <= preview_page_index g < Runs.count d /\
  (exists turn, preview g = Some (preview_page_index g, turn)) /\
  prev_preview_btn g = (0 <? preview_page_index g) /\
  next_preview_btn g = (preview_page_index g <? Runs.count d - 1).

Lemma update_preview_ok (d : Fitz.Document) (g : AdvancedPrintDialog) :
  doc g = Some d -> Fitz.is_closed d = false ->
  0 <= preview_page_index g < Runs.count d ->
  snd (_update_preview g) = None /\
  preview_ok d (fst (_update_preview g)) /\
  preview_page_index (fst (_update_preview g)) = preview_page_index g.
Proof.
  intros Hd Hc Hi. unfold _update_preview.
  destruct (Runs.load_page_in_range d (preview_page_index g) Hc Hi) as [page Hpage].
  cbn [doc set_preview preview_page_index]. unfold load_page, page_count.
  rewrite Hd, Hpage. unfold Fitz.len. rewrite Hc.
  cbn [fst snd]. split; [reflexivity|]. split; [|reflexivity].
  unfold preview_ok. cbn. rewrite Hd. repeat split; try assumption; try lia.
  eexists. reflexivity.
Qed.

Lemma click_ok (d : Fitz.Document) (c : Click) (g : AdvancedPrintDialog) :
  preview_ok d g ->
  snd (click c g) = None /\ preview_ok d (fst (click c g)) /\
  preview_page_index (fst (click c g))
  = match c with
    | Prev => Z.max 0 (preview_page_index g - 1)
    | Next => Z.min (Runs.count d - 1) (preview_page_index g + 1)
    end.
Proof.
  intros Hok. pose proof Hok as [Hd [Hc [Hi _]]].
  destruct c; unfold click.
  - unfold show_prev_preview. destruct (0 <? preview_page_index g) eqn:E.
    + apply Z.ltb_lt in E.
      destruct (update_preview_ok d
                  (set_preview_page_index (preview_page_index g - 1) g))
        as [H1 [H2 H3]]; try assumption.
      { cbn. lia. }
      split; [exact H1|]. split; [exact H2|]. rewrite H3. cbn. lia.
    + apply Z.ltb_ge in E. cbn [fst snd].
      split; [reflexivity|]. split; [exact Hok | lia].
  - unfold show_next_preview, page_count. rewrite Hd. unfold Fitz.len. rewrite Hc.
    fold (Runs.count d).
    destruct (preview_page_index g <? Runs.count d - 1) eqn:E.
    + apply Z.ltb_lt in E.
      destruct (update_preview_ok d
                  (set_preview_page_index (preview_page_index g + 1) g))
        as [H1 [H2 H3]]; try assumption.
      { cbn. lia. }
      split; [exact H1|]. split; [exact H2|]. rewrite H3. cbn. lia.
    + apply Z.ltb_ge in E. cbn [fst snd].
      split; [reflexivity|]. split; [exact Hok | lia].
Qed.

Lemma clicks_ok (d : Fitz.Document) (cs : list Click) : forall g,
  preview_ok d g -> preview_ok d (clicks cs g).
Proof.
  induction cs as [|c cs IH]; intros g H; simpl.
  - exact H.
  - apply IH. apply (click_ok d c g H).
Qed.

(** X12. The preview of the print dialog, opened on a viewer that
    shows a page of its open document.  The dialog is built and first
    shown without raising; after any clicks on the two buttons the
    preview index is a page of the document, the preview shows that
    page, and each button is enabled exactly when there is a page on
    its side.  A further click raises nothing and moves the preview
    by one page, stopping at the first and at the last page. *)
Theorem preview_stays_in_document
    (v : Viewer.PDFViewer) (d : Fitz.Document) (printer : string)
    (cs : list Click) (c : Click) :
  Runs.has_open d v -> 0 <= Viewer.current_page_index v < Runs.count d ->
  exists g0, __init__ v printer = inr g0 /\
    snd (_update_preview g0) = None /\
    let g := clicks cs (fst (_update_preview g0)) in
    0 <= preview_page_index g < Runs.count d /\
    (exists turn, preview g = Some (preview_page_index g, turn)) /\
    prev_preview_btn g = (0 <? preview_page_index g) /\
    next_preview_btn g = (preview_page_index g <? Runs.count d - 1) /\
    snd (click c g) = None /\
    preview_page_index (fst (click c g))
    = match c with
      | Prev => Z.max 0 (preview_page_index g - 1)
      | Next => Z.min (Runs.count d - 1) (preview_page_index g + 1)
      end.
Proof.
  intros [Hd Hc] Hi. unfold __init__, page_count. rewrite Hd. unfold Fitz.len.
  rewrite Hc. cbn [and_then]. eexists. split; [reflexivity|].
  match goal with |- snd (_update_preview ?g0) = None /\ _ =>
    destruct (update_preview_ok d g0 eq_refl Hc Hi) as [H1 [H2 _]] end.
  split; [exact H1|].
  match goal with |- context [clicks cs ?g1] => set (g := clicks cs g1) in * end.
  pose proof (clicks_ok d cs _ H2) as Hok. fold g in Hok.
  destruct (click_ok d c g Hok) as [H3 [_ H4]].
  destruct Hok as [_ [_ [Hr [Hp [Hb1 Hb2]]]]].
  repeat split; try assumption; try lia.
Qed.

Lemma preview_stays_in_document_witness :
  exists g0, __init__ (Samples.viewer Samples.a_pdf) "printer" = inr g0 /\
    let g := clicks [Next; Next; Next; Prev] (fst (_update_preview g0)) in
    preview_page_index g = 1 /\ prev_preview_btn g = true /\
    next_preview_btn g = true.
Proof.
  destruct (preview_stays_in_document (Samples.viewer Samples.a_pdf)
              Samples.three_pages "printer" [Next; Next; Next; Prev] Next)
    as [g0 [H0 [_ H]]].
  - split; reflexivity.
  - unfold Runs.count. simpl. lia.
  - exists g0. split; [exact H0|]. vm_compute in H0. injection H0 as <-.
    cbv zeta in H. destruct H as [_ [_ [H1 [H2 _]]]].
    split; [reflexivity|]. split; [rewrite H1 | rewrite H2]; reflexivity.
Defined.

End PrintProps.

(* ------------------------------------------------------------------ *)
(** ** Turning pages *)

Module PageTurnProps.

Import Viewer Frame Runs Keeps Window Pages GraphicsView InvariantProps.
Local Open Scope Z_scope.

(** [display_page] on a page of the open document other than the one
    shown. *)
Lemma display_other_page (d : Fitz.Document) (s : PDFViewer) (p : Z) :
  has_open d s -> 0 <= p < count d -> p <> current_page_index s ->
  exists s', display_page p s = Ok tt s' /\
    current_page_index s' = p /\
    doc s' = doc s /\
    current_zoom_factor s' = current_zoom_factor s /\
    rotation s' = rotation s /\
    scroll_to_bottom_on_load s' = scroll_to_bottom_on_load s /\
    PageProps.page_changes s' = S (PageProps.page_changes s).
Proof.
  intros Ho Hp Hne.
  destruct (display_page_returns d s p Ho Hne) as [[] [s' Hs']].
  exists s'. split; [exact Hs'|].
  rewrite (display_page_open d s p Ho) in Hs'.
  assert (E1 : (0 <=? p) && (p <? count d) = true).
  { apply andb_true_intro. split; [apply Z.leb_le | apply Z.ltb_lt]; lia. }
  assert (E2 : (current_page_index s =? p) = false) by (apply Z.eqb_neq; congruence).
  rewrite E1, E2 in Hs'.
  set (s1 := set_current_page_index p s) in Hs'.
  assert (Hf : forall B (f : PDFViewer -> B),
             preserves f (_request_render true ;; emit page_changed) ->
             f s' = f s1).
  { intros B f Hpres. exact (after _ _ f _ s1 tt s' Hpres Hs'). }
  split; [apply (Hf _ current_page_index); frame|].
  split; [apply (Hf _ doc); frame|].
  split; [apply (Hf _ current_zoom_factor); frame|].
  split; [apply (Hf _ rotation); frame|].
  split; [apply (Hf _ scroll_to_bottom_on_load); frame|].
  unfold bind in Hs'.
  pose proof (PageProps.request_render_emits_no_page_change true s1) as Hc.
  destruct (_request_render true s1) as [[] s2|e s2|s2]; try discriminate.
  simpl in Hc. injection Hs' as <-.
  unfold PageProps.page_changes in *. simpl. rewrite filter_app, length_app.
  simpl. change (trace s1) with (trace s) in Hc. lia.
Qed.

(** [next_page] on a viewer that shows a page of its open document. *)
Lemma next_page_moves (d : Fitz.Document) (s : PDFViewer) :
  page_ok d s ->
  exists s', next_page s = Ok tt s' /\ page_ok d s' /\
    current_page_index s' = Z.min (count d - 1) (current_page_index s + 1) /\
    current_zoom_factor s' = current_zoom_factor s /\
    rotation s' = rotation s /\
    (count d - 1 <= current_page_index s -> s' = s).
Proof.
  intros [Ho Hr]. unfold next_page. rewrite bind_gets.
  rewrite (bind_ok _ _ _ _ _ _ _ (page_count_open d s Ho)).
  destruct (current_page_index s <? count d - 1) eqn:E.
  - apply Z.ltb_lt in E. rewrite bind_gets.
    destruct (display_other_page d s (current_page_index s + 1) Ho)
      as [s' [H1 [H2 [H3 [H4 [H5 _]]]]]]; [lia | lia |].
    exists s'. split; [exact H1|]. split.
    + split; [destruct Ho as [Hd Hc]; split; [congruence | exact Hc] | lia].
    + split; [lia|]. split; [exact H4|]. split; [exact H5 | lia].
  - apply Z.ltb_ge in E. exists s. split; [reflexivity|].
    split; [split; assumption|]. split; [lia|]. auto.
Qed.

(** [prev_page] on such a viewer. *)
Lemma prev_page_moves (d : Fitz.Document) (s : PDFViewer) :
  page_ok d s ->
  exists s', prev_page s = Ok tt s' /\ page_ok d s' /\
    current_page_index s' = Z.max 0 (current_page_index s - 1) /\
    current_zoom_factor s' = current_zoom_factor s /\
    rotation s' = rotation s /\
    (0 < current_page_index s -> scroll_to_bottom_on_load s' = true) /\
    (current_page_index s <= 0 -> s' = s).
Proof.
  intros [Ho Hr]. unfold prev_page. rewrite bind_gets.
  destruct (0 <? current_page_index s) eqn:E.
  - apply Z.ltb_lt in E. rewrite bind_modify, bind_gets.
    set (s0 := set_scroll_to_bottom_on_load true s).
    change (current_page_index s0) with (current_page_index s).
    assert (Ho0 : has_open d s0) by exact Ho.
    destruct (display_other_page d s0 (current_page_index s - 1) Ho0)
      as [s' [H1 [H2 [H3 [H4 [H5 [H6 _]]]]]]]; [lia | simpl; lia |].
    exists s'. split; [exact H1|]. split.
    + split; [destruct Ho as [Hd Hc]; split; [rewrite H3; exact Hd | exact Hc] | lia].
    + split; [lia|]. split; [exact H4|]. split; [exact H5|].
      split; [intros _; exact H6 | lia].
  - apply Z.ltb_ge in E. exists s. split; [reflexivity|].
    split; [split; assumption|]. split; [lia|]. split; [reflexivity|].
    split; [reflexivity|]. split; [lia | auto].
Qed.

Lemma bind_page_count_ext B (k1 k2 : Z -> M B) (s : PDFViewer) :
  (forall n, k1 n s = k2 n s) -> bind page_count k1 s = bind page_count k2 s.
Proof.
  intros H. unfold bind. pose proof (PageProps.page_count_pure s) as Hn.
  destruct (page_count s) as [n s1|e s1|s1]; simpl in Hn; subst s1;
    try reflexivity.
  apply H.
Qed.

(** [_handle_page_scroll], by the sign of the direction. *)
Lemma handle_page_scroll_eq (direction : Z) (s : PDFViewer) :
  _handle_page_scroll direction s =
    if 0 <? direction then next_page s
    else if direction <? 0 then prev_page s
    else Ok tt s.
Proof.
  unfold _handle_page_scroll, next_page, prev_page. rewrite !bind_gets.
  destruct (0 <? direction).
  - apply bind_page_count_ext. intros n.
    destruct (current_page_index s <? n - 1); reflexivity.
  - destruct (direction <? 0); cbn [andb]; [|reflexivity].
    destruct (0 <? current_page_index s); reflexivity.
Qed.

(** X13. The wheel at the end of a page and the page buttons of the
    window run the same code: [_handle_page_scroll] with a positive
    direction is the body of [_go_to_next_page], with a negative
    direction the body of [_go_to_prev_page], and with direction 0 it
    does nothing; this holds in every viewer. *)
Theorem page_scroll_is_page_button (direction : Z) (s : PDFViewer) :
  _handle_page_scroll direction s =
    if 0 <? direction then next_page s
    else if direction <? 0 then prev_page s
    else Ok tt s.
Proof. apply handle_page_scroll_eq. Qed.


(** The page the window shows: the page index of the current viewer. *)
Definition shown_page (w : MainWindow) : option Z :=
  option_map current_page_index (_get_current_viewer w).

(** A window with the sample viewer, showing page [p], as its one tab. *)
Definition window_on_page (p : Z) : MainWindow :=
  mkMainWindow [set_current_page_index p (Samples.viewer Samples.a_pdf)] 0 [].

(** X14. The page buttons of the window, when the current viewer
    shows a page of its open document: "next" shows the following
    page and "previous" the preceding one, each stopping at the end of
    the document, where the window stays as it is; one after the other
    they lead back to the page shown before. *)
Theorem page_buttons_step_through_the_document
    (d : Fitz.Document) (w : MainWindow) (v : PDFViewer) :
  _get_current_viewer w = Some v -> page_ok d v ->
  let cur := current_page_index v in
  shown_page (_go_to_next_page w) = Some (Z.min (count d - 1) (cur + 1)) /\
  shown_page (_go_to_prev_page w) = Some (Z.max 0 (cur - 1)) /\
  (cur = count d - 1 -> _go_to_next_page w = w) /\
  (cur = 0 -> _go_to_prev_page w = w) /\
  (cur < count d - 1 ->
     shown_page (_go_to_prev_page (_go_to_next_page w)) = Some cur) /\
  (0 < cur ->
     shown_page (_go_to_next_page (_go_to_prev_page w)) = Some cur).
Proof.
  intros Hv Hok cur.
  destruct (next_page_moves d v Hok) as [vn [Hn [Hokn [Hpn [_ [_ Hsn]]]]]].
  destruct (prev_page_moves d v Hok) as [vp [Hp [Hokp [Hpp [_ [_ [_ Hsp]]]]]]].
  assert (Hcn : _get_current_viewer (_go_to_next_page w) = Some vn).
  { unfold _go_to_next_page. rewrite (NavigationProps.current_after _ w v Hv), Hn.
    reflexivity. }
  assert (Hcp : _get_current_viewer (_go_to_prev_page w) = Some vp).
  { unfold _go_to_prev_page. rewrite (NavigationProps.current_after _ w v Hv), Hp.
    reflexivity. }
  split; [unfold shown_page; rewrite Hcn; simpl; f_equal; exact Hpn|].
  split; [unfold shown_page; rewrite Hcp; simpl; f_equal; exact Hpp|].
  split.
  { intros E. apply (NavigationProps.unchanged_after _ w v Hv).
    rewrite Hn. simpl. apply Hsn. fold cur. lia. }
  split.
  { intros E. apply (NavigationProps.unchanged_after _ w v Hv).
    rewrite Hp. simpl. apply Hsp. fold cur. lia. }
  split.
  - intros Hlt.
    destruct (prev_page_moves d vn Hokn) as [v2 [H2 [_ [Hp2 _]]]].
    unfold shown_page, _go_to_prev_page.
    rewrite (NavigationProps.current_after _ _ vn Hcn), H2. simpl. f_equal.
    rewrite Hp2, Hpn. fold cur. destruct Hok as [_ Hr]. fold cur in Hr. lia.
  - intros Hgt.
    destruct (next_page_moves d vp Hokp) as [v2 [H2 [_ [Hp2 _]]]].
    unfold shown_page, _go_to_next_page.
    rewrite (NavigationProps.current_after _ _ vp Hcp), H2. simpl. f_equal.
    rewrite Hp2, Hpp. fold cur. destruct Hok as [_ Hr]. fold cur in Hr. lia.
Qed.

Lemma page_buttons_step_through_the_document_witness :
  shown_page (_go_to_next_page (window_on_page 1)) = Some 2 /\
  _go_to_next_page (window_on_page 2) = window_on_page 2 /\
  shown_page (_go_to_prev_page (_go_to_next_page (window_on_page 1))) = Some 1.
Proof.
  destruct (page_buttons_step_through_the_document Samples.three_pages
              (window_on_page 1) _ eq_refl) as [H1 [_ [_ [_ [H2 _]]]]].
  { split; [split; reflexivity | unfold count; simpl; lia]. }
  destruct (page_buttons_step_through_the_document Samples.three_pages
              (window_on_page 2) _ eq_refl) as [_ [_ [H3 _]]].
  { split; [split; reflexivity | unfold count; simpl; lia]. }
  split; [exact H1|]. split; [apply H3; reflexivity | apply H2].
  unfold count. simpl. lia.
Defined.

(** X15. A wheel event on a viewer that shows a page of its open
    document returns and keeps the rotation.  With Control held it
    keeps the page and asks for the zoom factor times 1.15 when the
    wheel angle is positive and divided by 1.15 otherwise, also for
    an angle of zero.  Without Control it keeps the zoom factor, and
    it turns the page only from an end of the scroll bar: back by one
    page at the top, forward by one at the bottom, never past the
    first or the last page. *)
Theorem wheel_turns_the_page_only_at_an_end
    (d : Fitz.Document) (s : PDFViewer) (event : QWheelEvent) (v_bar : QScrollBar) :
  page_ok d s ->
  let cur := current_page_index s in
  let delta := angle_delta_y event in
  exists s', wheel event v_bar s = Ok tt s' /\
    rotation s' = rotation s /\
    if control_modifier event then
      current_page_index s' = cur /\
      wheel event v_bar s =
        set_zoom_factor
          (current_zoom_factor s *
           (if 0 <? delta then 115 # 100 else 1 / (115 # 100)))%Q s
    else
      current_zoom_factor s' = current_zoom_factor s /\
      current_page_index s' =
        if (0 <? delta) && (value v_bar =? minimum v_bar) then Z.max 0 (cur - 1)
        else if (delta <? 0) && (value v_bar =? maximum v_bar)
             then Z.min (count d - 1) (cur + 1)
             else cur.
Proof.
  intros Hok cur delta. unfold wheel, wheelEvent. fold delta.
  destruct (control_modifier event).
  - cbn [deliver]. unfold _handle_wheel_zoom. rewrite bind_gets.
    destruct (set_zoom_factor_returns
                (current_zoom_factor s *
                 (if 0 <? delta then 115 # 100 else 1 / (115 # 100)))%Q s)
      as [[] [s' Hs']].
    exists s'. split; [exact Hs'|].
    assert (Hf : forall B (f : PDFViewer -> B) x,
               preserves f (set_zoom_factor x) -> set_zoom_factor x s = Ok tt s' ->
               f s' = f s).
    { intros B f x Hpres H. exact (after _ _ f _ s tt s' Hpres H). }
    split; [apply (Hf _ rotation _ ltac:(frame) Hs')|].
    split; [apply (Hf _ current_page_index _ ltac:(frame) Hs') | reflexivity].
  - destruct ((0 <? delta) && (value v_bar =? minimum v_bar)) eqn:Eup.
    + cbn [deliver]. rewrite handle_page_scroll_eq.
      change (0 <? -1) with false. change (-1 <? 0) with true. cbv iota.
      destruct (prev_page_moves d s Hok) as [s' [H1 [_ [H2 [H3 [H4 _]]]]]].
      exists s'. auto.
    + destruct ((delta <? 0) && (value v_bar =? maximum v_bar)) eqn:Edown.
      * cbn [deliver]. rewrite handle_page_scroll_eq.
        change (0 <? 1) with true. cbv iota.
        destruct (next_page_moves d s Hok) as [s' [H1 [_ [H2 [H3 [H4 _]]]]]].
        exists s'. auto.
      * exists s. cbn [deliver]. auto.
Qed.

Lemma wheel_turns_the_page_only_at_an_end_witness :
  let s := Samples.viewer Samples.a_pdf in
  (exists s', wheel (mkQWheelEvent false (-120)) (mkQScrollBar 40 0 40) s = Ok tt s' /\
     current_page_index s' = 1) /\
  (exists s', wheel (mkQWheelEvent false (-120)) (mkQScrollBar 10 0 40) s = Ok tt s' /\
     current_page_index s' = 0).
Proof.
  intros s. split.
  - destruct (wheel_turns_the_page_only_at_an_end Samples.three_pages s
                (mkQWheelEvent false (-120)) (mkQScrollBar 40 0 40))
      as [s' [H1 [_ [_ H2]]]].
    + split; [split; reflexivity | unfold count; simpl; lia].
    + exists s'. split; [exact H1 | exact H2].
  - destruct (wheel_turns_the_page_only_at_an_end Samples.three_pages s
                (mkQWheelEvent false (-120)) (mkQScrollBar 10 0 40))
      as [s' [H1 [_ [_ H2]]]].
    + split; [split; reflexivity | unfold count; simpl; lia].
    + exists s'. split; [exact H1 | exact H2].
Defined.





End PageTurnProps.

(* ------------------------------------------------------------------ *)
(** ** Fitting and rendering *)

Module FitProps.

Import Viewer Frame Runs Keeps RotationProps ZoomProps GeometryProps InvariantProps.
Local Open Scope Q_scope.

Lemma size_positive (q : Q) : Py.is_zero (Py.max 0 q) = false -> 0 < Py.max 0 q.
Proof.
  intros H. pose proof (max_ge_l 0 q) as Hge.
  destruct (Qlt_le_dec 0 (Py.max 0 q)) as [Hlt | Hle]; [exact Hlt|].
  assert (E : Py.max 0 q == 0) by lra.
  apply PyFacts.is_zero_iff in E. congruence.
Qed.

(** The smaller of the two quotients, times each divisor. *)
Lemma min_quotient_fits (W H pw ph : Q) :
  0 < pw -> 0 < ph ->
  let b := Py.min (W / pw) (H / ph) in
  b * pw <= W /\ b * ph <= H /\ (b * pw == W \/ b * ph == H).
Proof.
  intros Hpw Hph b.
  assert (Hx : W / pw * pw == W) by (field; lra).
  assert (Hy : H / ph * ph == H) by (field; lra).
  pose proof (min_le_l (W / pw) (H / ph)) as Hl.
  pose proof (min_le_r (W / pw) (H / ph)) as Hr.
  fold b in Hl, Hr.
  assert (H1 : b * pw <= W).
  { rewrite <- Hx. apply Qmult_le_compat_r; [exact Hl | lra]. }
  assert (H2 : b * ph <= H).
  { rewrite <- Hy. apply Qmult_le_compat_r; [exact Hr | lra]. }
  split; [exact H1|]. split; [exact H2|].
  destruct (RenderedProps.min_cases (W / pw) (H / ph)) as [E | E]; fold b in E.
  - left. rewrite E. exact Hx.
  - right. rewrite E. exact Hy.
Qed.

(** [_recalculate_base_scale_and_render] on a page that has a size. *)
Lemma recalculate_fits d s size page :
  has_open d s -> count d <> 0%Z ->
  viewport s = Some size ->
  Fitz.load_page d (current_page_index s) = inr page ->
  Fitz.is_empty (Fitz.rect page) = false ->
  right_angle (rotation s) ->
  exists m s',
    Fitz.prerotate (Fitz.Matrix_scale 1 1) (rotation s) = Some m /\
    _recalculate_base_scale_and_render s = Ok tt s' /\
    current_zoom_factor s' = current_zoom_factor s /\
    render_timer_active s' = true /\
    let page_rect := Fitz.transform (Fitz.rect page) m in
    base_scale s' * Fitz.width page_rect <= inject_Z (Qt.size_width size) /\
    base_scale s' * Fitz.height page_rect <= inject_Z (Qt.size_height size) /\
    (base_scale s' * Fitz.width page_rect == inject_Z (Qt.size_width size) \/
     base_scale s' * Fitz.height page_rect == inject_Z (Qt.size_height size)).
Proof.
  intros Ho Hcount Hvp Hpage Hne Hr.
  destruct (PageProps.recalculate_on_sized_page d s size page Ho Hcount Hvp Hpage Hne Hr)
    as [m [Hm Hrun]].
  destruct (rotated_page_has_size (Fitz.rect page) (rotation s) Hne Hr)
    as [m' [Hm' [Hw Hh]]].
  rewrite Hm in Hm'. injection Hm' as <-.
  exists m. eexists. split; [exact Hm|]. split; [exact Hrun|].
  split; [reflexivity|]. split; [reflexivity|].
  cbn [base_scale set_render_timer_active set_trace set_base_scale].
  apply min_quotient_fits; apply size_positive; assumption.
Qed.

(** X17. [fit_to_page] and [resizeEvent], on a page that has a size
    and under a rotation by a right angle, return with a base scale
    at which the rotated page fits the viewport: its scaled width and
    height do not exceed the viewport's, and one of the two equals
    it.  [fit_to_page] also leaves the zoom factor at 1.  Both arm
    the render timer. *)
Theorem fit_to_page_fits_the_viewport
    (d : Fitz.Document) (s : PDFViewer) (size new_size : Qt.QSize)
    (page : Fitz.Page) :
  has_open d s -> count d <> 0%Z ->
  viewport s = Some size ->
  Fitz.load_page d (current_page_index s) = inr page ->
  Fitz.is_empty (Fitz.rect page) = false ->
  right_angle (rotation s) ->
  exists m s1 s2,
    Fitz.prerotate (Fitz.Matrix_scale 1 1) (rotation s) = Some m /\
    fit_to_page s = Ok tt s1 /\ resizeEvent new_size s = Ok tt s2 /\
    current_zoom_factor s1 = 1 /\
    render_timer_active s1 = true /\ render_timer_active s2 = true /\
    let page_rect := Fitz.transform (Fitz.rect page) m in
    let fits (b : Q) (v : Qt.QSize) :=
      b * Fitz.width page_rect <= inject_Z (Qt.size_width v) /\
      b * Fitz.height page_rect <= inject_Z (Qt.size_height v) /\
      (b * Fitz.width page_rect == inject_Z (Qt.size_width v) \/
       b * Fitz.height page_rect == inject_Z (Qt.size_height v)) in
    fits (base_scale s1) size /\ fits (base_scale s2) new_size.
Proof.
  intros Ho Hcount Hvp Hpage Hne Hr.
  set (sa := set_trace (trace s ++ [Emit (zoom_changed 1)])
               (set_current_zoom_factor 1 s)).
  set (sb := set_viewport (Some new_size) s).
  destruct (recalculate_fits d sa size page Ho Hcount Hvp Hpage Hne Hr)
    as [m [s1 [Hm [H1 [Hz1 [Ht1 Hfit1]]]]]].
  destruct (recalculate_fits d sb new_size page Ho Hcount eq_refl Hpage Hne Hr)
    as [m' [s2 [Hm' [H2 [_ [Ht2 Hfit2]]]]]].
  change (rotation sa) with (rotation s) in Hm.
  change (rotation sb) with (rotation s) in Hm'.
  rewrite Hm in Hm'. injection Hm' as <-.
  exists m, s1, s2. split; [exact Hm|]. split; [exact H1|]. split; [exact H2|].
  split; [exact Hz1|]. split; [exact Ht1|]. split; [exact Ht2|].
  split; [exact Hfit1 | exact Hfit2].
Qed.

Lemma fit_to_page_fits_the_viewport_witness :
  let s := Samples.viewer Samples.a_pdf in
  exists s1, fit_to_page s = Ok tt s1 /\ current_zoom_factor s1 = 1 /\
    render_timer_active s1 = true.
Proof.
  intros s.
  destruct (fit_to_page_fits_the_viewport Samples.three_pages s Samples.geometry
              Samples.geometry (Samples.page_with_match Samples.r0))
    as [m [s1 [s2 [_ [H1 [_ [H2 [H3 _]]]]]]]].
  - split; reflexivity.
  - discriminate.
  - reflexivity.
  - reflexivity.
  - reflexivity.
  - left. reflexivity.
  - exists s1. split; [exact H1|]. split; [exact H2 | exact H3].
Defined.


(** [fit_to_width] on a page that has a size, at a base scale that is
    not zero: the zoom factor it asks for. *)
Lemma fit_to_width_request d s size page :
  has_open d s -> count d <> 0%Z ->
  viewport s = Some size ->
  Fitz.load_page d (current_page_index s) = inr page ->
  Fitz.is_empty (Fitz.rect page) = false ->
  right_angle (rotation s) ->
  ~ base_scale s == 0 ->
  exists m,
    Fitz.prerotate (Fitz.Matrix_scale 1 1) (rotation s) = Some m /\
    0 < Fitz.width (Fitz.transform (Fitz.rect page) m) /\
    fit_to_width s =
      set_zoom_factor
        (inject_Z (Qt.size_width size)
           / Fitz.width (Fitz.transform (Fitz.rect page) m) / base_scale s) s.
Proof.
  intros Ho Hcount Hvp Hpage Hne Hr Hb.
  destruct (rotated_page_has_size (Fitz.rect page) (rotation s) Hne Hr)
    as [m [Hm [Hw _]]].
  exists m. split; [exact Hm|]. split; [apply size_positive; exact Hw|].
  unfold fit_to_width.
  rewrite (bind_ok _ _ _ _ _ _ _ (doc_bool_open d s Ho)).
  apply Z.eqb_neq in Hcount. rewrite Hcount. cbn [negb]. cbv iota.
  rewrite bind_gets, Hvp, bind_gets.
  assert (Hload : doc_load_page (current_page_index s) s = Ok page s).
  { unfold doc_load_page, bind, gets. destruct Ho as [Hd Hc]. rewrite Hd, Hpage.
    reflexivity. }
  rewrite (bind_ok _ _ _ _ _ _ _ Hload).
  rewrite Hne, bind_gets, Hm, Hw.
  assert (Ebs : Py.is_zero (base_scale s) = false).
  { destruct (Py.is_zero (base_scale s)) eqn:E; [|reflexivity].
    apply PyFacts.is_zero_iff in E. contradiction. }
  unfold Py.truediv. rewrite Hw.
  rewrite (bind_ok _ _ _ _ _ _ s) by reflexivity.
  rewrite bind_gets, Ebs.
  rewrite (bind_ok _ _ _ _ _ _ s) by reflexivity.
  reflexivity.
Qed.

(** X18. [fit_to_width], on a page that has a size, under a rotation
    by a right angle and at a base scale that is not zero, is the
    call [set_zoom_factor] with the viewport width divided by the
    width of the rotated page and by the base scale.  When that
    factor lies within [0.1, 15] and further than 0.01 from the
    current one, the page at the new render scale (base scale times
    zoom factor) is exactly as wide as the viewport. *)
Theorem fit_to_width_fills_the_width
    (d : Fitz.Document) (s : PDFViewer) (size : Qt.QSize) (page : Fitz.Page) :
  has_open d s -> count d <> 0%Z ->
  viewport s = Some size ->
  Fitz.load_page d (current_page_index s) = inr page ->
  Fitz.is_empty (Fitz.rect page) = false ->
  right_angle (rotation s) ->
  ~ base_scale s == 0 ->
  exists m,
    Fitz.prerotate (Fitz.Matrix_scale 1 1) (rotation s) = Some m /\
    let page_width := Fitz.width (Fitz.transform (Fitz.rect page) m) in
    let factor := inject_Z (Qt.size_width size) / page_width / base_scale s in
    fit_to_width s = set_zoom_factor factor s /\
    (1 # 10 <= factor -> factor <= 15 ->
     1 # 100 < Qabs (factor - current_zoom_factor s) ->
     exists s', fit_to_width s = Ok tt s' /\
       base_scale s' * current_zoom_factor s' * page_width
       == inject_Z (Qt.size_width size)).
Proof.
  intros Ho Hcount Hvp Hpage Hne Hr Hb.
  destruct (fit_to_width_request d s size page Ho Hcount Hvp Hpage Hne Hr Hb)
    as [m [Hm [Hw Hrun]]].
  exists m. split; [exact Hm|]. intros page_width factor.
  split; [exact Hrun|]. intros Hlo Hhi Hfar.
  destruct (ViewProps.set_zoom_factor_takes factor s Hlo Hhi)
    as [s' [Hs' [Hz [Hn Hbs]]]].
  { destruct (Qlt_le_dec (factor - current_zoom_factor s) 0) as [Hneg | Hpos].
    - left. rewrite Qabs_neg in Hfar by lra. lra.
    - right. rewrite Qabs_pos in Hfar by lra. lra. }
  exists s'. split; [rewrite Hrun; exact Hs'|].
  rewrite Hbs, Hz, Hn. unfold factor. fold page_width in Hw. field.
  split; [lra | exact Hb].
Qed.

Lemma fit_to_width_fills_the_width_witness :
  let s := Samples.viewer Samples.a_pdf in
  exists s', fit_to_width s = Ok tt s' /\
    base_scale s' * current_zoom_factor s' * 612 == 800.
Proof.
  intros s.
  destruct (fit_to_width_fills_the_width Samples.three_pages s Samples.geometry
              (Samples.page_with_match Samples.r0))
    as [m [Hm [_ H]]].
  - split; reflexivity.
  - discriminate.
  - reflexivity.
  - reflexivity.
  - reflexivity.
  - left. reflexivity.
  - vm_compute. discriminate.
  - vm_compute in Hm. injection Hm as <-.
    destruct H as [s' [H1 H2]].
    + vm_compute. discriminate.
    + vm_compute. discriminate.
    + vm_compute. reflexivity.
    + exists s'. split; [exact H1|]. rewrite <- H2. vm_compute. reflexivity.
Defined.

End FitProps.

Module RenderProps.

Import Viewer Frame Runs Keeps RotationProps InvariantProps CloseProps.
Local Open Scope Z_scope.

Definition is_render_start (e : Effect) : bool :=
  match e with Start RenderJob => true | _ => false end.

(** How many render jobs the viewer has started. *)
Definition render_starts (s : PDFViewer) : nat :=
  List.length (filter is_render_start (trace s)).

Lemma render_starts_other_effect e s :
  is_render_start e = false ->
  render_starts (set_trace (trace s ++ [e]) s) = render_starts s.
Proof.
  intros He. unfold render_starts. simpl. rewrite filter_app. simpl.
  rewrite He, app_nil_r. reflexivity.
Qed.

Ltac render_starts_assigned :=
  first [ reflexivity | apply render_starts_other_effect; reflexivity ].

(** The calls that ask for a render through the timer. *)
Definition deferred (o : Op) : bool :=
  match o with
  | Set_zoom_factor _ | Handle_wheel_zoom _ | Zoom_in | Zoom_out
  | Rotate_right | Rotate_left | Fit_to_page | Fit_to_width | Resize _ => true
  | _ => false
  end.

Lemma deferred_starts_no_job (o : Op) :
  deferred o = true -> preserves render_starts (exec o).
Proof.
  destruct o; simpl; intros H; try discriminate; unfold exec;
    frame_using ltac:(render_starts_assigned).
Qed.

Lemma run_deferred_starts_no_job (ops : list Op) : forall s,
  forallb deferred ops = true -> render_starts (run ops s) = render_starts s.
Proof.
  induction ops as [|o ops IH]; intros s H; simpl in *.
  - reflexivity.
  - apply andb_prop in H. destruct H as [Ho Hops].
    rewrite (IH _ Hops). apply (deferred_starts_no_job o Ho).
Qed.

Lemma stop_render_job_starts_no_job : preserves render_starts stop_render_job.
Proof. frame_using ltac:(render_starts_assigned). Qed.

Lemma render_page_starts_at_most_one (s : PDFViewer) :
  (render_starts (final (_render_page s)) <= S (render_starts s))%nat.
Proof.
  unfold _render_page, bind at 1.
  pose proof (PageProps.doc_bool_pure s) as Hb.
  destruct (doc_bool s) as [b s1|e s1|s1]; simpl in Hb; subst s1;
    try (simpl; lia).
  destruct (negb b); [simpl; lia|].
  rewrite bind_gets. destruct (viewport s); [|simpl; lia].
  unfold bind at 1. pose proof (stop_render_job_starts_no_job s) as Hs.
  destruct (stop_render_job s) as [[] s1|e s1|s1]; simpl in Hs;
    try (simpl; lia).
  rewrite bind_gets. unfold bind at 1.
  assert (Hl : final (doc_load_page (current_page_index s1) s1) = s1).
  { unfold doc_load_page, bind, gets. destruct (doc s1) as [d|]; [|reflexivity].
    unfold lift. destruct (Fitz.load_page d _); reflexivity. }
  destruct (doc_load_page (current_page_index s1) s1) as [page s2|e s2|s2];
    simpl in Hl; subst s2; try (simpl; lia).
  rewrite !bind_gets, bind_modify. unfold effect, modify. simpl.
  unfold render_starts in *. simpl. rewrite filter_app, length_app. simpl. lia.
Qed.

(** X19. Zooming, fitting, rotating and resizing start no render job
    themselves: after any list of such calls the number of render
    jobs started is what it was.  The render timer firing after them
    starts at most one job, however many calls came before, and
    leaves the timer idle; firing again it does nothing. *)
Theorem zoom_and_resize_defer_rendering (ops : list Op) (s : PDFViewer) :
  forallb deferred ops = true ->
  let s1 := run ops s in
  let s2 := final (_render_timer_timeout s1) in
  render_starts s1 = render_starts s /\
  (render_starts s2 <= S (render_starts s))%nat /\
  render_timer_active s2 = false /\
  _render_timer_timeout s2 = Ok tt s2.
Proof.
  intros Hops s1 s2.
  pose proof (run_deferred_starts_no_job ops s Hops) as H1. fold s1 in H1.
  assert (Hidle : render_timer_active s2 = false).
  { subst s2. unfold _render_timer_timeout. rewrite bind_gets.
    destruct (render_timer_active s1) eqn:E; [|exact E].
    rewrite bind_modify.
    assert (Hp : preserves render_timer_active _render_page) by frame.
    rewrite Hp. reflexivity. }
  split; [exact H1|]. split; [|split; [exact Hidle|]].
  - subst s2. unfold _render_timer_timeout. rewrite bind_gets.
    destruct (render_timer_active s1); [|simpl; lia].
    rewrite bind_modify. rewrite <- H1.
    apply (render_page_starts_at_most_one (set_render_timer_active false s1)).
  - unfold _render_timer_timeout. rewrite bind_gets, Hidle. reflexivity.
Qed.

Lemma zoom_and_resize_defer_rendering_witness :
  let s := Samples.viewer Samples.a_pdf in
  let s1 := run [Zoom_in; Zoom_in; Rotate_right; Fit_to_width] s in
  render_starts s1 = 0%nat /\
  render_starts (final (_render_timer_timeout s1)) = 1%nat.
Proof.
  intros s s1.
  destruct (zoom_and_resize_defer_rendering
              [Zoom_in; Zoom_in; Rotate_right; Fit_to_width] s eq_refl)
    as [H1 _].
  split; [exact H1 | reflexivity].
Defined.


(** X20. [_render_page] on a viewer that shows a page of its open
    document.  Without a viewport it does nothing.  With one it
    returns, and the job it starts is for the page shown, at the
    rotation of the viewer and at the scale base scale times zoom
    factor; a job that was still running is interrupted and joined
    before the new one is started. *)
Theorem render_job_is_for_the_page_shown (d : Fitz.Document) (s : PDFViewer) :
  page_ok d s ->
  (viewport s = None -> _render_page s = Ok tt s) /\
  (viewport s <> None ->
   exists page s',
     Fitz.load_page d (current_page_index s) = inr page /\
     _render_page s = Ok tt s' /\
     page_render_thread s' =
       Some (mkPageRenderThread page (rotation s)
               (base_scale s * current_zoom_factor s)%Q true) /\
     trace s' = trace s
                ++ stop_effects RenderJob (worker_running RenderJob s)
                ++ [Start RenderJob]).
Proof.
  intros [Ho Hr].
  assert (Hc : (count d =? 0) = false) by (apply Z.eqb_neq; lia).
  split.
  - intros Hvp. unfold _render_page.
    rewrite (bind_ok _ _ _ _ _ _ _ (doc_bool_open d s Ho)), Hc. cbn [negb].
    rewrite bind_gets, Hvp. reflexivity.
  - intros Hvp.
    destruct (load_page_in_range d _ (proj2 Ho) Hr) as [page Hpage].
    exists page.
    destruct (stop_render_job_eq s) as [s1 [H1 [Ht1 [_ [_ Hd1]]]]].
    assert (Hf : forall B (f : PDFViewer -> B),
               preserves f stop_render_job -> f s1 = f s).
    { intros B f Hp. exact (after _ _ f _ s tt s1 Hp H1). }
    pose proof (Hf _ current_page_index ltac:(frame)) as Hcur.
    pose proof (Hf _ rotation ltac:(frame)) as Hrot.
    pose proof (Hf _ base_scale ltac:(frame)) as Hbs.
    pose proof (Hf _ current_zoom_factor ltac:(frame)) as Hz.
    assert (Hload : doc_load_page (current_page_index s1) s1 = Ok page s1).
    { unfold doc_load_page, bind, gets. rewrite Hd1, Hcur.
      destruct Ho as [Hd _]. rewrite Hd, Hpage. reflexivity. }
    unfold _render_page.
    rewrite (bind_ok _ _ _ _ _ _ _ (doc_bool_open d s Ho)), Hc. cbn [negb].
    rewrite bind_gets. destruct (viewport s) as [size|]; [|congruence].
    rewrite (bind_ok _ _ _ _ _ _ _ H1), bind_gets.
    rewrite (bind_ok _ _ _ _ _ _ _ Hload), !bind_gets, bind_modify.
    eexists. split; [exact Hpage|]. split; [reflexivity|].
    cbn. rewrite Hrot, Hbs, Hz, Ht1, <- app_assoc. split; reflexivity.
Qed.

Lemma render_job_is_for_the_page_shown_witness :
  let s := Samples.viewer Samples.a_pdf in
  exists page s',
    _render_page s = Ok tt s' /\
    page_render_thread s' = Some (mkPageRenderThread page 0 (1 * 1)%Q true) /\
    trace s' = [Start RenderJob].
Proof.
  intros s.
  destruct (render_job_is_for_the_page_shown Samples.three_pages s) as [_ H].
  - split; [split; reflexivity | unfold count; simpl; lia].
  - destruct H as [page [s' [_ [H1 [H2 H3]]]]]; [discriminate|].
    exists page, s'. split; [exact H1|]. split; [exact H2 | exact H3].
Defined.

(** The scroll positions asked for after a page was shown: [true] for
    the bottom, [false] for the top. *)
Definition scroll_requests (s : PDFViewer) : list bool :=
  flat_map (fun e => match e with Scroll_later b => [b] | _ => [] end) (trace s).

Definition is_page_ready (o : Op) : bool :=
  match o with Page_ready _ => true | _ => false end.

Definition to_bottom (s : PDFViewer) : Prop := scroll_to_bottom_on_load s = true.

Ltac flag_assigned := first [ assumption | reflexivity ].

Lemma other_calls_keep_the_flag (o : Op) :
  is_page_ready o = false -> keeps to_bottom (exec o).
Proof.
  destruct o; simpl; intros H; try discriminate;
    unfold exec, Window.next_result, Window.prev_result, to_bottom;
    repeat (keeps_step ltac:(flag_assigned) ltac:(fail)
            || autounfold with methods).
Qed.

Lemma run_keeps_the_flag (ops : list Op) : forall s,
  forallb (fun o => negb (is_page_ready o)) ops = true ->
  to_bottom s -> to_bottom (run ops s).
Proof.
  induction ops as [|o ops IH]; intros s H Hs; simpl in *.
  - exact Hs.
  - apply andb_prop in H. destruct H as [Ho Hops].
    apply (IH _ Hops). apply other_calls_keep_the_flag; [|exact Hs].
    destruct (is_page_ready o); [discriminate | reflexivity].
Qed.

Lemma scroll_requests_effect e s :
  scroll_requests (set_trace (trace s ++ [e]) s)
  = scroll_requests s ++ match e with Scroll_later b => [b] | _ => [] end.
Proof.
  unfold scroll_requests. simpl. rewrite flat_map_app. simpl.
  rewrite app_nil_r. reflexivity.
Qed.

Lemma on_page_ready_scrolls (scale : Q) (s : PDFViewer) :
  scroll_requests (final (_on_page_ready scale s))
  = scroll_requests s ++ [scroll_to_bottom_on_load s] /\
  scroll_to_bottom_on_load (final (_on_page_ready scale s)) = false.
Proof.
  assert (H1 : preserves scroll_requests _update_highlights).
  { frame_using ltac:(first [reflexivity
                            | rewrite scroll_requests_effect; apply app_nil_r]). }
  assert (H2 : preserves scroll_to_bottom_on_load _update_highlights) by frame.
  set (s0 := set_highlights []
               (set_trace (trace s ++ [Set_page_pixmap])
                  (set_current_render_scale scale s))).
  assert (Heq : _on_page_ready scale s =
                _update_highlights
                  (if scroll_to_bottom_on_load s
                   then set_scroll_to_bottom_on_load false
                          (set_trace (trace s0 ++ [Scroll_later true]) s0)
                   else set_trace (trace s0 ++ [Scroll_later false]) s0)).
  { cbv beta iota delta [_on_page_ready bind modify effect gets].
    cbn [scroll_to_bottom_on_load set_highlights set_trace set_current_render_scale
         trace].
    destruct (scroll_to_bottom_on_load s); reflexivity. }
  rewrite Heq, H1, H2.
  destruct (scroll_to_bottom_on_load s) eqn:E.
  - split; [|reflexivity].
    unfold scroll_requests. cbn. rewrite !flat_map_app. cbn.
    rewrite !app_nil_r. reflexivity.
  - split; [|cbn; exact E].
    unfold scroll_requests. cbn. rewrite !flat_map_app. cbn.
    rewrite !app_nil_r. reflexivity.
Qed.

(** X21. Going back one page sets [scroll_to_bottom_on_load], and the
    flag waits for the next rendered page: no other call clears it.
    The first page delivered by a render job after it, whichever page
    it is, is scrolled to its bottom and clears the flag; the page
    delivered after that is scrolled to its top. *)
Theorem going_back_scrolls_the_next_page_to_its_bottom
    (d : Fitz.Document) (s : PDFViewer) (ops : list Op) (scale scale' : Q) :
  page_ok d s -> 0 < current_page_index s ->
  forallb (fun o => negb (is_page_ready o)) ops = true ->
  let s1 := run ops (final (_handle_page_scroll (-1) s)) in
  let s2 := final (_on_page_ready scale s1) in
  let s3 := final (_on_page_ready scale' s2) in
  scroll_to_bottom_on_load s1 = true /\
  scroll_requests s2 = scroll_requests s1 ++ [true] /\
  scroll_to_bottom_on_load s2 = false /\
  scroll_requests s3 = scroll_requests s2 ++ [false].
Proof.
  intros [Ho Hr] Hpos Hops s1 s2 s3.
  assert (H0 : to_bottom (final (_handle_page_scroll (-1) s))).
  { unfold _handle_page_scroll. rewrite bind_gets.
    change (0 <? -1) with false. change (-1 <? 0) with true. cbv iota.
    apply Z.ltb_lt in Hpos. rewrite Hpos. cbn [andb]. rewrite bind_modify.
    assert (Hp : preserves scroll_to_bottom_on_load
                   (display_page (current_page_index s - 1))) by frame.
    unfold to_bottom. rewrite Hp. reflexivity. }
  pose proof (run_keeps_the_flag ops _ Hops H0) as H1. fold s1 in H1.
  unfold to_bottom in H1.
  destruct (on_page_ready_scrolls scale s1) as [H2 H3]. fold s2 in H2, H3.
  destruct (on_page_ready_scrolls scale' s2) as [H4 _]. fold s3 in H4.
  rewrite H1 in H2. rewrite H3 in H4. auto.
Qed.

Lemma going_back_scrolls_the_next_page_to_its_bottom_witness :
  let s := set_current_page_index 1 (Samples.viewer Samples.a_pdf) in
  let s1 := run [Handle_page_scroll 1] (final (_handle_page_scroll (-1) s)) in
  current_page_index s1 = 1 /\
  scroll_requests (final (_on_page_ready 1 s1)) = [true].
Proof.
  intros s s1.
  destruct (going_back_scrolls_the_next_page_to_its_bottom Samples.three_pages s
              [Handle_page_scroll 1] 1%Q 1%Q) as [_ [H _]].
  - split; [split; reflexivity | unfold count; simpl; lia].
  - simpl. lia.
  - reflexivity.
  - split; [reflexivity | exact H].
Defined.

End RenderProps.

(* ------------------------------------------------------------------ *)
(** ** The window *)

Module WindowProps.

Import Viewer Frame Runs Keeps Window Pages GraphicsView RotationProps InvariantProps
  PageTurnProps.
Local Open Scope Z_scope.

(** The events a viewer handles by itself, whichever tab it is in. *)
Inductive Event : Type :=
| Wheel_turned (event : QWheelEvent) (v_bar : QScrollBar)
| Resized (new_size : Qt.QSize)
| Render_timer_fired
| Page_delivered (scale : Q)
| Text_was_selected (scene_rect : Qt.QRectF)
| Scheduled_fit_to_page.      (* QTimer.singleShot(50, viewer.fit_to_page) *)

Definition handle (e : Event) : M unit :=
  match e with
  | Wheel_turned event v_bar => wheel event v_bar
  | Resized new_size => resizeEvent new_size
  | Render_timer_fired => _render_timer_timeout
  | Page_delivered scale => _on_page_ready scale
  | Text_was_selected scene_rect => _on_text_selected scene_rect
  | Scheduled_fit_to_page => fit_to_page
  end.

(** What the user asks of the window, and the events of its viewers. *)
Inductive Action : Type :=
| Add_new_tab (file_path : string)
| Close_tab (index : Z)
| Go_to_prev_page
| Go_to_next_page
| Go_to_page_from_input (text : string)
| Go_to_page_from_thumbnail (page_num : Z)
| Zoom_in_current
| Zoom_out_current
| Fit_to_width_current
| Fit_to_page_current
| Rotate_page_right
| Rotate_page_left
| Trigger_search (text : string)
| Go_to_next_result
| Go_to_prev_result
| Viewer_event (tab : Z) (e : Event).

(** A call on the viewer in tab [i]. *)
Definition on_tab (i : Z) (m : M unit) (w : MainWindow) : MainWindow :=
  match widget w i with
  | None => w
  | Some v =>
      mkMainWindow (replace_nth (Z.to_nat i) (final (m v)) (tabs w))
                   (current_index w) (pending_fit_to_page w)
  end.

Definition act (fitz_open : string -> option Fitz.Document) (geometry : Qt.QSize)
    (max_str_digits : Z) (w : MainWindow) (a : Action) : MainWindow :=
  match a with
  | Add_new_tab p => _add_new_tab fitz_open geometry p w
  | Close_tab i => _close_tab i w
  | Go_to_prev_page => _go_to_prev_page w
  | Go_to_next_page => _go_to_next_page w
  | Go_to_page_from_input text => fst (_go_to_page_from_input max_str_digits text w)
  | Go_to_page_from_thumbnail n => _go_to_page_from_thumbnail n w
  | Zoom_in_current => _zoom_in w
  | Zoom_out_current => _zoom_out w
  | Fit_to_width_current => _fit_to_width w
  | Fit_to_page_current => _fit_to_page w
  | Rotate_page_right => _rotate_page 90 w
  | Rotate_page_left => _rotate_page (-90) w
  | Trigger_search text => _trigger_search text w
  | Go_to_next_result => _go_to_next_result w
  | Go_to_prev_result => _go_to_prev_result w
  | Viewer_event i e => on_tab i (handle e) w
  end.

(** A tab in good order: its viewer shows a page of its open
    document, and the rest of [Inv]. *)
Definition tab_ok (v : PDFViewer) : Prop := exists d, Inv d v.

(** The current index is -1 without tabs and the index of a tab
    otherwise. *)
Definition index_ok (w : MainWindow) : Prop :=
  (tabs w = [] /\ current_index w = -1) \/
  0 <= current_index w < Z.of_nat (List.length (tabs w)).

Definition window_ok (w : MainWindow) : Prop :=
  Forall tab_ok (tabs w) /\ index_ok w.

Lemma length_replace_nth {A} (l : list A) : forall n a,
  List.length (replace_nth n a l) = List.length l.
Proof.
  induction l as [|c l IH]; intros [|n] a; simpl; try reflexivity.
  f_equal. apply IH.
Qed.

Lemma Forall_replace_nth {A} (P : A -> Prop) (l : list A) : forall n a,
  Forall P l -> P a -> Forall P (replace_nth n a l).
Proof.
  induction l as [|c l IH]; intros [|n] a Hl Ha; simpl; try exact Hl.
  - inversion Hl; subst. constructor; assumption.
  - inversion Hl; subst. constructor; [assumption | apply IH; assumption].
Qed.

Lemma Forall_remove_nth {A} (P : A -> Prop) (l : list A) : forall n,
  Forall P l -> Forall P (remove_nth n l).
Proof.
  induction l as [|c l IH]; intros [|n] Hl; simpl; try exact Hl.
  - inversion Hl; subst. assumption.
  - inversion Hl; subst. constructor; [assumption | apply IH; assumption].
Qed.

Lemma length_remove_nth {A} (l : list A) : forall n,
  (n < List.length l)%nat -> List.length (remove_nth n l) = pred (List.length l).
Proof.
  induction l as [|c l IH]; intros [|n] H; simpl in *; try lia.
  rewrite IH by lia. destruct l; simpl in *; lia.
Qed.

Lemma widget_in_range (w : MainWindow) (i : Z) (v : PDFViewer) :
  widget w i = Some v ->
  0 <= i < Z.of_nat (List.length (tabs w)) /\
  nth_error (tabs w) (Z.to_nat i) = Some v.
Proof.
  unfold widget. destruct (i <? 0) eqn:E; [discriminate|].
  apply Z.ltb_ge in E. intros H. split; [|exact H].
  assert (Hn : (Z.to_nat i < List.length (tabs w))%nat)
    by (apply nth_error_Some; congruence).
  lia.
Qed.

(** A call that keeps the tabs in good order, run on one tab. *)
Lemma on_tab_ok (i : Z) (m : M unit) (w : MainWindow) :
  (forall d, keeps (Inv d) m) -> window_ok w -> window_ok (on_tab i m w).
Proof.
  intros Hm [Htabs Hidx]. unfold on_tab.
  destruct (widget w i) as [v|] eqn:Hv; [|split; assumption].
  destruct (widget_in_range w i v Hv) as [Hi Hnth].
  split; cbn [tabs current_index].
  - apply Forall_replace_nth; [exact Htabs|].
    rewrite Forall_forall in Htabs.
    destruct (Htabs v (nth_error_In _ _ Hnth)) as [d Hd].
    exists d. apply Hm. exact Hd.
  - unfold index_ok in *. cbn [tabs current_index].
    rewrite length_replace_nth.
    destruct Hidx as [[Hnil _] | Hr]; [|right; exact Hr].
    rewrite Hnil in Hi. simpl in Hi. lia.
Qed.

Lemma on_current_viewer_ok (m : M unit) (w : MainWindow) :
  (forall d, keeps (Inv d) m) -> window_ok w -> window_ok (on_current_viewer m w).
Proof. intros Hm Hw. exact (on_tab_ok (current_index w) m w Hm Hw). Qed.

(** What [Inv] reads of a viewer. *)
Definition core (s : PDFViewer)
  : option Fitz.Document * Z * Q * Z * list (Z * Fitz.Rect) * Z :=
  (doc s, current_page_index s, current_zoom_factor s, rotation s,
   search_results s, current_search_index s).

Lemma Inv_core (d : Fitz.Document) (s s' : PDFViewer) :
  core s' = core s -> Inv d s -> Inv d s'.
Proof.
  unfold core. intros H. injection H as H1 H2 H3 H4 H5 H6.
  unfold Inv, page_ok, has_open, zoom_ok, rot_ok, hits_ok, cursor_ok.
  rewrite H1, H2, H3, H4, H5, H6. tauto.
Qed.

Lemma keeps_Inv_of_core A (d : Fitz.Document) (m : M A) :
  preserves core m -> keeps (Inv d) m.
Proof. intros Hp s Hs. apply (Inv_core d s); [apply Hp | exact Hs]. Qed.

Lemma restart_thumbnails_keeps_Inv d : keeps (Inv d) restart_thumbnails.
Proof. apply keeps_Inv_of_core. unfold restart_thumbnails. frame. Qed.

Lemma exec_keeps (d : Fitz.Document) (o : Op) : keeps (Inv d) (exec o).
Proof. intros s Hs. apply exec_keeps_inv. exact Hs. Qed.

Lemma handle_keeps_Inv d (e : Event) : keeps (Inv d) (handle e).
Proof.
  destruct e; cbn [handle].
  - unfold wheel. destruct (wheelEvent event v_bar) as [factor|direction|];
      cbn [deliver].
    + apply (exec_keeps d (Handle_wheel_zoom factor)).
    + apply (exec_keeps d (Handle_page_scroll direction)).
    + apply keeps_ret.
  - apply (exec_keeps d (Resize new_size)).
  - apply (exec_keeps d Render_timer_timeout).
  - apply (exec_keeps d (Page_ready scale)).
  - apply (exec_keeps d (Text_selected scene_rect)).
  - apply (exec_keeps d Fit_to_page).
Qed.

Lemma rotate_page_keeps_Inv d (o : Op) :
  keeps (Inv d) (exec o ;; restart_thumbnails).
Proof.
  apply keeps_bind; [apply exec_keeps | intros []; apply restart_thumbnails_keeps_Inv].
Qed.

Lemma next_page_keeps_Inv d : keeps (Inv d) next_page.
Proof.
  intros s Hs. pose proof (exec_keeps d (Handle_page_scroll 1) s Hs) as H.
  simpl in H. rewrite handle_page_scroll_eq in H. exact H.
Qed.

Lemma prev_page_keeps_Inv d : keeps (Inv d) prev_page.
Proof.
  intros s Hs. pose proof (exec_keeps d (Handle_page_scroll (-1)) s Hs) as H.
  simpl in H. rewrite handle_page_scroll_eq in H. exact H.
Qed.

Lemma keeps_try_ValueError A (P : PDFViewer -> Prop) (body handler : M A) :
  keeps P body -> keeps P handler ->
  keeps P (try_except_ValueError body handler).
Proof.
  intros Hb Hh s Hs. unfold try_except_ValueError.
  specialize (Hb s Hs).
  destruct (body s) as [a s'|e s'|s']; simpl in *; try exact Hb.
  destruct e; simpl; try exact Hb. apply Hh. exact Hb.
Qed.

Lemma page_from_input_keeps_Inv d lim text :
  keeps (Inv d) (page_from_input lim text).
Proof.
  unfold page_from_input. apply keeps_try_ValueError;
    repeat (keeps_step ltac:(fail) ltac:(apply (exec_keeps d (Display_page _)))
            || autounfold with methods).
Qed.

Lemma go_to_page_from_input_eq lim text w :
  fst (_go_to_page_from_input lim text w)
  = on_current_viewer (page_from_input lim text ;; ret tt) w.
Proof.
  unfold _go_to_page_from_input, on_current_viewer.
  destruct (_get_current_viewer w) as [v|]; [|reflexivity].
  cbn [fst]. unfold bind.
  destruct (page_from_input lim text v); reflexivity.
Qed.

(** [close] returns on a viewer with an open document. *)
Lemma close_returns (d : Fitz.Document) (s : PDFViewer) :
  has_open d s -> exists s', close s = Ok tt s'.
Proof.
  intros [Hd Hc].
  destruct (CloseProps.stop_thumbnail_stream_eq s) as [s1 [H1 [_ [_ [_ Hd1]]]]].
  destruct (CloseProps.stop_render_job_eq s1) as [s2 [H2 [_ [_ [_ Hd2]]]]].
  assert (Ho2 : has_open d s2) by (split; [congruence | exact Hc]).
  unfold close.
  rewrite (bind_ok _ _ _ _ _ _ _ H1), (bind_ok _ _ _ _ _ _ _ H2).
  rewrite (bind_ok _ _ _ _ _ _ _ (CloseProps.close_document_eq d s2 Ho2)).
  eexists. reflexivity.
Qed.

Lemma add_new_tab_ok fitz_open geometry p w :
  window_ok w -> window_ok (_add_new_tab fitz_open geometry p w).
Proof.
  intros [Htabs Hidx]. unfold _add_new_tab.
  destruct (find_tab p 0 (tabs w)) as [i|] eqn:Ef.
  - split; [exact Htabs|]. right. cbn [tabs current_index].
    destruct (TabProps.find_tab_some p (tabs w) 0 i Ef) as [Hle [v [Hnth _]]].
    assert (Hn : (Z.to_nat (i - 0) < List.length (tabs w))%nat)
      by (apply nth_error_Some; congruence).
    lia.
  - destruct (doc_bool (__init__ fitz_open geometry p)) as [b v|e v|v] eqn:Eb;
      try (split; assumption).
    destruct b; [|split; assumption].
    pose proof (TabProps.doc_bool_keeps_viewer _ _ _ Eb) as Hv. subst v.
    assert (Hfresh : tab_ok (__init__ fitz_open geometry p)).
    { unfold doc_bool, __init__, bind, gets in Eb. cbn [doc] in Eb.
      destruct (fitz_open p) as [d|] eqn:Eo; [|discriminate].
      unfold lift, Fitz.len in Eb.
      destruct (Fitz.is_closed d) eqn:Ec; [discriminate|].
      unfold ret in Eb. injection Eb as Eb.
      exists d. apply fresh_viewer_inv; [exact Eo | exact Ec|].
      unfold count. intros E. rewrite E in Eb. discriminate. }
    set (w' := mkMainWindow (tabs w ++ [__init__ fitz_open geometry p])
                 (Z.of_nat (List.length (tabs w))) (pending_fit_to_page w)).
    assert (Hw' : window_ok w').
    { unfold window_ok, index_ok, w'. cbn [tabs current_index]. split.
      - apply Forall_app. split; [exact Htabs|]. constructor; [exact Hfresh|].
        constructor.
      - right. rewrite length_app. simpl. lia. }
    destruct (on_current_viewer_ok restart_thumbnails w'
                restart_thumbnails_keeps_Inv Hw') as [H1 H2].
    split; [exact H1 | exact H2].
Qed.

Lemma close_tab_ok index w : window_ok w -> window_ok (_close_tab index w).
Proof.
  intros [Htabs Hidx]. unfold _close_tab.
  destruct (widget w index) as [v|] eqn:Hv; [|split; assumption].
  destruct (widget_in_range w index v Hv) as [Hi Hnth].
  pose proof Htabs as Hall. rewrite Forall_forall in Hall.
  destruct (Hall v (nth_error_In _ _ Hnth)) as [d [[Ho _] _]].
  destruct (close_returns d v Ho) as [v' Hclose]. rewrite Hclose.
  split; cbn [tabs current_index].
  - apply Forall_remove_nth. exact Htabs.
  - unfold index_ok. cbn [tabs current_index].
    destruct Hidx as [[Hnil _] | Hr].
    { rewrite Hnil in Hi. simpl in Hi. lia. }
    assert (Hlen : List.length (remove_nth (Z.to_nat index) (tabs w))
                   = pred (List.length (tabs w)))
      by (apply length_remove_nth; lia).
    unfold index_after_remove.
    destruct (Z.eq_dec (Z.of_nat (List.length (tabs w))) 1) as [E1 | E1].
    + left. split.
      * apply length_zero_iff_nil. lia.
      * assert (index = 0) by lia. assert (current_index w = 0) by lia.
        subst index. rewrite H0, E1. reflexivity.
    + right. rewrite Hlen.
      destruct (index <? current_index w) eqn:E2.
      * apply Z.ltb_lt in E2. lia.
      * apply Z.ltb_ge in E2.
        destruct (index =? current_index w) eqn:E3; cbn [andb].
        -- apply Z.eqb_eq in E3.
           destruct (current_index w =? Z.of_nat (List.length (tabs w)) - 1) eqn:E4.
           ++ apply Z.eqb_eq in E4. lia.
           ++ apply Z.eqb_neq in E4. lia.
        -- apply Z.eqb_neq in E3. lia.
Qed.

Lemma act_ok fitz_open geometry lim (w : MainWindow) (a : Action) :
  window_ok w -> window_ok (act fitz_open geometry lim w a).
Proof.
  intros Hw. destruct a; cbn [act].
  - apply add_new_tab_ok. exact Hw.
  - apply close_tab_ok. exact Hw.
  - apply on_current_viewer_ok; [intros d; apply prev_page_keeps_Inv | exact Hw].
  - apply on_current_viewer_ok; [intros d; apply next_page_keeps_Inv | exact Hw].
  - rewrite go_to_page_from_input_eq.
    apply on_current_viewer_ok; [|exact Hw]. intros d.
    apply keeps_bind; [apply page_from_input_keeps_Inv | intros ?; apply keeps_ret].
  - apply on_current_viewer_ok; [|exact Hw]. intros d.
    apply (exec_keeps d (Display_page page_num)).
  - apply on_current_viewer_ok; [|exact Hw]. intros d. apply (exec_keeps d Zoom_in).
  - apply on_current_viewer_ok; [|exact Hw]. intros d. apply (exec_keeps d Zoom_out).
  - apply on_current_viewer_ok; [|exact Hw]. intros d.
    apply (exec_keeps d Fit_to_width).
  - apply on_current_viewer_ok; [|exact Hw]. intros d.
    apply (exec_keeps d Fit_to_page).
  - apply on_current_viewer_ok; [|exact Hw]. intros d.
    apply (rotate_page_keeps_Inv d Rotate_right).
  - apply on_current_viewer_ok; [|exact Hw]. intros d.
    apply (rotate_page_keeps_Inv d Rotate_left).
  - apply on_current_viewer_ok; [|exact Hw]. intros d.
    apply (exec_keeps d (Search_text text)).
  - apply on_current_viewer_ok; [|exact Hw]. intros d.
    apply (exec_keeps d Next_result).
  - apply on_current_viewer_ok; [|exact Hw]. intros d.
    apply (exec_keeps d Prev_result).
  - apply on_tab_ok; [intros d; apply handle_keeps_Inv | exact Hw].
Qed.

Lemma acts_ok fitz_open geometry lim (actions : list Action) : forall w,
  window_ok w -> window_ok (fold_left (act fitz_open geometry lim) actions w).
Proof.
  induction actions as [|a actions IH]; intros w Hw; simpl.
  - exact Hw.
  - apply IH. apply act_ok. exact Hw.
Qed.

(** X22. From the window without tabs, through every sequence of
    actions of the user and events of the viewers: every tab holds a
    viewer with an open document, showing one of its pages, with a
    zoom factor within [0.1, 15] and a rotation among 0, 90, 180 and
    270; the current index is -1 exactly when there is no tab, and
    the index of a tab otherwise, so that a current viewer exists
    whenever a tab does. *)
Theorem window_invariants_hold
    (fitz_open : string -> option Fitz.Document) (geometry : Qt.QSize)
    (max_str_digits : Z) (actions : list Action) :
  let w := fold_left (act fitz_open geometry max_str_digits) actions Window.empty in
  (forall v, In v (tabs w) ->
     exists d, doc v = Some d /\ Fitz.is_closed d = false /\
       0 <= current_page_index v < count d /\
       (1 # 10 <= current_zoom_factor v /\ current_zoom_factor v <= 15)%Q /\
       right_angle (rotation v)) /\
  ((tabs w = [] /\ current_index w = -1) \/
   0 <= current_index w < Z.of_nat (List.length (tabs w))) /\
  (tabs w <> [] -> exists v, _get_current_viewer w = Some v /\ In v (tabs w)).
Proof.
  intros w.
  assert (H0 : window_ok Window.empty).
  { split; [constructor | left; split; reflexivity]. }
  pose proof (acts_ok fitz_open geometry max_str_digits actions _ H0) as [Htabs Hidx].
  fold w in Htabs, Hidx.
  split; [|split; [exact Hidx|]].
  - intros v Hv. rewrite Forall_forall in Htabs.
    destruct (Htabs v Hv) as [d [[[Hd Hc] Hp] [Hz [Hr _]]]].
    exists d. auto.
  - intros Hne. destruct Hidx as [[Hnil _] | Hr]; [contradiction|].
    unfold _get_current_viewer, widget.
    assert (E : (current_index w <? 0) = false) by (apply Z.ltb_ge; lia).
    rewrite E.
    destruct (nth_error (tabs w) (Z.to_nat (current_index w))) as [v|] eqn:En.
    + exists v. split; [reflexivity|]. eapply nth_error_In; eassumption.
    + apply nth_error_None in En. lia.
Qed.


Lemma window_invariants_hold_witness :
  let w := fold_left (act (fun _ => Some Samples.three_pages) Samples.geometry 4300)
             [Add_new_tab "a.pdf"; Go_to_next_page; Rotate_page_right;
              Add_new_tab "b.pdf"; Close_tab 1]
             Window.empty in
  current_index w = 0 /\
  exists v, _get_current_viewer w = Some v /\ current_page_index v = 1 /\
            rotation v = 90.
Proof.
  intros w.
  destruct (window_invariants_hold (fun _ => Some Samples.three_pages)
              Samples.geometry 4300
              [Add_new_tab "a.pdf"; Go_to_next_page; Rotate_page_right;
               Add_new_tab "b.pdf"; Close_tab 1]) as [_ [_ H]].
  fold w in H. split; [reflexivity|].
  destruct H as [v [Hv _]]; [discriminate|].
  exists v. split; [exact Hv|].
  vm_compute in Hv. injection Hv as <-. split; reflexivity.
Defined.

Lemma find_tab_not_in p l i :
  ~ In p (map file_path l) -> find_tab p i l = None.
Proof.
  intros Hn. destruct (find_tab p i l) as [j|] eqn:E; [|reflexivity].
  exfalso. apply Hn.
  destruct (TabProps.find_tab_some p l i j E) as [_ [v [Hnth Hp]]].
  apply in_map_iff. exists v. split; [exact Hp|]. eapply nth_error_In; eassumption.
Qed.

(** X23. [_add_new_tab] for a path that no tab has.  If the file
    cannot be opened, or opens as a document without pages, no tab is
    added and the window stays as it is.  Otherwise exactly one tab is
    appended and made current, the tabs before it are untouched, a
    fit-to-page is scheduled for the path, and the new viewer shows
    page 0 at zoom factor 1 and rotation 0 with its thumbnail stream
    started. *)
Theorem add_new_tab_opens_documents_with_pages
    (fitz_open : string -> option Fitz.Document) (geometry : Qt.QSize)
    (path : string) (w : MainWindow) :
  ~ In path (TabProps.paths w) ->
  let w' := _add_new_tab fitz_open geometry path w in
  match fitz_open path with
  | None => w' = w
  | Some d =>
      if Fitz.is_closed d || (count d =? 0) then w' = w
      else
        exists v,
          tabs w' = tabs w ++ [v] /\
          current_index w' = Z.of_nat (List.length (tabs w)) /\
          pending_fit_to_page w' = pending_fit_to_page w ++ [path] /\
          file_path v = path /\ doc v = Some d /\
          current_page_index v = 0 /\ current_zoom_factor v = 1%Q /\
          rotation v = 0 /\
          thumbnail_loader v = Some (mkThumbnailLoaderThread 0 true) /\
          trace v = [Start ThumbnailStream]
  end.
Proof.
  intros Hnew w'. subst w'. unfold _add_new_tab.
  rewrite (find_tab_not_in path (tabs w) 0 Hnew).
  set (v0 := __init__ fitz_open geometry path).
  assert (Hb : doc_bool v0 =
               match fitz_open path with
               | None => Ok false v0
               | Some d =>
                   if Fitz.is_closed d then Raise Py.ValueError v0
                   else Ok (negb (count d =? 0)) v0
               end).
  { unfold doc_bool, bind, gets.
    change (doc v0) with (fitz_open path).
    destruct (fitz_open path) as [d|]; [|reflexivity].
    unfold lift, Fitz.len, count. destruct (Fitz.is_closed d); reflexivity. }
  rewrite Hb. clear Hb.
  destruct (fitz_open path) as [d|] eqn:Eo; [|reflexivity].
  destruct (Fitz.is_closed d) eqn:Ec; [reflexivity|].
  cbn [orb].
  destruct (count d =? 0) eqn:En; cbn [negb]; [reflexivity|].
  unfold _refresh_thumbnails, on_current_viewer, _get_current_viewer, widget.
  cbn [tabs current_index pending_fit_to_page].
  assert (E : (Z.of_nat (List.length (tabs w)) <? 0) = false)
    by (apply Z.ltb_ge; lia).
  rewrite E, Nat2Z.id.
  rewrite nth_error_app2 by lia. rewrite Nat.sub_diag. cbn [nth_error].
  cbn [tabs current_index pending_fit_to_page].
  eexists. split.
  { assert (Hr : forall (l : list PDFViewer) a b,
               replace_nth (List.length l) b (l ++ [a]) = l ++ [b]).
    { induction l as [|c l IH]; intros a b; simpl; [reflexivity|].
      f_equal. apply IH. }
    apply Hr. }
  subst v0. unfold __init__. rewrite Eo. repeat split.
Qed.

Lemma add_new_tab_opens_documents_with_pages_witness :
  _add_new_tab (fun _ => Some (Fitz.mkDocument [] false)) Samples.geometry "empty.pdf"
    Window.empty = Window.empty /\
  exists v, tabs (_add_new_tab (fun _ => Some Samples.three_pages) Samples.geometry
                    "a.pdf" Window.empty) = [v] /\
            current_page_index v = 0.
Proof.
  split.
  - apply (add_new_tab_opens_documents_with_pages
             (fun _ => Some (Fitz.mkDocument [] false)) Samples.geometry "empty.pdf"
             Window.empty).
    simpl. tauto.
  - destruct (add_new_tab_opens_documents_with_pages
                (fun _ => Some Samples.three_pages) Samples.geometry "a.pdf"
                Window.empty) as [v [H1 [_ [_ [_ [_ [H2 _]]]]]]].
    + simpl. tauto.
    + exists v. split; [exact H1 | exact H2].
Defined.









End WindowProps.

(* ------------------------------------------------------------------ *)
(** ** The icon cache *)

Module IconProps.

Import Icons.
Local Open Scope string_scope.

(** The part of a text before its first underscore. *)
Fixpoint head (s : string) : string :=
  match s with
  | EmptyString => EmptyString
  | String c s' => if Ascii.eqb c "_" then EmptyString else String c (head s')
  end.

Lemma append_inv_head (a b c : string) : a ++ b = a ++ c -> b = c.
Proof.
  induction a as [|x a IH]; simpl; intros H; [exact H|].
  injection H as H. apply IH. exact H.
Qed.

Definition known (name : string) : Prop := In name _svg_data.

Lemma known_existsb (name : string) :
  existsb (String.eqb name) _svg_data = true <-> known name.
Proof.
  unfold known. rewrite existsb_exists. split.
  - intros [x [Hx E]]. apply String.eqb_eq in E. subst x. exact Hx.
  - intros H. exists name. split; [exact H | apply String.eqb_refl].
Qed.

(** Two known names with colours that give the same key are the same
    name with the same colour. *)
Lemma cache_key_injective (n n' c c' : string) :
  known n -> known n' -> cache_key n c = cache_key n' c' -> n = n' /\ c = c'.
Proof.
  intros Hn Hn' E.
  assert (Hnames : n = n').
  { assert (Hh : head (cache_key n c) = head (cache_key n' c')) by (rewrite E; reflexivity).
    unfold known, _svg_data in Hn, Hn'. simpl in Hn, Hn'.
    repeat (destruct Hn as [<- | Hn]; [|]); try contradiction;
    repeat (destruct Hn' as [<- | Hn']; [|]); try contradiction;
    try reflexivity; vm_compute in Hh; discriminate Hh. }
  subst n'. split; [reflexivity|].
  unfold cache_key in E. apply append_inv_head in E. injection E as E. exact E.
Qed.


(** The cache after a call. *)
Definition serve (cache : Cache) (request : string * string) : Cache :=
  snd (get_icon (fst request) (snd request) cache).

(** Every entry of the cache is the icon of a known name and a colour,
    stored under the key of that name and colour. *)
Definition cache_ok (cache : Cache) : Prop :=
  forall key icon, lookup key cache = Some icon ->
    exists n c, known n /\ icon = Rendered n c /\ key = cache_key n c.

Lemma serve_ok (cache : Cache) (request : string * string) :
  cache_ok cache -> cache_ok (serve cache request).
Proof.
  intros Hok. destruct request as [name color]. unfold serve, get_icon.
  cbn [fst snd].
  destruct (lookup (cache_key name color) cache) as [icon|]; [exact Hok|].
  destruct (existsb (String.eqb name) _svg_data) eqn:E; [|exact Hok].
  apply known_existsb in E. cbn [snd]. intros key icon H. cbn [lookup] in H.
  destruct (String.eqb (cache_key name color) key) eqn:Ek.
  - apply String.eqb_eq in Ek. injection H as <-.
    exists name, color. auto.
  - apply Hok. exact H.
Qed.

Lemma requests_ok (requests : list (string * string)) : forall cache,
  cache_ok cache -> cache_ok (fold_left serve requests cache).
Proof.
  induction requests as [|r requests IH]; intros cache H; simpl.
  - exact H.
  - apply IH. apply serve_ok. exact H.
Qed.

(** X26. The icon cache, after any requests since the start of the
    program.  For a name of [_svg_data], [get_icon] returns the icon
    of that name in that colour, whether it comes from the cache or is
    rendered now.  For any other name it returns the empty icon and
    caches nothing, unless the key it builds from name and colour is
    the key of a cached icon of a known name, which it then returns.
    Asking again returns the same icon and leaves the cache as it
    is. *)
Theorem icon_cache_serves_the_icon_asked_for
    (requests : list (string * string)) (name color : string) :
  let cache := fold_left serve requests [] in
  let icon := fst (get_icon name color cache) in
  let cache' := snd (get_icon name color cache) in
  (known name -> icon = Rendered name color) /\
  (~ known name ->
     cache' = cache /\
     (icon = Null_icon \/
      exists n c, known n /\ cache_key n c = cache_key name color /\
                  icon = Rendered n c)) /\
  get_icon name color cache' = (icon, cache').
Proof.
  intros cache icon cache'.
  assert (Hok : cache_ok cache).
  { apply requests_ok. intros key i H. discriminate. }
  subst icon cache'. unfold get_icon.
  destruct (lookup (cache_key name color) cache) as [i|] eqn:El.
  - destruct (Hok _ _ El) as [n [c [Hn [Hi Hk]]]]. cbn [fst snd].
    split; [|split].
    + intros Hname. symmetry in Hk.
      destruct (cache_key_injective n name c color Hn Hname Hk) as [-> ->].
      exact Hi.
    + intros _. split; [reflexivity|]. right. exists n, c. auto.
    + try rewrite El; reflexivity.
  - destruct (existsb (String.eqb name) _svg_data) eqn:E; cbn [fst snd].
    + apply known_existsb in E. split; [|split].
      * reflexivity.
      * intros Hn. contradiction.
      * cbn [lookup]. rewrite String.eqb_refl. reflexivity.
    + split; [|split].
      * intros Hn. apply known_existsb in Hn. congruence.
      * intros _. split; [reflexivity | left; reflexivity].
      * try rewrite El; try rewrite E; reflexivity.
Qed.

Lemma icon_cache_serves_the_icon_asked_for_witness :
  let cache := fold_left serve [("welcome_file", "#333")] [] in
  fst (get_icon "open" "#333" cache) = Rendered "open" "#333" /\
  fst (get_icon "welcome" "file_#333" cache) = Rendered "welcome_file" "#333" /\
  fst (get_icon "welcome" "#333" cache) = Null_icon.
Proof.
  intros cache.
  destruct (icon_cache_serves_the_icon_asked_for [("welcome_file", "#333")]
              "open" "#333") as [H _].
  split; [apply H; unfold known; simpl; tauto|].
  split; reflexivity.
Defined.

End IconProps.
